(** * A shallow embedding of the chunked download manager

    The development follows the two Go files of the program:
    [progress.go] (the progress bar) and [summon.go] (the supervisor, the
    chunk fetchers and the combiner).

    Conventions of the embedding:
    - [int64] and [int] values are [Z]; arithmetic that the program performs
      on them is wrapped with [wrap64] (two's complement);
    - [float64] values are [spec_float] (IEEE 754 binary64 as specified by
      the standard library: 53 bits of precision, [emax = 1024]);
    - Go maps whose values are pointers ([map[int64]*progress],
      [map[int64]*os.File]) are [gmap Z (option _)]: a key may be absent, or
      present and bound to [nil] (the value [None]); indexing an absent key
      yields [nil] as in Go;
    - a nil dereference or an out-of-range slice is the outcome [Panic];
    - the mutexes only delimit atomic accesses to the shared state: every
      locked region is one atomic step of the model. *)

From Stdlib Require Import ZArith List Bool Lia.
From Corelib Require Import SpecFloat.
From stdpp Require Import gmap strings list fin_maps pretty.

Open Scope Z_scope.

(** ** Machine integers *)

Definition wrap64 (z : Z) : Z := (z + 2 ^ 63) mod 2 ^ 64 - 2 ^ 63.

Definition in_int64 (z : Z) : Prop := - 2 ^ 63 <= z < 2 ^ 63.

(** ** Errors

    [io_EOF] and [ErrGracefulShutdown] are the two sentinel values the
    program compares against or returns; every other error is a message
    (what [fmt.Errorf] builds, or what the operating system and the HTTP
    client report), possibly wrapping another error. *)

Inductive error : Type :=
  | io_EOF
  | ErrGracefulShutdown
  | Errorf (msg : string)
  | Wrapf (msg : string) (cause : error).  (* fmt.Errorf("msg : %v", cause) *)

Global Instance error_eq_dec : EqDecision error.
Proof. solve_decision. Defined.

(** The result of a function that may panic. *)
Inductive outcome (A : Type) : Type :=
  | Ok (a : A)
  | Panic (why : string).
Arguments Ok {A} a.
Arguments Panic {A} why.

Global Instance outcome_ret : MRet outcome := fun _ a => Ok a.

Global Instance outcome_bind : MBind outcome := fun _ _ f x =>
  match x with
  | Ok a => f a
  | Panic w => Panic w
  end.

Definition newline : string := String (Ascii.ascii_of_nat 10) "".

Definition nil_deref : string := "invalid memory address or nil pointer dereference".

(** ** binary64 arithmetic used by [printProgress] *)

Module F64.

Definition prec : Z := 53.
Definition emax : Z := 1024.

(** Conversion [float64(z)] of an integer: round to nearest even. *)
Definition of_int (z : Z) : spec_float := binary_normalize prec emax z 0 false.

Definition mul : spec_float -> spec_float -> spec_float := SFmul prec emax.
Definition div : spec_float -> spec_float -> spec_float := SFdiv prec emax.

(** [math.Round]: nearest integer, halves away from zero; zeros,
    infinities and NaN are returned unchanged.  A finite value
    [m * 2^e] with [e >= 0] is an integer already; otherwise the [-e]
    low bits of the mantissa are the fraction. *)
Definition Round (x : spec_float) : spec_float :=
  match x with
  | S754_finite s m (Zneg k) =>
      let q := Z.shiftr (Zpos m) (Zpos k) in
      let r := Z.land (Zpos m) (Z.ones (Zpos k)) in
      let half := Z.shiftl 1 (Zpos k - 1) in
      let q' := if half <=? r then q + 1 else q in
      match q' with
      | Z0 => S754_zero s
      | _ => binary_normalize prec emax (if s then - q' else q') 0 false
      end
  | _ => x
  end.

(** The conversion [int(x)] as compiled for amd64 (CVTTSD2SQ): truncation
    toward zero, and the "integer indefinite" value [-2^63] for NaN,
    infinities and values out of range. *)
Definition to_int (x : spec_float) : Z :=
  match x with
  | S754_zero _ => 0
  | S754_finite s m e =>
      let a := match e with
               | Zneg k => Z.shiftr (Zpos m) (Zpos k)
               | _ => Z.shiftl (Zpos m) e
               end in
      let v := if s then - a else a in
      if (- 2 ^ 63 <=? v) && (v <? 2 ^ 63) then v else - 2 ^ 63
  | _ => - 2 ^ 63
  end.

Definition is_nan (x : spec_float) : bool :=
  match x with S754_nan => true | _ => false end.

Definition is_inf (x : spec_float) : bool :=
  match x with S754_infinity _ => true | _ => false end.

(** The exact integer a float stands for, when it is one. *)
Definition to_Z_exact (x : spec_float) : option Z :=
  match x with
  | S754_zero _ => Some 0
  | S754_finite s m e =>
      match e with
      | Zneg k =>
          if Z.land (Zpos m) (Z.ones (Zpos k)) =? 0
          then Some ((if s then -1 else 1) * Z.shiftr (Zpos m) (Zpos k))
          else None
      | _ => Some ((if s then -1 else 1) * Z.shiftl (Zpos m) e)
      end
  | _ => None
  end.

End F64.

(** ** progress.go *)

Record progress : Type := mkProgress {
  curr : Z;   (* curr is the current read till now *)
  total : Z;  (* total bytes which we are supposed to read *)
}.

(** [progressBar.p]; the embedded [RWMutex] is not state. *)
Abbreviation progressMap := (gmap Z (option progress)).

(** [m[i]] for a map of pointers: absent keys read as [nil]. *)
Definition index_ptr {A} (m : gmap Z (option A)) (i : Z) : option A :=
  match m !! i with
  | Some v => v
  | None => None
  end.

(** [len(m)] *)
Definition len {A} (m : gmap Z A) : Z := Z.of_nat (size m).

Section Progress.

(** [fmt]'s rendering of a [float64] under the verb [%v] belongs to the
    Go library, not to the program. *)
Variable Sprint_float64 : spec_float -> string.

(** The package variable [progressSize] is set once by [process]. *)
Variable progressSize : Z.

Definition percent_of (p : progress) : spec_float :=
  F64.Round (F64.mul (F64.div (F64.of_int (curr p)) (F64.of_int (total p)))
                     (F64.of_int 100)).

Definition cells_of (percent : spec_float) : Z :=
  F64.to_int (F64.mul (F64.div percent (F64.of_int 100)) (F64.of_int progressSize)).

(** The loop [for i := 0; i < progressSize; i++] of [printProgress]: [todo]
    counts the iterations left. *)
Fixpoint bar_loop (todo : nat) (i n : Z) : string :=
  match todo with
  | O => ""
  | S todo' =>
      (if i <=? n then ">" else " ") +:+ bar_loop todo' (i + 1) n
  end.

Definition bar (n : Z) : string := bar_loop (Z.to_nat progressSize) 0 n.

(** [printProgress]: the text written to standard output. *)
Definition printProgress (index : Z) (p : progress) : string :=
  let percent := percent_of p in
  let n := cells_of percent in
  let s := "[" +:+ bar n +:+ "]" +:+ (" " +:+ Sprint_float64 percent +:+ "%") in
  "Connection " +:+ pretty (wrap64 (index + 1)) +:+ "  - " +:+ s +:+ newline.

(** One pass [for i := int64(0); i < int64(len(p)); i++] of
    [startProgressBar]: the entry is dereferenced without a check. *)
Fixpoint render_loop (todo : nat) (i : Z) (pm : progressMap) : outcome (list string) :=
  match todo with
  | O => Ok []
  | S todo' =>
      match index_ptr pm i with
      | None => Panic nil_deref
      | Some p =>
          rest ← render_loop todo' (i + 1) pm;
          Ok (printProgress i p :: rest)
      end
  end.

Definition render_all (pm : progressMap) : outcome (list string) :=
  render_loop (size pm) 0 pm.

(** The second loop of the ticker case: move the cursor back. *)
Definition cursor_up : string := String (Ascii.ascii_of_nat 27) "[F".

Definition move_cursor_back (pm : progressMap) : list string :=
  replicate (size pm) cursor_up.

End Progress.

(** A rendering of [%v] used in the examples: it agrees with Go's on NaN,
    on the infinities, on the zeros and on integral values of magnitude
    below [10^6] (from there on Go switches to the exponent notation). *)
Definition Sprint_float64_small (x : spec_float) : string :=
  match x with
  | S754_nan => "NaN"
  | S754_infinity false => "+Inf"
  | S754_infinity true => "-Inf"
  | S754_zero true => "-0"
  | _ => match F64.to_Z_exact x with
         | Some z => pretty z
         | None => "?"
         end
  end.

(** ** summon.go: data *)

(** An open [*os.File]: the path it was opened on, its cursor and whether it
    has been closed.  The bytes live in the file system. *)
Record File : Type := mkFile {
  fname : string;
  fpos : nat;
  fclosed : bool;
}.

Abbreviation filesystem := (gmap string (list Byte.byte)).

(** [fileDetails]; the [resume] map is not read by the functions embedded
    here and its value type is declared elsewhere. *)
Record fileDetails : Type := mkFileDetails {
  chunks : gmap Z (option File);  (* Map of part files we are creating *)
  fileName : string;              (* name of the file we are downloading *)
  fileDir : string;               (* dir of the file *)
  absolutePath : string;          (* absolute path of the output file *)
  tempOutFile : File;             (* output / downloaded file *)
  contentLength : Z;
}.

(** [summon]; [startTime], [metaData], the [stop] channel and the mutex are
    not state of the model: the channel is the environment of a fetcher (see
    [getDataAndWriteToFile]). *)
Record summon : Type := mkSummon {
  concurrency : Z;            (* No. of connections *)
  uri : string;               (* URL of the file we want to download *)
  isResume : bool;            (* is this a resume request *)
  isRangeSupported : bool;    (* if this request supports range *)
  err : option error;         (* used when error occurs inside a goroutine *)
  details : fileDetails;      (* the field [fileDetails] *)
  progressBar : progressMap;  (* index => progress *)
  separator : string;         (* the path separator based on the OS *)
}.

Definition set_concurrency (c : Z) (sum : summon) : summon :=
  mkSummon c (uri sum) (isResume sum) (isRangeSupported sum) (err sum)
           (details sum) (progressBar sum) (separator sum).

Definition set_err (e : option error) (sum : summon) : summon :=
  mkSummon (concurrency sum) (uri sum) (isResume sum) (isRangeSupported sum) e
           (details sum) (progressBar sum) (separator sum).

Definition set_progressBar (pm : progressMap) (sum : summon) : summon :=
  mkSummon (concurrency sum) (uri sum) (isResume sum) (isRangeSupported sum)
           (err sum) (details sum) pm (separator sum).

Definition set_details (d : fileDetails) (sum : summon) : summon :=
  mkSummon (concurrency sum) (uri sum) (isResume sum) (isRangeSupported sum)
           (err sum) d (progressBar sum) (separator sum).

Definition set_chunks (c : gmap Z (option File)) (d : fileDetails) : fileDetails :=
  mkFileDetails c (fileName d) (fileDir d) (absolutePath d) (tempOutFile d)
                (contentLength d).

Definition set_tempOutFile (f : File) (d : fileDetails) : fileDetails :=
  mkFileDetails (chunks d) (fileName d) (fileDir d) (absolutePath d) f
                (contentLength d).

(** What the program does that can be observed from outside, in order. *)
Inductive event : Type :=
  | EvRendererStarted                  (* go sum.startProgressBar(pWg, stop) *)
  | EvFetchersJoined                   (* wg.Wait() returned *)
  | EvStopSent                         (* stop <- struct{}{} was received *)
  | EvRendererDone                     (* pWg.Wait() returned *)
  | EvPrint (s : string)               (* a write to standard output *)
  | EvSeek (index : Z)                 (* handle.Seek(0, 0) on chunk [index] *)
  | EvCopy (index : Z) (written : Z)   (* io.Copy(tempOutFile, handle) *)
  | EvRename (old new : string).       (* os.Rename succeeded *)

Global Instance event_eq_dec : EqDecision event.
Proof. solve_decision. Defined.

(** The state the functions of summon.go run in. *)
Record state : Type := mkState {
  st_sum : summon;
  st_fs : filesystem;
  st_trace : list event;
}.

Definition emit (evs : list event) (st : state) : state :=
  mkState (st_sum st) (st_fs st) (st_trace st ++ evs).

(** ** The operating system, as far as the program uses it *)

Definition os_ErrClosed : error := Errorf "file already closed".
Definition os_ErrNotExist : error := Errorf "no such file or directory".

Definition file_content (fs : filesystem) (f : File) : list Byte.byte :=
  default [] (fs !! fname f).

(** [f.Seek(0, 0)]; on a closed file the call fails and nothing moves. *)
Definition Seek0 (f : File) : File :=
  if fclosed f then f else mkFile (fname f) 0 false.

(** [f.Close()] *)
Definition Close (f : File) : File := mkFile (fname f) (fpos f) true.

(** Writing [bytes] at offset [pos] of a file holding [data]; a gap is
    filled with zero bytes. *)
Definition write_at (data : list Byte.byte) (pos : nat) (bytes : list Byte.byte)
  : list Byte.byte :=
  take pos data ++ replicate (pos - length data)%nat Byte.x00 ++ bytes
    ++ drop (pos + length bytes)%nat data.

(** [io.Copy(dst, src)]: everything from the cursor of [src] to its end is
    written at the cursor of [dst].  The source is read before the
    destination is written.  A closed file on either side is an error. *)
Definition io_Copy (fs : filesystem) (dst src : File)
  : filesystem * File * File * Z * option error :=
  if fclosed src || fclosed dst then (fs, dst, src, 0, Some os_ErrClosed)
  else
    let bytes := drop (fpos src) (file_content fs src) in
    let fs' := <[fname dst := write_at (file_content fs dst) (fpos dst) bytes]> fs in
    (fs',
     mkFile (fname dst) (fpos dst + length bytes)%nat false,
     mkFile (fname src) (fpos src + length bytes)%nat false,
     Z.of_nat (length bytes), None).

(** [os.Rename(old, new)]: fails when [old] does not exist. *)
Definition os_Rename (fs : filesystem) (old new : string) : filesystem * option error :=
  match fs !! old with
  | None => (fs, Some os_ErrNotExist)
  | Some data => (<[new := data]> (delete old fs), None)
  end.

(** ** summon.go: configuration *)

Section Constants.

(** The constants [DEFAULT_CONN] and [MAX_CONN] are declared in a file of
    the package that is not part of this development. *)
Variables DEFAULT_CONN MAX_CONN : Z.

(** [setConcurrency] set the concurrency as per min and max.  The function
    has no result: it cannot report an error. *)
Definition setConcurrency (c : Z) (sum : summon) : summon :=
  if c <=? 0 then set_concurrency DEFAULT_CONN sum
  else if MAX_CONN <=? c then set_concurrency MAX_CONN sum
  else set_concurrency c sum.

End Constants.

(** ** summon.go: the combiner *)

(** The loop of [combineChunks].  The source compares [i] with
    [len(chunks)] at every iteration; the body only replaces the value at a
    key that is present, so the bound is the size on entry and [todo] counts
    the iterations left.  [w] is the running total of bytes written. *)
Fixpoint combine_loop (todo : nat) (i w : Z) (st : state) : state * Z * option error :=
  match todo with
  | O => (st, w, None)
  | S todo' =>
      let d := details (st_sum st) in
      match index_ptr (chunks d) i with
      | None => (st, w, Some (Errorf "got chunk handle nil"))
      | Some handle =>
          let handle := Seek0 handle in
          let '(fs', dst', src', written, e) :=
            io_Copy (st_fs st) (tempOutFile d) handle in
          let d' := set_tempOutFile dst' (set_chunks (<[i := Some src']> (chunks d)) d) in
          let st' := mkState (set_details d' (st_sum st)) fs'
                             (st_trace st ++ [EvSeek i; EvCopy i written]) in
          match e with
          | Some e => (st', w, Some (Wrapf "error occured while copying to temp file" e))
          | None => combine_loop todo' (i + 1) (wrap64 (w + written)) st'
          end
      end
  end.

Definition finalFileName (sum : summon) : string :=
  fileDir (details sum) +:+ separator sum +:+ fileName (details sum).

(** [combineChunks] will combine the chunks in ordered fashion.  The log
    lines are not modelled. *)
Definition combineChunks (st : state) : state * option error :=
  let '(st1, w, e) := combine_loop (size (chunks (details (st_sum st)))) 0 0 st in
  match e with
  | Some e => (st1, Some e)
  | None =>
      let tempFileName := fname (tempOutFile (details (st_sum st1))) in
      let final := finalFileName (st_sum st1) in
      match os_Rename (st_fs st1) tempFileName final with
      | (_, Some e) => (st1, Some (Wrapf "error occured while renaming file" e))
      | (fs', None) =>
          (mkState (st_sum st1) fs' (st_trace st1 ++ [EvRename tempFileName final]), None)
      end
  end.

(** ** summon.go: the chunk fetcher *)

(** The interface [io.Writer]. *)
Class io_Writer (W : Type) : Type :=
  Write : W -> list Byte.byte -> W * (Z * option error).

(** A sink in memory; with [sink_fault] set every [Write] fails with that
    error and accepts nothing. *)
Record sink : Type := mkSink {
  sink_data : list Byte.byte;
  sink_fault : option error;
}.

Global Instance sink_Writer : io_Writer sink := fun w bytes =>
  match sink_fault w with
  | Some e => (w, (0, Some e))
  | None => (mkSink (sink_data w ++ bytes) None, (Z.of_nat (length bytes), None))
  end.

(** A chunk file on a file system. *)
Global Instance File_Writer : io_Writer (File * filesystem) := fun w bytes =>
  let '(f, fs) := w in
  if fclosed f then (w, (0, Some os_ErrClosed))
  else ((mkFile (fname f) (fpos f + length bytes)%nat false,
         <[fname f := write_at (file_content fs f) (fpos f) bytes]> fs),
        (Z.of_nat (length bytes), None)).

(** What one call [body.Read(buf)] delivers: the bytes put in [buf] and the
    error.  A response body is the sequence of these results; once it is
    exhausted every further [Read] returns [0, io.EOF]. *)
Definition read_result : Type := list Byte.byte * option error.
Definition Body : Type := list read_result.

Definition buf_len : Z := 500.

(** [readBody], given what [body.Read(buf)] returned.  The result of
    [f.Write] is discarded, as in the source. *)
Definition readBody {W} `{io_Writer W} (rd : read_result) (f : W) (index : Z)
    (sum : summon) : outcome (summon * W * option error) :=
  let '(data, e) := rd in
  let r := Z.of_nat (length data) in
  if 0 <? r then
    if buf_len <? r then Panic "slice bounds out of range"
    else
      let f' := fst (Write f data) in
      match index_ptr (progressBar sum) index with
      | None => Panic nil_deref
      | Some pr =>
          let pr' := mkProgress (wrap64 (curr pr + r)) (total pr) in
          Ok (set_progressBar (<[index := Some pr']> (progressBar sum)) sum, f', e)
      end
  else Ok (sum, f, e).

(** [getDataAndWriteToFile]: [polls] tells, for each iteration of the loop,
    whether a value is ready on the channel [sum.stop] when the [select] is
    evaluated (no value once the list is exhausted).  The timer is not
    modelled. *)
Fixpoint getDataAndWriteToFile {W} `{io_Writer W} (polls : list bool) (body : Body)
    (f : W) (index : Z) (sum : summon) : outcome (summon * W * option error) :=
  if hd false polls then Ok (sum, f, Some ErrGracefulShutdown)
  else
    match body with
    | [] => Ok (sum, f, None)          (* Read returns 0, io.EOF *)
    | rd :: body' =>
        res ← readBody rd f index sum;
        let '(sum', f', e) := res in
        match e with
        | Some io_EOF => Ok (sum', f', None)
        | Some e => Ok (sum', f', Some e)
        | None => getDataAndWriteToFile (tl polls) body' f' index sum'
        end
    end.

Record response : Type := mkResponse {
  StatusCode : Z;
  RespBody : Body;
}.

(** The environment of one fetcher: the outcome of [http.NewRequest], of
    [client.Do], and the readiness of the stop channel at each poll. *)
Record fetch_env : Type := mkFetchEnv {
  NewRequest_err : option error;
  Do_result : error + response;
  stop_polls : list bool;
}.

Definition unexpected_status (code : Z) : error :=
  Errorf ("did not get 20X status code, got : " +:+ pretty code).

(** [downloadFileForRange] will download the file for the provided range and
    set [sum.err] if an error occurs.  The third component of the result is
    what [log.Println(sum.err)] printed. *)
Definition downloadFileForRange {W} `{io_Writer W} (env : fetch_env) (index : Z)
    (handle : W) (sum : summon) : outcome (summon * W * list error) :=
  match NewRequest_err env with
  | Some e => Ok (set_err (Some e) sum, handle, [])
  | None =>
      match Do_result env with
      | inl e => Ok (set_err (Some e) sum, handle, [])
      | inr resp =>
          if negb (StatusCode resp =? 200) && negb (StatusCode resp =? 206) then
            let e := unexpected_status (StatusCode resp) in
            Ok (set_err (Some e) sum, handle, [e])
          else
            res ← getDataAndWriteToFile (stop_polls env) (RespBody resp) handle index sum;
            let '(sum', handle', e) := res in
            match e with
            | Some e => Ok (set_err (Some e) sum', handle', [e])
            | None => Ok (sum', handle', [])
            end
      end
  end.

(** ** summon.go: the supervisor *)

(** The accesses of a fetcher to the state it shares with the other
    goroutines, each of them atomic: a write to its chunk file, the locked
    increment of its progress counter, the locked assignment of [sum.err]. *)
Inductive fetch_action : Type :=
  | ActWrite (f : File) (data : list Byte.byte)
  | ActAdd (index : Z) (r : Z)
  | ActSetErr (e : error).

Definition apply_action (a : fetch_action) (st : state) : outcome state :=
  match a with
  | ActWrite f data =>
      Ok (mkState (st_sum st) (snd (fst (Write (f, st_fs st) data))) (st_trace st))
  | ActAdd index r =>
      match index_ptr (progressBar (st_sum st)) index with
      | None => Panic nil_deref
      | Some pr =>
          let pr' := mkProgress (wrap64 (curr pr + r)) (total pr) in
          Ok (mkState (set_progressBar (<[index := Some pr']> (progressBar (st_sum st)))
                                       (st_sum st))
                      (st_fs st) (st_trace st))
      end
  | ActSetErr e => Ok (mkState (set_err (Some e) (st_sum st)) (st_fs st) (st_trace st))
  end.

(** The actions of [readBody] and of the loop around it, in order. *)
Definition read_actions (f : File) (index : Z) (rd : read_result) : list fetch_action :=
  if 0 <? Z.of_nat (length (fst rd))
  then [ActWrite f (fst rd); ActAdd index (Z.of_nat (length (fst rd)))]
  else [].

(** What runs between the start of the renderer and the moment all the
    fetchers have joined: actions of the fetchers and ticks of the timer of
    the renderer, in the order the scheduler picked. *)
Inductive sched_event : Type :=
  | SFetch (a : fetch_action)
  | STick.

Section Supervisor.

Variable Sprint_float64 : spec_float -> string.

(** The value of [getProgressSize()] and the two downloaders
    [sum.download] and [sum.resumeDownload] are defined in files of the
    package that are not part of this development.  A downloader prepares
    the chunk files and the progress map, starts the fetchers and returns;
    what the fetchers then do is the schedule given to [process]. *)
Variable getProgressSize : Z.
Variables download resumeDownload : state -> state * option error.

Definition getDownloader (sum : summon) : state -> state * option error :=
  if isResume sum then resumeDownload else download.

Definition print_all (lines : list string) (st : state) : state :=
  emit (EvPrint <$> lines) st.

(** [startProgressBar], the case [<-ticker.C] *)
Definition ticker_case (st : state) : outcome state :=
  lines ← render_all Sprint_float64 getProgressSize (progressBar (st_sum st));
  Ok (print_all (move_cursor_back (progressBar (st_sum st))) (print_all lines st)).

(** [startProgressBar], the case [<-stop]: render, then return (which
    runs the deferred [wg.Done()]). *)
Definition stop_case (st : state) : outcome state :=
  lines ← render_all Sprint_float64 getProgressSize (progressBar (st_sum st));
  Ok (emit [EvRendererDone] (print_all lines st)).

Fixpoint run_sched (sched : list sched_event) (st : state) : outcome state :=
  match sched with
  | [] => Ok st
  | SFetch a :: sched' => st' ← apply_action a st; run_sched sched' st'
  | STick :: sched' => st' ← ticker_case st; run_sched sched' st'
  end.

(** The deferred calls of [process]: every file is closed. *)
Definition close_all (st : state) : state :=
  let d := details (st_sum st) in
  let d' := set_tempOutFile (Close (tempOutFile d))
              (set_chunks (option_map Close <$> chunks d) d) in
  mkState (set_details d' (st_sum st)) (st_fs st) (st_trace st).

(** [process] is the manager method. *)
Definition process (sched : list sched_event) (st : state)
  : outcome (state * option error) :=
  let '(st0, e) := getDownloader (st_sum st) st in
  match e with
  | Some e => Ok (st0, Some e)
  | None =>
      (* go sum.startProgressBar(pWg, stop); wg.Wait() *)
      st1 ← run_sched sched (emit [EvRendererStarted] st0);
      (* stop <- struct{}{}; pWg.Wait() *)
      st2 ← stop_case (emit [EvFetchersJoined; EvStopSent] st1);
      match err (st_sum st2) with
      | Some e => Ok (close_all st2, Some e)
      | None =>
          let '(st3, e) := combineChunks st2 in
          Ok (close_all st3, e)
      end
  end.

End Supervisor.

(** ** summon.go: the names of the part files *)

(** [getTempFileName]: [fmt.Sprintf("%s%s.%s.sump%d", ...)].  The parameters
    [start] and [end] are not used and the error is always nil. *)
Definition getTempFileName (sum : summon) (index start end_ : Z) : string * option error :=
  (fileDir (details sum) +:+ separator sum +:+ "." +:+ fileName (details sum)
     +:+ ".sump" +:+ pretty index,
   None).

(** ** summon.go: the requests that probe the server *)

(** [http.Header]: the values of each key, under its canonical spelling.
    [Get] gives the first value of the key, or the empty string. *)
Abbreviation Header := (gmap string (list string)).

Definition Header_Get (h : Header) (key : string) : string :=
  match h !! key with
  | Some (v :: _) => v
  | _ => ""
  end.

(** The response to the request of [doAPICall]: its status, its headers and
    what [io.ReadAll] makes of its body. *)
Record api_response : Type := mkApiResponse {
  api_status : Z;
  api_header : Header;
  api_body : error + list Byte.byte;
}.

(** What the network does to a probe: the outcome of [http.NewRequest] and
    of [client.Do]. *)
Record api_env : Type := mkApiEnv {
  api_NewRequest_err : option error;
  api_Do : error + api_response;
}.

(** [doAPICall] will do the api call and return statuscode, headers, data,
    error respectively. *)
Definition doAPICall (env : api_env) : Z * Header * list Byte.byte * option error :=
  match api_Do env with
  | inl e => (0, ∅, [], Some (Wrapf "error while doing request" e))
  | inr resp =>
      match api_body resp with
      | inl e => (0, ∅, [], Some (Wrapf "error while reading response body" e))
      | inr data => (api_status resp, api_header resp, data, None)
      end
  end.

Section Probes.

(** [parseint64] is defined in a file of the package that is not part of
    this development; its result is a slice of numbers, of which
    [getRangeDetails] takes the first, and an error. *)
Variable parseint64 : string -> list Z * option error.

(** [mime.ParseMediaType] belongs to the Go library: the media type, its
    parameters and an error. *)
Variable mime_ParseMediaType : string -> string * gmap string string * option error.

(** [getRangeDetails] returns ifRangeIsSupported, the content length and an
    error. *)
Definition getRangeDetails (env : api_env) : outcome (bool * Z * option error) :=
  match api_NewRequest_err env with
  | Some e => Ok (false, 0, Some (Wrapf "error while creating request" e))
  | None =>
      let '(sc, headers, _, e) := doAPICall env in
      match e with
      | Some e => Ok (false, 0, Some (Wrapf "error calling url" e))
      | None =>
          if negb (sc =? 200) && negb (sc =? 206)
          then Ok (false, 0, Some (Errorf "did not get 200 or 206 response"))
          else
            let conLen := Header_Get headers "Content-Length" in
            let '(cl, e) := parseint64 conLen in
            match e with
            | Some e => Ok (false, 0, Some (Wrapf "error Parsing content length" e))
            | None =>
                match cl with
                | [] => Panic "index out of range"
                | cl0 :: _ =>
                    (* Accept-Ranges: bytes *)
                    if String.eqb (Header_Get headers "Accept-Ranges") "bytes"
                    then Ok (true, cl0, None)
                    else Ok (false, cl0, None)
                end
            end
      end
  end.

Definition not_200 (sc : Z) : error :=
  Errorf ("did not get 200 response in getFileNameFromHeaders : " +:+ pretty sc).

(** [getFileNameFromHeaders]: the file name the server announces in the
    header [Content-Disposition], if any. *)
Definition getFileNameFromHeaders (env : api_env) : string * option error :=
  match api_NewRequest_err env with
  | Some e => ("", Some e)
  | None =>
      let '(sc, headers, _, e) := doAPICall env in
      match e with
      | Some e => ("", Some e)
      | None =>
          if negb (sc =? 200) then ("", Some (not_200 sc))
          else
            let cd := Header_Get headers "Content-Disposition" in
            (* Content-Disposition is not present so filename is not there *)
            if String.eqb cd "" then ("", None)
            else
              let '(_, params, e) := mime_ParseMediaType cd in
              match e with
              | Some e => ("", Some e)
              | None => (default "" (params !! "filename"), None)
              end
      end
  end.

(** ** summon.go: where the file goes *)

(** The functions of [path/filepath] belong to the Go library. *)
Variable filepath_Base : string -> string.
Variable filepath_Dir : string -> string.
Variable filepath_IsAbs : string -> bool.
Variable filepath_Abs : string -> string * option error.

Definition set_fileName (name : string) (d : fileDetails) : fileDetails :=
  mkFileDetails (chunks d) name (fileDir d) (absolutePath d) (tempOutFile d)
                (contentLength d).

Definition set_absolutePath (path : string) (d : fileDetails) : fileDetails :=
  mkFileDetails (chunks d) (fileName d) (fileDir d) path (tempOutFile d)
                (contentLength d).

Definition set_fileDir (dir : string) (d : fileDetails) : fileDetails :=
  mkFileDetails (chunks d) (fileName d) dir (absolutePath d) (tempOutFile d)
                (contentLength d).

(** [setAbsolutePath]; [env] is the server behind [sum.uri], which is asked
    only when no output path was passed. *)
Definition setAbsolutePath (env : api_env) (opath : string) (sum : summon)
  : summon * option error :=
  let named : error + summon * string :=
    if String.eqb opath "" then
      let '(filename, e) := getFileNameFromHeaders env in
      match e with
      | Some e => inl e
      | None =>
          if String.eqb filename ""
          then inr (sum, filepath_Base (uri sum))   (* Get the filename from the url *)
          else inr (set_details (set_fileName filename (details sum)) sum, filename)
      end
    else inr (sum, opath) in
  match named with
  | inl e => (sum, Some e)
  | inr (sum1, opath1) =>
      if filepath_IsAbs opath1
      then (set_details (set_absolutePath opath1 (details sum1)) sum1, None)
      else
        let '(absPath, e) := filepath_Abs opath1 in
        match e with
        | Some e => (sum1, Some e)
        | None => (set_details (set_absolutePath absPath (details sum1)) sum1, None)
        end
  end.

(** [setFileDir] *)
Definition setFileDir (sum : summon) : summon :=
  set_details (set_fileDir (filepath_Dir (absolutePath (details sum))) (details sum)) sum.

End Probes.

(** * Vocabulary of the properties *)

(** The bytes of chunk [i], as the file system has them. *)
Definition chunk_bytes (fs : filesystem) (cs : gmap Z (option File)) (i : Z)
  : list Byte.byte :=
  match index_ptr cs i with
  | Some h => file_content fs h
  | None => []
  end.

(** The events of copying chunk [i]. *)
Definition copy_events (fs : filesystem) (cs : gmap Z (option File)) (i : Z)
  : list event :=
  [EvSeek i; EvCopy i (Z.of_nat (length (chunk_bytes fs cs i)))].

(** Chunk [i] is there to be combined: its handle is not nil, it is open and
    it is not the temporary output itself. *)
Definition chunk_ready (st : state) (i : Z) : Prop :=
  exists h, index_ptr (chunks (details (st_sum st))) i = Some h
            /\ fclosed h = false
            /\ fname h <> fname (tempOutFile (details (st_sum st))).

(** The temporary output is open with its cursor at the end of what it
    holds (it is empty when it has just been created). *)
Definition temp_ready (st : state) : Prop :=
  let t := tempOutFile (details (st_sum st)) in
  fclosed t = false /\ fpos t = length (file_content (st_fs st) t).

(** Only seeks and copies are events of the loop. *)
Definition is_copy_event (ev : event) : Prop :=
  match ev with
  | EvSeek _ | EvCopy _ _ => True
  | _ => False
  end.

Definition ex_summon (cs : gmap Z (option File)) (pm : progressMap) (e : option error)
  : summon :=
  mkSummon 2 "http://host/f.bin" false true e
    (mkFileDetails cs "f.bin" "/d" "/d/f.bin" (mkFile "/d/.f.bin.tmp" 0 false) 3)
    pm "/".

Definition ex_fs : filesystem :=
  {[ "/d/.f.bin.sump0" := [Byte.x61; Byte.x62];
     "/d/.f.bin.sump1" := [Byte.x63];
     "/d/.f.bin.tmp" := [] ]}.

Definition ex_chunks : gmap Z (option File) :=
  {[ 0 := Some (mkFile "/d/.f.bin.sump0" 2 false);
     1 := Some (mkFile "/d/.f.bin.sump1" 1 false) ]}.

Definition ex_chunks_gap : gmap Z (option File) :=
  {[ 0 := Some (mkFile "/d/.f.bin.sump0" 2 false);
     2 := Some (mkFile "/d/.f.bin.sump1" 1 false) ]}.

Definition ex_progress : progressMap :=
  {[ 0 := Some (mkProgress 2 2); 1 := Some (mkProgress 1 1) ]}.

Definition ex_state : state :=
  mkState (ex_summon ex_chunks ex_progress None) ex_fs [].

Definition ex_state_gap : state :=
  mkState (ex_summon ex_chunks_gap ex_progress None) ex_fs [].

(** A map of pointers is dense when every index below its length holds a
    pointer that is not nil. *)
Definition dense {A} (m : gmap Z (option A)) : Prop :=
  forall i, 0 <= i < len m -> index_ptr m i <> None.

(** Two maps with the same number of keys and nil at the same indices. *)
Definition same_shape {A} (m m' : gmap Z (option A)) : Prop :=
  size m = size m' /\ forall i, index_ptr m i = None <-> index_ptr m' i = None.

Definition entry (pm : progressMap) (i : Z) : progress :=
  default (mkProgress 0 0) (index_ptr pm i).

(** The lines of one frame: one per index, in ascending order. *)
Definition frame_lines (Sprint_float64 : spec_float -> string) (progressSize : Z)
    (pm : progressMap) : list string :=
  (fun i => printProgress Sprint_float64 progressSize i (entry pm i)) <$> seqZ 0 (len pm).

(** Every increment of the schedule is for an index whose entry exists. *)
Definition adds_valid (pm : progressMap) (sched : list sched_event) : Prop :=
  forall idx r, SFetch (ActAdd idx r) ∈ sched -> index_ptr pm idx <> None.

(** The error the schedule leaves in [sum.err]: the last one assigned. *)
Definition last_error (sched : list sched_event) (e0 : option error) : option error :=
  foldl (fun acc ev => match ev with
                       | SFetch (ActSetErr e) => Some e
                       | _ => acc
                       end) e0 sched.

Definition is_print_event (ev : event) : Prop :=
  match ev with
  | EvPrint _ => True
  | _ => False
  end.

(** The state when the renderer has acknowledged the stop signal, given the
    state [st1] in which the fetchers joined. *)
Definition after_stop (Sprint_float64 : spec_float -> string) (progressSize : Z)
    (st1 : state) : state :=
  emit ([EvFetchersJoined; EvStopSent]
          ++ (EvPrint <$> frame_lines Sprint_float64 progressSize (progressBar (st_sum st1)))
          ++ [EvRendererDone]) st1.

(** The events of the combiner: seeks, copies and the rename. *)
Definition is_combine_event (ev : event) : Prop :=
  match ev with
  | EvSeek _ | EvCopy _ _ | EvRename _ _ => True
  | _ => False
  end.

(** A downloader that starts the fetchers at once and reports no error. *)
Definition ex_download (st : state) : state * option error := (st, None).

(** The number of bytes a body delivers in all. *)
Definition body_bytes (body : Body) : Z :=
  foldr (fun rd acc => Z.of_nat (length rd.1) + acc) 0 body.

(** The reader keeps the contract of [io.Reader]: no more bytes than the
    buffer holds. *)
Definition reads_fit (body : Body) : Prop :=
  Forall (fun rd : read_result => Z.of_nat (length rd.1) <= buf_len) body.

Definition no_read_error (body : Body) : Prop :=
  Forall (fun rd : read_result => rd.2 = None) body.

(** [process] returned an error to its caller. *)
Definition job_failed (res : outcome (state * option error)) : Prop :=
  exists st e, res = Ok (st, Some e).

(** A sink that accepts everything, and one on which every write fails. *)
Definition ex_sink : sink := mkSink [] None.
Definition ex_sink_full : sink := mkSink [] (Some (Errorf "no space left on device")).

Definition ex_env (code : Z) (body : Body) (polls : list bool) : fetch_env :=
  mkFetchEnv None (inr (mkResponse code body)) polls.

(** Two chunks planned at 2 and 1 bytes, nothing read yet. *)
Definition ex_progress0 : progressMap :=
  {[ 0 := Some (mkProgress 0 2); 1 := Some (mkProgress 0 1) ]}.

Definition ex_job : summon := ex_summon ex_chunks ex_progress0 None.

(** [k] cells showing the character [c]. *)
Fixpoint cells (k : nat) (c : Ascii.ascii) : string :=
  match k with
  | O => ""
  | S k' => String c (cells k' c)
  end.

Definition gt_char : Ascii.ascii := Ascii.ascii_of_nat 62.
Definition space_char : Ascii.ascii := Ascii.ascii_of_nat 32.

(** The number of filled cells (the character [>]) of a bar. *)
Fixpoint filled_cells (s : string) : nat :=
  match s with
  | EmptyString => O
  | String c s' => ((if Ascii.eqb c gt_char then 1 else 0) + filled_cells s')%nat
  end.

(** The number of cells [printProgress] fills for the integer [n] it
    computes: one more than [n], within the width of the bar. *)
Definition filled_of (progressSize n : Z) : nat :=
  Z.to_nat (Z.min progressSize (n + 1)).

(** ** What a fetch takes from a body *)

(** The bytes the loop of [getDataAndWriteToFile] takes from the body: those
    of every read, up to the first poll that finds the stop signal, the
    first read that returns an error (its bytes included) or the end of the
    body. *)
Fixpoint delivered (polls : list bool) (body : Body) : list Byte.byte :=
  if hd false polls then []
  else match body with
       | [] => []
       | rd :: body' =>
           rd.1 ++ match rd.2 with
                   | Some _ => []
                   | None => delivered (tl polls) body'
                   end
       end.

(** The error the loop ends with. *)
Fixpoint fetch_result (polls : list bool) (body : Body) : option error :=
  if hd false polls then Some ErrGracefulShutdown
  else match body with
       | [] => None
       | rd :: body' =>
           match rd.2 with
           | Some io_EOF => None
           | Some e => Some e
           | None => fetch_result (tl polls) body'
           end
       end.

(** The handle of a chunk file after [data] has been written through it. *)
Definition advance (f : File) (data : list Byte.byte) : File :=
  if fclosed f then f else mkFile (fname f) (fpos f + length data)%nat false.

(** The accesses of the loop of [getDataAndWriteToFile] to the shared
    state, in program order, for a fetcher that writes through the handle
    [f]. *)
Fixpoint loop_actions (polls : list bool) (body : Body) (f : File) (index : Z)
  : list fetch_action :=
  if hd false polls then []
  else match body with
       | [] => []
       | rd :: body' =>
           read_actions f index rd
           ++ match rd.2 with
              | Some _ => []
              | None =>
                  loop_actions (tl polls) body'
                    (if 0 <? Z.of_nat (length rd.1) then advance f rd.1 else f) index
              end
       end.

(** The accesses of [downloadFileForRange] to the shared state, in program
    order. *)
Definition fetch_actions (env : fetch_env) (index : Z) (f : File) : list fetch_action :=
  match NewRequest_err env with
  | Some e => [ActSetErr e]
  | None =>
      match Do_result env with
      | inl e => [ActSetErr e]
      | inr resp =>
          if negb (StatusCode resp =? 200) && negb (StatusCode resp =? 206)
          then [ActSetErr (unexpected_status (StatusCode resp))]
          else loop_actions (stop_polls env) (RespBody resp) f index
               ++ match fetch_result (stop_polls env) (RespBody resp) with
                  | Some e => [ActSetErr e]
                  | None => []
                  end
      end
  end.

(** The shared state after a fetcher has returned [res]. *)
Definition fetch_state {A} (st : state) (res : summon * (File * filesystem) * A) : state :=
  mkState res.1.1 res.1.2.2 (st_trace st).

(** The body of a response that was read, if the fetch got that far. *)
Definition env_body (env : fetch_env) : Body :=
  match Do_result env with
  | inr resp => RespBody resp
  | inl _ => []
  end.

(** [sum'] differs from [sum] at most in the counter of chunk [index]: the
    map keeps its keys and its nil entries, the other entries and the total
    of chunk [index] are the same, and so is every other field of the
    job. *)
Definition counter_step (index : Z) (sum sum' : summon) : Prop :=
  set_progressBar (progressBar sum) sum' = sum
  /\ same_shape (progressBar sum) (progressBar sum')
  /\ (forall j, j <> index ->
        index_ptr (progressBar sum') j = index_ptr (progressBar sum) j)
  /\ (forall p p', index_ptr (progressBar sum) index = Some p ->
        index_ptr (progressBar sum') index = Some p' -> total p' = total p).

(** ** Fetchers that run side by side *)

(** [sched] runs the action lists [ls], one per fetcher, to their ends: each
    list in its own order, interleaved in any way with the others and with
    the ticks of the timer of the renderer. *)
Inductive interleaving : list (list fetch_action) -> list sched_event -> Prop :=
  | interleaving_done ls :
      Forall (eq []) ls -> interleaving ls []
  | interleaving_tick ls sched :
      interleaving ls sched -> interleaving ls (STick :: sched)
  | interleaving_step ls i a l sched :
      ls !! i = Some (a :: l) ->
      interleaving (<[i := l]> ls) sched ->
      interleaving ls (SFetch a :: sched).

(** The action lists of the fetchers of a job: fetcher [i] downloads from
    the server [envs !! i] into the handle of chunk [i]. *)
Definition fetchers_actions (cs : gmap Z (option File)) (envs : list fetch_env)
  : list (list fetch_action) :=
  imap (fun i env => match index_ptr cs (Z.of_nat i) with
                     | Some h => fetch_actions env (Z.of_nat i) h
                     | None => []
                     end) envs.

(** The bytes fetcher [i] takes from its response. *)
Definition delivered_by (envs : list fetch_env) (i : Z) : list Byte.byte :=
  match envs !! Z.to_nat i with
  | Some env => delivered (stop_polls env) (env_body env)
  | None => []
  end.

(** A fetch that meets no error: the request is made, the status is 200 or
    206, the body is read to its end without a stop signal, and the reader
    respects the size of the buffer. *)
Definition fetch_ok (env : fetch_env) : Prop :=
  NewRequest_err env = None
  /\ (exists resp, Do_result env = inr resp
                   /\ (StatusCode resp = 200 \/ StatusCode resp = 206))
  /\ fetch_result (stop_polls env) (env_body env) = None
  /\ reads_fit (env_body env).

(** The handle of chunk [i] is open on a file of its own (not the temporary
    output), with the cursor at the end of what the file holds. *)
Definition chunk_at_end (st : state) (i : Z) : Prop :=
  exists h, index_ptr (chunks (details (st_sum st))) i = Some h
            /\ fclosed h = false
            /\ fname h <> fname (tempOutFile (details (st_sum st)))
            /\ fpos h = length (file_content (st_fs st) h).

(** No two chunks share a file. *)
Definition distinct_files (cs : gmap Z (option File)) : Prop :=
  forall i j h h', i <> j -> index_ptr cs i = Some h -> index_ptr cs j = Some h' ->
                   fname h <> fname h'.

(** The action list [l] of the fetcher of chunk [index] only appends to the
    file [nm], which holds [len] bytes: every write goes through an open
    handle on [nm] positioned at the end of the file, every increment is for
    [index], and no error is recorded. *)
Fixpoint appends (nm : string) (index : Z) (len : nat) (l : list fetch_action) : Prop :=
  match l with
  | [] => True
  | ActWrite f data :: l' =>
      fname f = nm /\ fclosed f = false /\ fpos f = len
      /\ appends nm index (len + length data) l'
  | ActAdd idx _ :: l' => idx = index /\ appends nm index len l'
  | ActSetErr _ :: _ => False
  end.

(** The bytes the writes of an action list carry, in order. *)
Fixpoint written (l : list fetch_action) : list Byte.byte :=
  match l with
  | [] => []
  | ActWrite _ data :: l' => data ++ written l'
  | _ :: l' => written l'
  end.

(** ** The counters of fetchers that run side by side *)

(** The bytes a fetcher takes from its response: none when the request
    fails or the status is refused. *)
Definition taken (env : fetch_env) : list Byte.byte :=
  match NewRequest_err env, Do_result env with
  | None, inr resp =>
      if negb (StatusCode resp =? 200) && negb (StatusCode resp =? 206) then []
      else delivered (stop_polls env) (RespBody resp)
  | _, _ => []
  end.

(** What the increments of an action list add up to. *)
Fixpoint added (l : list fetch_action) : Z :=
  match l with
  | [] => 0
  | ActAdd _ r :: l' => r + added l'
  | _ :: l' => added l'
  end.

(** Every increment of [l] is for [index] and is not negative. *)
Definition adds_for (index : Z) (l : list fetch_action) : Prop :=
  Forall (fun a => match a with
                   | ActAdd idx r => idx = index /\ 0 <= r
                   | _ => True
                   end) l.

(** ** The renderer as an observer *)

(** The schedule without the ticks of the timer. *)
Definition drop_ticks (sched : list sched_event) : list sched_event :=
  flat_map (fun ev => match ev with
                      | SFetch a => [SFetch a]
                      | STick => []
                      end) sched.

(** Two states with the same job and the same files: they differ at most
    in what has been observed. *)
Definition same_job (st st' : state) : Prop :=
  st_sum st = st_sum st' /\ st_fs st = st_fs st'.

(** * Properties *)

(** ** Helper lemmas on the operating-system model *)

Lemma write_at_end (data bytes : list Byte.byte) :
  write_at data (length data) bytes = data ++ bytes.
Proof.
  unfold write_at.
  rewrite firstn_all, Nat.sub_diag, drop_ge by (rewrite ?length_app; lia).
  simpl. by rewrite app_nil_r.
Qed.

Lemma io_Copy_append (fs : filesystem) (dst src : File) :
  fclosed dst = false -> fclosed src = false ->
  fpos dst = length (file_content fs dst) ->
  io_Copy fs dst (Seek0 src) =
    (<[fname dst := file_content fs dst ++ file_content fs src]> fs,
     mkFile (fname dst) (length (file_content fs dst) + length (file_content fs src))%nat false,
     mkFile (fname src) (length (file_content fs src)) false,
     Z.of_nat (length (file_content fs src)), None).
Proof.
  intros Hd Hs Hp. destruct dst as [dn dp dc], src as [sn sp sc].
  simpl in *. subst. unfold io_Copy, Seek0, file_content in *. simpl.
  simpl in Hp. subst dp. rewrite drop_0, write_at_end. reflexivity.
Qed.

(** ** The combiner *)

Lemma index_ptr_insert_ne {A} (m : gmap Z (option A)) (i j : Z) (v : option A) :
  i <> j -> index_ptr (<[i := v]> m) j = index_ptr m j.
Proof. intros. unfold index_ptr. by rewrite lookup_insert_ne. Qed.

Lemma index_ptr_insert_eq {A} (m : gmap Z (option A)) (i : Z) (v : option A) :
  index_ptr (<[i := v]> m) i = v.
Proof. unfold index_ptr. by rewrite lookup_insert_eq. Qed.

Lemma combine_loop_spec (todo : nat) : forall (i w : Z) (st : state),
  temp_ready st ->
  (forall j, i <= j < i + Z.of_nat todo -> chunk_ready st j) ->
  exists st' w',
    combine_loop todo i w st = (st', w', None)
    /\ temp_ready st'
    /\ fname (tempOutFile (details (st_sum st'))) = fname (tempOutFile (details (st_sum st)))
    /\ file_content (st_fs st') (tempOutFile (details (st_sum st')))
       = file_content (st_fs st) (tempOutFile (details (st_sum st)))
         ++ concat (chunk_bytes (st_fs st) (chunks (details (st_sum st))) <$> seqZ i (Z.of_nat todo))
    /\ (forall name, name <> fname (tempOutFile (details (st_sum st))) ->
        st_fs st' !! name = st_fs st !! name)
    /\ (0 < todo -> is_Some (st_fs st' !! fname (tempOutFile (details (st_sum st)))))%nat
    /\ st_trace st' = st_trace st
         ++ concat (copy_events (st_fs st) (chunks (details (st_sum st))) <$> seqZ i (Z.of_nat todo))
    /\ fileDir (details (st_sum st')) = fileDir (details (st_sum st))
    /\ fileName (details (st_sum st')) = fileName (details (st_sum st))
    /\ separator (st_sum st') = separator (st_sum st)
    /\ err (st_sum st') = err (st_sum st).
Proof.
  induction todo as [|todo IH]; intros i w st Ht Hc.
  - exists st, w. simpl. rewrite !app_nil_r. split_and!; try done. intros; lia.
  - destruct (Hc i) as (h & Hh & Hopen & Hname); [lia|].
    destruct Ht as [Htopen Htpos].
    set (d := details (st_sum st)) in *.
    set (t := tempOutFile d) in *.
    cbn [combine_loop]. cbv zeta. fold d. rewrite Hh. fold t.
    rewrite (io_Copy_append (st_fs st) t h Htopen Hopen Htpos). fold t.
    set (st1 := mkState _ _ _).
    assert (Hfc : forall f, fname f <> fname t ->
              file_content (st_fs st1) f = file_content (st_fs st) f).
    { intros f Hf. unfold file_content. simpl. by rewrite lookup_insert_ne. }
    assert (Ht1 : temp_ready st1).
    { split; [done|]. simpl. unfold file_content. simpl.
      rewrite lookup_insert_eq. simpl. by rewrite length_app. }
    assert (Hc1 : forall j, i + 1 <= j < i + 1 + Z.of_nat todo -> chunk_ready st1 j).
    { intros j Hj. destruct (Hc j) as (hj & Hhj & Hoj & Hnj); [lia|].
      exists hj. simpl. rewrite index_ptr_insert_ne by lia. done. }
    destruct (IH (i + 1) (wrap64 (w + Z.of_nat (length (file_content (st_fs st) h)))) st1 Ht1 Hc1)
      as (st' & w' & Hrun & Hr' & Hn' & Hcont & Hoth & Hsome & Htr & Hdir & Hfn & Hsep & Herr).
    exists st', w'. split; [exact Hrun|]. split; [exact Hr'|].
    assert (Hbytes : forall j, i + 1 <= j < i + 1 + Z.of_nat todo ->
              chunk_bytes (st_fs st1) (chunks (details (st_sum st1))) j
              = chunk_bytes (st_fs st) (chunks d) j).
    { intros j Hj. unfold chunk_bytes. simpl. rewrite index_ptr_insert_ne by lia.
      destruct (Hc j) as (hj & Hhj & Hoj & Hnj); [lia|]. fold d in Hhj. rewrite Hhj.
      by apply Hfc. }
    assert (Hmap : forall (F G : Z -> list Byte.byte),
              (forall j, i + 1 <= j < i + 1 + Z.of_nat todo -> F j = G j) ->
              F <$> seqZ (i + 1) (Z.of_nat todo) = G <$> seqZ (i + 1) (Z.of_nat todo)).
    { intros F G HFG. apply list_fmap_ext. intros k j Hk.
      apply lookup_seqZ in Hk. apply HFG. lia. }
    assert (Hmape : forall (F G : Z -> list event),
              (forall j, i + 1 <= j < i + 1 + Z.of_nat todo -> F j = G j) ->
              F <$> seqZ (i + 1) (Z.of_nat todo) = G <$> seqZ (i + 1) (Z.of_nat todo)).
    { intros F G HFG. apply list_fmap_ext. intros k j Hk.
      apply lookup_seqZ in Hk. apply HFG. lia. }
    assert (Hseq : seqZ i (Z.of_nat (S todo)) = i :: seqZ (i + 1) (Z.of_nat todo)).
    { rewrite Nat2Z.inj_succ. rewrite seqZ_cons by lia. f_equal. f_equal; lia. }
    rewrite Hseq. cbn [fmap list_fmap concat].
    assert (Hbi : chunk_bytes (st_fs st) (chunks d) i = file_content (st_fs st) h).
    { unfold chunk_bytes. by rewrite Hh. }
    split_and!.
    + rewrite Hn'. reflexivity.
    + rewrite Hcont. rewrite (Hmap _ _ Hbytes). rewrite Hbi.
      unfold file_content at 1. simpl. rewrite lookup_insert_eq. simpl.
      by rewrite <- app_assoc.
    + intros name Hne. rewrite Hoth by exact Hne. simpl. by rewrite lookup_insert_ne.
    + intros _. destruct todo as [|todo'].
      * simpl in Hrun. injection Hrun as <- _. simpl. rewrite lookup_insert_eq. eauto.
      * apply Hsome. lia.
    + rewrite Htr. simpl. rewrite <- app_assoc. f_equal.
      unfold copy_events at 2. rewrite Hbi. simpl. do 2 f_equal.
      f_equal. apply Hmape. intros j Hj. unfold copy_events.
      by rewrite <- (Hbytes j Hj).
    + rewrite Hdir. reflexivity.
    + rewrite Hfn. reflexivity.
    + rewrite Hsep. reflexivity.
    + rewrite Herr. reflexivity.
Qed.

(** Whatever the chunks are, the loop writes to the temporary output only,
    emits only seek and copy events and keeps the names. *)
Lemma combine_loop_frame (todo : nat) : forall (i w : Z) (st : state),
  let st' := (combine_loop todo i w st).1.1 in
  (forall name, name <> fname (tempOutFile (details (st_sum st))) ->
     st_fs st' !! name = st_fs st !! name)
  /\ (exists evs, st_trace st' = st_trace st ++ evs /\ Forall is_copy_event evs)
  /\ fname (tempOutFile (details (st_sum st'))) = fname (tempOutFile (details (st_sum st)))
  /\ finalFileName (st_sum st') = finalFileName (st_sum st)
  /\ err (st_sum st') = err (st_sum st).
Proof.
  induction todo as [|todo IH]; intros i w st; cbn [combine_loop]; cbv zeta.
  - simpl. split_and!; try done. exists []. by rewrite app_nil_r.
  - destruct (index_ptr _ i) as [h|]; simpl.
    2:{ split_and!; try done. exists []. by rewrite app_nil_r. }
    destruct (io_Copy _ _ _) as [[[[fs' dst'] src'] written] e] eqn:Hcp.
    assert (Hfs : forall name, name <> fname (tempOutFile (details (st_sum st))) ->
              fs' !! name = st_fs st !! name).
    { intros name Hne. unfold io_Copy in Hcp.
      destruct (_ || _); injection Hcp as <- _ _ _ _; [done|].
      by rewrite lookup_insert_ne. }
    assert (Hnm : fname dst' = fname (tempOutFile (details (st_sum st)))).
    { unfold io_Copy in Hcp. destruct (_ || _); by injection Hcp as _ <- _ _ _. }
    destruct e as [e|].
    + simpl. split_and!; try done.
      exists [EvSeek i; EvCopy i written]. split; [done|]. by repeat constructor.
    + match goal with |- context [combine_loop todo ?i' ?w' ?s'] =>
        specialize (IH i' w' s') end.
      simpl in IH. destruct IH as (H1 & (evs & H2 & H3) & H4 & H5 & H6).
      split_and!.
      * intros name Hne. rewrite H1 by (rewrite Hnm; done). by apply Hfs.
      * exists ([EvSeek i; EvCopy i written] ++ evs). split.
        -- rewrite H2. by rewrite <- app_assoc.
        -- apply Forall_app. split; [by repeat constructor|done].
      * rewrite H4. exact Hnm.
      * rewrite H5. reflexivity.
      * rewrite H6. reflexivity.
Qed.

(** The loop fails as soon as the handle of an index below the bound is
    missing (or nil). *)
Lemma combine_loop_missing (todo : nat) : forall (i w : Z) (st : state) (k : Z),
  i <= k < i + Z.of_nat todo ->
  index_ptr (chunks (details (st_sum st))) k = None ->
  exists e, (combine_loop todo i w st).2 = Some e.
Proof.
  induction todo as [|todo IH]; intros i w st k Hk Hnil; [lia|].
  cbn [combine_loop]; cbv zeta.
  destruct (index_ptr _ i) as [h|] eqn:Hi; [|simpl; eauto].
  destruct (io_Copy _ _ _) as [[[[fs' dst'] src'] written] e].
  destruct e as [e|]; [simpl; eauto|].
  assert (k <> i) by (intros ->; congruence).
  apply (IH _ _ _ k); [lia|]. simpl. rewrite index_ptr_insert_ne by done. done.
Qed.

(** C1. With chunk files at every index [0..N-1] (handles present and open)
    and the temporary output positioned at its end, [combineChunks] seeks
    and copies the chunks in ascending index order and nothing else, then
    renames: the output holds what the temporary file held (nothing, for a
    fresh one) followed by the contents of the chunks in index order.  And
    whenever the handle of an index below [N] is absent, [combineChunks]
    fails. *)
Theorem combineChunks_ascending_concat (st : state) :
  let d := details (st_sum st) in
  let N := len (chunks d) in
  (temp_ready st ->
   is_Some (st_fs st !! fname (tempOutFile d)) ->
   (forall j, 0 <= j < N -> chunk_ready st j) ->
   exists st',
     combineChunks st = (st', None)
     /\ st_trace st' = st_trace st
          ++ concat (copy_events (st_fs st) (chunks d) <$> seqZ 0 N)
          ++ [EvRename (fname (tempOutFile d)) (finalFileName (st_sum st))]
     /\ st_fs st' !! finalFileName (st_sum st)
        = Some (file_content (st_fs st) (tempOutFile d)
                ++ concat (chunk_bytes (st_fs st) (chunks d) <$> seqZ 0 N)))
  /\ (forall k, 0 <= k < N -> index_ptr (chunks d) k = None ->
      exists st' e, combineChunks st = (st', Some e)).
Proof.
  intros d N. split.
  - intros Ht Hex Hc.
    destruct (combine_loop_spec (size (chunks d)) 0 0 st Ht) as
      (st1 & w1 & Hrun & Hr1 & Hn1 & Hcont & Hoth & Hsome & Htr & Hdir & Hfn & Hsep & Herr).
    { intros j Hj. apply Hc. unfold N, len. lia. }
    unfold combineChunks. fold d. rewrite Hrun.
    assert (Hin : is_Some (st_fs st1 !! fname (tempOutFile (details (st_sum st1))))).
    { rewrite Hn1. destruct (size (chunks d)) as [|n] eqn:Hsz.
      - simpl in Hrun. injection Hrun as <- _. exact Hex.
      - apply Hsome. lia. }
    destruct Hin as [data Hdata]. unfold os_Rename. rewrite Hdata.
    eexists. split; [reflexivity|]. simpl.
    assert (Hfin : finalFileName (st_sum st1) = finalFileName (st_sum st)).
    { unfold finalFileName. by rewrite Hdir, Hsep, Hfn. }
    split.
    + rewrite Htr, Hn1, Hfin. fold d. by rewrite <- app_assoc.
    + rewrite Hfin, lookup_insert_eq. f_equal.
      unfold file_content in Hcont at 1. rewrite Hdata in Hcont. simpl in Hcont.
      exact Hcont.
  - intros k Hk Hnil.
    destruct (combine_loop_missing (size (chunks d)) 0 0 st k) as [e He].
    { unfold N, len in Hk. lia. } { exact Hnil. }
    unfold combineChunks. fold d.
    destruct (combine_loop _ _ _ _) as [[st1 w1] e1]. simpl in He. subst e1. eauto.
Qed.

(** *** A job with two chunks, and one whose second chunk is missing *)

Lemma combineChunks_ascending_concat_witness :
  (exists st',
     combineChunks ex_state = (st', None)
     /\ st_trace st' = [EvSeek 0; EvCopy 0 2; EvSeek 1; EvCopy 1 1;
                        EvRename "/d/.f.bin.tmp" "/d/f.bin"]
     /\ st_fs st' !! "/d/f.bin" = Some [Byte.x61; Byte.x62; Byte.x63])
  /\ (exists st' e, combineChunks ex_state_gap = (st', Some e)).
Proof.
  split.
  - apply (proj1 (combineChunks_ascending_concat ex_state)).
    + split; reflexivity.
    + eexists; reflexivity.
    + intros j Hj. change (0 <= j < 2) in Hj.
      assert (Hcases : j = 0 \/ j = 1) by lia.
      destruct Hcases as [-> | ->]; eexists; (split; [reflexivity|]); split;
        [reflexivity | discriminate | reflexivity | discriminate].
  - apply (proj2 (combineChunks_ascending_concat ex_state_gap) 1).
    + change (0 <= 1 < 2). lia.
    + reflexivity.
Defined.

(** ** The renderer *)

Lemma render_loop_dense (fmt : spec_float -> string) (n : Z) (pm : progressMap)
    (todo : nat) : forall i,
  (forall j, i <= j < i + Z.of_nat todo -> index_ptr pm j <> None) ->
  render_loop fmt n todo i pm
  = Ok ((fun j => printProgress fmt n j (entry pm j)) <$> seqZ i (Z.of_nat todo)).
Proof.
  induction todo as [|todo IH]; intros i Hd; [reflexivity|].
  cbn [render_loop].
  destruct (index_ptr pm i) as [p|] eqn:Hp;
    [|exfalso; apply (Hd i); [lia|exact Hp]].
  rewrite IH by (intros j Hj; apply Hd; lia).
  rewrite (seqZ_cons i (Z.of_nat (S todo))) by lia.
  cbn [mbind outcome_bind fmap list_fmap].
  replace (Z.succ i) with (i + 1) by lia.
  replace (Z.pred (Z.of_nat (S todo))) with (Z.of_nat todo) by lia.
  unfold entry at 2. rewrite Hp. reflexivity.
Qed.

Lemma render_all_dense (fmt : spec_float -> string) (n : Z) (pm : progressMap) :
  dense pm -> render_all fmt n pm = Ok (frame_lines fmt n pm).
Proof.
  intros Hd. unfold render_all, frame_lines, len.
  apply render_loop_dense. intros j Hj. apply Hd. unfold len. lia.
Qed.

Lemma render_loop_nil (fmt : spec_float -> string) (n : Z) (pm : progressMap)
    (todo : nat) : forall i k,
  i <= k < i + Z.of_nat todo -> index_ptr pm k = None ->
  render_loop fmt n todo i pm = Panic nil_deref.
Proof.
  induction todo as [|todo IH]; intros i k Hk Hnil; [lia|].
  cbn [render_loop].
  destruct (index_ptr pm i) as [p|] eqn:Hp; [|reflexivity].
  assert (k <> i) by (intros ->; congruence).
  rewrite (IH (i + 1) k) by (done || lia). reflexivity.
Qed.

Lemma same_shape_refl {A} (m : gmap Z (option A)) : same_shape m m.
Proof. by split. Qed.

Lemma same_shape_trans {A} (m1 m2 m3 : gmap Z (option A)) :
  same_shape m1 m2 -> same_shape m2 m3 -> same_shape m1 m3.
Proof.
  intros [H1 H2] [H3 H4]. split; [congruence|]. intros i. by rewrite H2, H4.
Qed.

Lemma same_shape_dense {A} (m m' : gmap Z (option A)) :
  same_shape m m' -> dense m -> dense m'.
Proof.
  intros [Hs Hn] Hd i Hi. rewrite <- Hn. apply Hd. unfold len in *. lia.
Qed.

Lemma same_shape_update {A} (m : gmap Z (option A)) (i : Z) (x y : A) :
  index_ptr m i = Some x -> same_shape m (<[i := Some y]> m).
Proof.
  intros Hx. assert (Hl : m !! i = Some (Some x)).
  { unfold index_ptr in Hx. destruct (m !! i) as [[?|]|]; congruence. }
  split.
  - symmetry. by eapply map_size_insert_Some.
  - intros j. destruct (decide (i = j)) as [->|Hne].
    + rewrite index_ptr_insert_eq, Hx. split; discriminate.
    + by rewrite index_ptr_insert_ne.
Qed.

(** ** The supervisor *)

Lemma adds_valid_shape (pm pm' : progressMap) (sched : list sched_event) :
  same_shape pm pm' -> adds_valid pm sched -> adds_valid pm' sched.
Proof. intros [_ Hn] Hv idx r Hin. rewrite <- Hn. by eapply Hv. Qed.

Lemma adds_valid_cons (pm : progressMap) (ev : sched_event) (sched : list sched_event) :
  adds_valid pm (ev :: sched) -> adds_valid pm sched.
Proof. intros Hv idx r Hin. eapply Hv. by right. Qed.

Lemma last_error_recorded (sched : list sched_event) (e0 : option error) :
  (exists e, SFetch (ActSetErr e) ∈ sched) ->
  exists e', last_error sched e0 = Some e' /\ SFetch (ActSetErr e') ∈ sched.
Proof.
  unfold last_error. induction sched as [|ev sched IH] using rev_ind.
  - intros [e He]. by apply elem_of_nil in He.
  - intros [e He]. rewrite foldl_app. simpl.
    destruct ev as [[f data|idx r|e1]|].
    4:{ apply elem_of_app in He as [He|He]; [|by apply list_elem_of_singleton in He].
        destruct IH as (e' & H1 & H2); [eauto|]. exists e'. split; [done|].
        apply elem_of_app. by left. }
    3:{ exists e1. split; [done|]. apply elem_of_app. right. by left. }
    all: apply elem_of_app in He as [He|He]; [|by apply list_elem_of_singleton in He];
      destruct IH as (e' & H1 & H2); [eauto|]; exists e'; split; [done|];
      apply elem_of_app; by left.
Qed.

Lemma last_error_none (sched : list sched_event) (e0 : option error) :
  (forall e, SFetch (ActSetErr e) ∉ sched) -> last_error sched e0 = e0.
Proof.
  unfold last_error. revert e0. induction sched as [|ev sched IH]; intros e0 Hno; [done|].
  simpl. destruct ev as [[f data|idx r|e1]|].
  3:{ destruct (Hno e1). by left. }
  all: apply IH; intros e He; apply (Hno e); by right.
Qed.

Lemma run_sched_spec (fmt : spec_float -> string) (n : Z) (sched : list sched_event) :
  forall st,
  dense (progressBar (st_sum st)) ->
  adds_valid (progressBar (st_sum st)) sched ->
  exists st1,
    run_sched fmt n sched st = Ok st1
    /\ err (st_sum st1) = last_error sched (err (st_sum st))
    /\ same_shape (progressBar (st_sum st)) (progressBar (st_sum st1))
    /\ details (st_sum st1) = details (st_sum st)
    /\ separator (st_sum st1) = separator (st_sum st)
    /\ exists evs, st_trace st1 = st_trace st ++ evs /\ Forall is_print_event evs.
Proof.
  induction sched as [|ev sched IH]; intros st Hd Hv.
  - exists st. split_and!; try done; try apply same_shape_refl.
    exists []. by rewrite app_nil_r.
  - destruct ev as [[f data|idx r|e1]|]; cbn [run_sched].
    + cbn [apply_action mbind outcome_bind].
      match goal with |- context [run_sched fmt n sched ?s] =>
        destruct (IH s) as (st1 & H1 & H2 & H3 & H4 & H5 & H6) end;
        [exact Hd | by eapply adds_valid_cons |].
      exists st1. split_and!; done.
    + cbn [apply_action].
      destruct (index_ptr (progressBar (st_sum st)) idx) as [pr|] eqn:Hpr.
      2:{ destruct (Hv idx r); [by left|done]. }
      cbn [mbind outcome_bind].
      pose proof (same_shape_update (progressBar (st_sum st)) idx pr
                    (mkProgress (wrap64 (curr pr + r)) (total pr)) Hpr) as Hsh.
      match goal with |- context [run_sched fmt n sched ?s] =>
        destruct (IH s) as (st1 & H1 & H2 & H3 & H4 & H5 & H6) end.
      { simpl. by eapply same_shape_dense. }
      { simpl. eapply adds_valid_shape; [exact Hsh|]. by eapply adds_valid_cons. }
      exists st1. split_and!; try done. simpl in H3. by eapply same_shape_trans.
    + cbn [apply_action mbind outcome_bind].
      match goal with |- context [run_sched fmt n sched ?s] =>
        destruct (IH s) as (st1 & H1 & H2 & H3 & H4 & H5 & H6) end;
        [exact Hd | by eapply adds_valid_cons |].
      exists st1. split_and!; done.
    + unfold ticker_case. rewrite (render_all_dense fmt n _ Hd).
      cbn [mbind outcome_bind].
      match goal with |- context [run_sched fmt n sched ?s] =>
        destruct (IH s) as (st1 & H1 & H2 & H3 & H4 & H5 & evs & H6 & H7) end;
        [exact Hd | by eapply adds_valid_cons |].
      exists st1. split_and!; try done.
      eexists. split.
      * rewrite H6. unfold print_all, emit. simpl. rewrite <- !app_assoc. reflexivity.
      * repeat (apply Forall_app; split); try done;
          apply Forall_fmap, Forall_forall; intros ? ?; exact I.
Qed.

Lemma stop_case_dense (fmt : spec_float -> string) (n : Z) (st1 : state) :
  dense (progressBar (st_sum st1)) ->
  stop_case fmt n (emit [EvFetchersJoined; EvStopSent] st1) = Ok (after_stop fmt n st1).
Proof.
  intros Hd. unfold stop_case. cbn [emit st_sum].
  rewrite (render_all_dense fmt n _ Hd). cbn [mbind outcome_bind].
  unfold after_stop, print_all, emit. simpl. do 2 f_equal.
  rewrite <- !app_assoc. reflexivity.
Qed.

(** What [process] does once the downloader has started the fetchers and
    they have run to the state [st1]. *)
Lemma process_joined (fmt : spec_float -> string) (n : Z)
    (download resumeDownload : state -> state * option error)
    (sched : list sched_event) (st st0 st1 : state) :
  getDownloader download resumeDownload (st_sum st) st = (st0, None) ->
  run_sched fmt n sched (emit [EvRendererStarted] st0) = Ok st1 ->
  dense (progressBar (st_sum st1)) ->
  process fmt n download resumeDownload sched st
  = match err (st_sum st1) with
    | Some e => Ok (close_all (after_stop fmt n st1), Some e)
    | None => let '(st3, e) := combineChunks (after_stop fmt n st1) in
              Ok (close_all st3, e)
    end.
Proof.
  intros Hl Hrun Hd. unfold process. rewrite Hl, Hrun.
  cbn [mbind outcome_bind]. rewrite (stop_case_dense fmt n st1 Hd).
  reflexivity.
Qed.

(** The events of [combineChunks]: seeks and copies, then the rename as the
    last event exactly when it succeeds; when it fails only the temporary
    file may have been written. *)
Lemma combineChunks_events (st : state) :
  exists evs, Forall is_copy_event evs /\
    match (combineChunks st).2 with
    | None =>
        st_trace (combineChunks st).1 = st_trace st ++ evs
          ++ [EvRename (fname (tempOutFile (details (st_sum st)))) (finalFileName (st_sum st))]
    | Some _ =>
        st_trace (combineChunks st).1 = st_trace st ++ evs
        /\ forall name, name <> fname (tempOutFile (details (st_sum st))) ->
             st_fs (combineChunks st).1 !! name = st_fs st !! name
    end.
Proof.
  unfold combineChunks.
  pose proof (combine_loop_frame (size (chunks (details (st_sum st)))) 0 0 st) as Hf.
  destruct (combine_loop _ 0 0 st) as [[st1 w1] e1]. simpl in Hf.
  destruct Hf as (Hfs & (evs & Htr & Hev) & Hnm & Hfin & _).
  exists evs. split; [exact Hev|].
  destruct e1 as [e1|]; simpl; [by split|].
  unfold os_Rename. destruct (st_fs st1 !! _) as [data|]; simpl.
  - rewrite Htr, Hnm, Hfin. by rewrite <- app_assoc.
  - by split.
Qed.

(** C2. When a fetcher has recorded an error (the schedule contains an
    assignment of [sum.err]), [process] returns a recorded error, the last
    one assigned, without combining: after the fetchers have joined it
    leaves the file system as it is and emits no seek, copy or rename event.
    And in [combineChunks] the rename is the last event of a success and
    does not happen on a failure. *)
Theorem process_error_skips_combine (fmt : spec_float -> string) (n : Z)
    (download resumeDownload : state -> state * option error)
    (sched : list sched_event) (st st0 : state) :
  getDownloader download resumeDownload (st_sum st) st = (st0, None) ->
  dense (progressBar (st_sum st0)) ->
  adds_valid (progressBar (st_sum st0)) sched ->
  (exists e, SFetch (ActSetErr e) ∈ sched) ->
  (exists st1 st' e',
     run_sched fmt n sched (emit [EvRendererStarted] st0) = Ok st1
     /\ process fmt n download resumeDownload sched st = Ok (st', Some e')
     /\ SFetch (ActSetErr e') ∈ sched
     /\ st_fs st' = st_fs st1
     /\ exists evs, st_trace st' = st_trace st0 ++ evs
                    /\ Forall (fun ev => ~ is_combine_event ev) evs)
  /\ (forall s, exists evs, Forall is_copy_event evs /\
        match (combineChunks s).2 with
        | None =>
            st_trace (combineChunks s).1 = st_trace s ++ evs
              ++ [EvRename (fname (tempOutFile (details (st_sum s)))) (finalFileName (st_sum s))]
        | Some _ => st_trace (combineChunks s).1 = st_trace s ++ evs
        end).
Proof.
  intros Hl Hd Hv Hrec. split.
  - destruct (run_sched_spec fmt n sched (emit [EvRendererStarted] st0) Hd Hv)
      as (st1 & Hrun & Herr & Hsh & _ & _ & evs & Htr & Hev).
    destruct (last_error_recorded sched (err (st_sum st0)) Hrec) as (e' & Hlast & Hin).
    assert (Hd1 : dense (progressBar (st_sum st1))) by (by eapply same_shape_dense).
    exists st1, (close_all (after_stop fmt n st1)), e'. split; [exact Hrun|].
    split.
    { rewrite (process_joined fmt n download resumeDownload sched st st0 st1 Hl Hrun Hd1).
      simpl in Herr. rewrite Herr, Hlast. reflexivity. }
    split; [exact Hin|]. split; [reflexivity|].
    eexists. split.
    + simpl. rewrite Htr. simpl. rewrite <- !app_assoc. reflexivity.
    + simpl. constructor; [by intros []|].
      apply Forall_app. split.
      { eapply Forall_impl; [exact Hev|]. intros ev Hp Hc. by destruct ev. }
      constructor; [by intros []|]. constructor; [by intros []|].
      apply Forall_app. split; [|by constructor; [intros []|]].
      apply Forall_fmap, Forall_forall. intros ? ?. by intros [].
  - intros s. destruct (combineChunks_events s) as (evs & Hev & Hm).
    exists evs. split; [exact Hev|]. destruct (combineChunks s).2; [tauto|done].
Qed.

Lemma process_error_skips_combine_witness :
  exists st1 st' e',
    run_sched Sprint_float64_small 10
      [SFetch (ActAdd 0 1); STick; SFetch (ActSetErr (unexpected_status 404))]
      (emit [EvRendererStarted] ex_state) = Ok st1
    /\ process Sprint_float64_small 10 ex_download ex_download
         [SFetch (ActAdd 0 1); STick; SFetch (ActSetErr (unexpected_status 404))]
         ex_state = Ok (st', Some e')
    /\ SFetch (ActSetErr e') ∈
         [SFetch (ActAdd 0 1); STick; SFetch (ActSetErr (unexpected_status 404))]
    /\ st_fs st' = st_fs st1
    /\ exists evs, st_trace st' = st_trace ex_state ++ evs
                   /\ Forall (fun ev => ~ is_combine_event ev) evs.
Proof.
  refine (proj1 (process_error_skips_combine Sprint_float64_small 10
                   ex_download ex_download
                   [SFetch (ActAdd 0 1); STick; SFetch (ActSetErr (unexpected_status 404))]
                   ex_state ex_state _ _ _ _)).
  - reflexivity.
  - intros i Hi. change (0 <= i < 2) in Hi.
    assert (Hc : i = 0 \/ i = 1) by lia. destruct Hc as [-> | ->]; discriminate.
  - intros idx r Hin.
    apply elem_of_cons in Hin as [Hin|Hin]; [injection Hin as -> _; discriminate|].
    apply elem_of_cons in Hin as [Hin|Hin]; [discriminate|].
    apply elem_of_cons in Hin as [Hin|Hin]; [discriminate|].
    by apply elem_of_nil in Hin.
  - exists (unexpected_status 404). right. right. left.
Defined.

(** ** The chunk fetcher *)

Lemma wrap64_id (z : Z) : in_int64 z -> wrap64 z = z.
Proof.
  unfold in_int64, wrap64. intros Hz.
  rewrite Z.mod_small by lia. lia.
Qed.

Lemma unexpected_status_inj (c1 c2 : Z) :
  unexpected_status c1 = unexpected_status c2 -> c1 = c2.
Proof.
  unfold unexpected_status. intros H. injection H as H.
  apply (inj (String.append _)) in H. by apply (inj pretty) in H.
Qed.

(** C7. A response whose status is neither 200 nor 206 makes
    [downloadFileForRange] stop before it reads the body: the call returns
    a job whose error field holds the unexpected-status error, which
    determines the status received; that error is logged, and nothing else
    of the job (no counter, no file detail) and nothing of the writer has
    changed.  With 200 or 206, and with these two only, the body is
    read. *)
Theorem downloadFileForRange_status {W} `{io_Writer W} (env : fetch_env) (index : Z)
    (handle : W) (sum : summon) (resp : response) :
  NewRequest_err env = None ->
  Do_result env = inr resp ->
  (StatusCode resp <> 200 /\ StatusCode resp <> 206 ->
     exists sum',
       downloadFileForRange env index handle sum
       = Ok (sum', handle, [unexpected_status (StatusCode resp)])
       /\ err sum' = Some (unexpected_status (StatusCode resp))
       /\ progressBar sum' = progressBar sum
       /\ details sum' = details sum
       /\ concurrency sum' = concurrency sum
       /\ uri sum' = uri sum
       /\ isResume sum' = isResume sum
       /\ isRangeSupported sum' = isRangeSupported sum
       /\ separator sum' = separator sum
       /\ sum' = set_err (Some (unexpected_status (StatusCode resp))) sum)
  /\ (StatusCode resp = 200 \/ StatusCode resp = 206 ->
      downloadFileForRange env index handle sum
      = (res ← getDataAndWriteToFile (stop_polls env) (RespBody resp) handle index sum;
         match res.2 with
         | Some e => Ok (set_err (Some e) res.1.1, res.1.2, [e])
         | None => Ok (res.1.1, res.1.2, [])
         end))
  /\ (forall c, unexpected_status c = unexpected_status (StatusCode resp) ->
      c = StatusCode resp).
Proof.
  intros Hreq Hdo.
  assert (Hbad : StatusCode resp <> 200 /\ StatusCode resp <> 206 ->
            downloadFileForRange env index handle sum
            = Ok (set_err (Some (unexpected_status (StatusCode resp))) sum, handle,
                  [unexpected_status (StatusCode resp)])).
  { intros [H200 H206]. unfold downloadFileForRange. rewrite Hreq, Hdo.
    apply Z.eqb_neq in H200, H206. by rewrite H200, H206. }
  split_and!.
  - intros Hst. exists (set_err (Some (unexpected_status (StatusCode resp))) sum).
    split; [by apply Hbad|]. by split_and!.
  - intros Hok. unfold downloadFileForRange. rewrite Hreq, Hdo.
    assert (Hb : (negb (StatusCode resp =? 200) && negb (StatusCode resp =? 206)) = false).
    { destruct Hok as [-> | ->]; reflexivity. }
    rewrite Hb.
    destruct (getDataAndWriteToFile _ _ _ _ _) as [[[sum' f'] e]|w]; [|reflexivity].
    cbn [mbind outcome_bind]. by destruct e.
  - intros c. apply unexpected_status_inj.
Qed.

Lemma downloadFileForRange_status_witness :
  exists sum',
    downloadFileForRange (ex_env 404 [([Byte.x61], None)] []) 1 ex_sink
      (ex_summon ex_chunks ex_progress None)
    = Ok (sum', ex_sink, [Errorf "did not get 20X status code, got : 404"])
    /\ err sum' = Some (Errorf "did not get 20X status code, got : 404")
    /\ progressBar sum' = ex_progress
    /\ chunks (details sum') = ex_chunks.
Proof.
  destruct (proj1 (downloadFileForRange_status (ex_env 404 [([Byte.x61], None)] []) 1
                     ex_sink (ex_summon ex_chunks ex_progress None)
                     (mkResponse 404 [([Byte.x61], None)]) eq_refl eq_refl))
    as (sum' & Hrun & Herr & Hpm & Hdt & _).
  - split; discriminate.
  - exists sum'. split; [exact Hrun|]. split; [exact Herr|]. split; [exact Hpm|].
    by rewrite Hdt.
Defined.

Lemma readBody_err {W} `{io_Writer W} (rd : read_result) (f f' : W) (index : Z)
    (sum sum' : summon) (e : option error) :
  readBody rd f index sum = Ok (sum', f', e) -> e = rd.2.
Proof.
  unfold readBody. destruct rd as [data e0]. simpl.
  destruct (0 <? _); [|by intros [= _ _ <-]].
  destruct (buf_len <? _); [discriminate|].
  destruct (index_ptr _ _); [by intros [= _ _ <-]|discriminate].
Qed.

(** One call of [readBody] on an existing entry: the counter of [index]
    grows by the number of bytes read, nothing else of the job changes. *)
Lemma readBody_spec {W} `{io_Writer W} (rd : read_result) (f : W) (index : Z)
    (sum : summon) (pr : progress) :
  index_ptr (progressBar sum) index = Some pr ->
  Z.of_nat (length rd.1) <= buf_len ->
  in_int64 (curr pr + Z.of_nat (length rd.1)) ->
  exists sum' f',
    readBody rd f index sum = Ok (sum', f', rd.2)
    /\ index_ptr (progressBar sum') index
       = Some (mkProgress (curr pr + Z.of_nat (length rd.1)) (total pr))
    /\ (forall j, j <> index -> index_ptr (progressBar sum') j = index_ptr (progressBar sum) j)
    /\ err sum' = err sum.
Proof.
  intros Hpr Hfit Hrange. unfold readBody. destruct rd as [data e0]. simpl in *.
  destruct (0 <? Z.of_nat (length data)) eqn:Hpos.
  - assert (Hb : (buf_len <? Z.of_nat (length data)) = false) by (apply Z.ltb_ge; lia).
    rewrite Hb, Hpr, (wrap64_id _ Hrange).
    eexists _, _. split; [reflexivity|]. simpl. split_and!.
    + apply index_ptr_insert_eq.
    + intros j Hj. by apply index_ptr_insert_ne.
    + reflexivity.
  - apply Z.ltb_ge in Hpos. assert (Hz : Z.of_nat (length data) = 0) by lia.
    exists sum, f. split; [reflexivity|]. rewrite Hz, Z.add_0_r. split_and!; try done.
    by destruct pr.
Qed.

Lemma getData_progress {W} `{io_Writer W} (index : Z) (body : Body) :
  forall (polls : list bool) (f : W) (sum : summon) (pr : progress),
  index_ptr (progressBar sum) index = Some pr ->
  reads_fit body ->
  0 <= curr pr ->
  curr pr + body_bytes body < 2 ^ 63 ->
  exists sum' f' e pr',
    getDataAndWriteToFile polls body f index sum = Ok (sum', f', e)
    /\ index_ptr (progressBar sum') index = Some pr'
    /\ total pr' = total pr
    /\ curr pr <= curr pr' <= curr pr + body_bytes body
    /\ (Forall (eq false) polls -> no_read_error body ->
        curr pr' = curr pr + body_bytes body /\ e = None)
    /\ (forall j, j <> index -> index_ptr (progressBar sum') j = index_ptr (progressBar sum) j)
    /\ err sum' = err sum.
Proof.
  induction body as [|rd body IH]; intros polls f sum pr Hpr Hfit H0 Hlt.
  - exists sum, f. simpl. destruct (hd false polls) eqn:Hhd.
    + exists (Some ErrGracefulShutdown), pr. split_and!; try done; try lia.
      intros Hall _. destruct polls as [|b polls]; [done|]. simpl in Hhd. subst b.
      by apply Forall_cons in Hall as [? _].
    + exists None, pr. split_and!; try done; try lia. intros _ _. split; [lia|done].
  - assert (Hlen : 0 <= Z.of_nat (length rd.1)) by lia.
    assert (Hbb : body_bytes (rd :: body) = Z.of_nat (length rd.1) + body_bytes body) by done.
    assert (Hnn : 0 <= body_bytes body).
    { clear. induction body as [|x b IHb]; simpl; [done|]. fold (body_bytes b). lia. }
    apply Forall_cons in Hfit as [Hfit1 Hfit].
    cbn [getDataAndWriteToFile]. destruct (hd false polls) eqn:Hhd.
    + exists sum, f, (Some ErrGracefulShutdown), pr. split_and!; try done; try lia.
      intros Hall _. destruct polls as [|b polls]; [done|]. simpl in Hhd. subst b.
      by apply Forall_cons in Hall as [? _].
    + destruct (readBody_spec rd f index sum pr Hpr Hfit1) as (sum1 & f1 & Hrb & Hp1 & Hoth1 & Herr1).
      { unfold in_int64. lia. }
      rewrite Hrb. cbn [mbind outcome_bind].
      destruct rd.2 as [e1|] eqn:He1.
      * exists sum1, f1. destruct e1; eexists _, _; (split; [reflexivity|]);
          (split; [exact Hp1|]); simpl; split_and!; try done; try lia;
          intros _ Hne; apply Forall_cons in Hne as [Hne _]; congruence.
      * destruct (IH (tl polls) f1 sum1 _ Hp1 Hfit) as
          (sum' & f' & e & pr' & Hrun & Hp' & Htot & Hcur & Hexact & Hoth & Herr);
          [simpl; lia | simpl; lia |].
        exists sum', f', e, pr'. simpl in *. split_and!; try done; try lia.
        -- intros Hall Hne. apply Forall_cons in Hne as [_ Hne].
           destruct Hexact as [Hc He]; [|exact Hne|split; [lia|done]].
           destruct polls; [constructor|]. by apply Forall_cons in Hall as [_ ?].
        -- intros j Hj. rewrite Hoth by done. by apply Hoth1.
        -- congruence.
Qed.

(** C5 as stated does not hold: the server answers the ranged request for a
    chunk planned at 2 bytes with status 200 and 3 bytes; the counter ends
    above the total. *)
Lemma progress_exceeds_total :
  exists sum' f' logged pr',
    downloadFileForRange (ex_env 200 [([Byte.x61; Byte.x62; Byte.x63], None)] []) 0
      ex_sink ex_job = Ok (sum', f', logged)
    /\ index_ptr (progressBar sum') 0 = Some pr'
    /\ ~ (0 <= curr pr' <= total pr').
Proof.
  eexists _, _, _, _. split; [vm_compute; reflexivity|]. split; [reflexivity|].
  intros [_ Hle]. vm_compute in Hle. by apply Hle.
Qed.

(** C5, amended.  While a fetcher runs, the counter of its chunk only
    grows: every read of [r > 0] bytes adds [r] to it (as long as the sum
    fits in an [int64]), the total is never modified, the entries of the
    other chunks are not touched, and a counter that starts at [0] or above
    stays there.  The counter ends at most at its start plus the bytes the
    body delivered, exactly there when the fetch is neither stopped nor
    failed; so it stays below the total exactly as far as the body delivers
    no more than the bytes that were planned. *)
Theorem fetch_progress_monotone {W} `{io_Writer W} (index : Z) (body : Body)
    (polls : list bool) (f : W) (sum : summon) (pr : progress) :
  index_ptr (progressBar sum) index = Some pr ->
  reads_fit body ->
  0 <= curr pr ->
  curr pr + body_bytes body < 2 ^ 63 ->
  (exists sum' f' e pr',
     getDataAndWriteToFile polls body f index sum = Ok (sum', f', e)
     /\ index_ptr (progressBar sum') index = Some pr'
     /\ total pr' = total pr
     /\ 0 <= curr pr <= curr pr'
     /\ curr pr' <= curr pr + body_bytes body
     /\ (curr pr + body_bytes body <= total pr -> curr pr' <= total pr')
     /\ (Forall (eq false) polls -> no_read_error body ->
         curr pr' = curr pr + body_bytes body)
     /\ (forall j, j <> index ->
         index_ptr (progressBar sum') j = index_ptr (progressBar sum) j))
  /\ (forall rd : read_result,
      Z.of_nat (length rd.1) <= buf_len ->
      curr pr + Z.of_nat (length rd.1) < 2 ^ 63 ->
      exists sum1 f1,
        readBody rd f index sum = Ok (sum1, f1, rd.2)
        /\ index_ptr (progressBar sum1) index
           = Some (mkProgress (curr pr + Z.of_nat (length rd.1)) (total pr))).
Proof.
  intros Hpr Hfit H0 Hlt. split.
  - destruct (getData_progress index body polls f sum pr Hpr Hfit H0 Hlt)
      as (sum' & f' & e & pr' & Hrun & Hp' & Htot & Hcur & Hexact & Hoth & _).
    exists sum', f', e, pr'. split_and!; try done; try lia.
    intros Hall Hne. by destruct (Hexact Hall Hne).
  - intros rd Hrd Hsum.
    destruct (readBody_spec rd f index sum pr Hpr Hrd) as (sum1 & f1 & Hrb & Hp1 & _).
    { unfold in_int64. lia. }
    by exists sum1, f1.
Qed.

Lemma fetch_progress_monotone_witness :
  exists sum' f' e pr',
    getDataAndWriteToFile [] [([Byte.x61], None); ([Byte.x62], Some io_EOF)]
      ex_sink 0 ex_job = Ok (sum', f', e)
    /\ index_ptr (progressBar sum') 0 = Some pr'
    /\ total pr' = 2
    /\ 0 <= 0 <= curr pr'
    /\ curr pr' <= 0 + 2
    /\ (0 + 2 <= 2 -> curr pr' <= total pr')
    /\ (Forall (eq false) [] ->
        no_read_error [([Byte.x61], None); ([Byte.x62], Some io_EOF)] ->
        curr pr' = 0 + 2)
    /\ (forall j, j <> 0 ->
        index_ptr (progressBar sum') j = index_ptr (progressBar ex_job) j).
Proof.
  refine (proj1 (fetch_progress_monotone 0
                   [([Byte.x61], None); ([Byte.x62], Some io_EOF)] [] ex_sink ex_job
                   (mkProgress 0 2) _ _ _ _)).
  - reflexivity.
  - repeat constructor; simpl; unfold buf_len; lia.
  - simpl. lia.
  - simpl. lia.
Defined.

(** A stop signal that is ready at the poll after the reads of [pre] ends
    the loop there: what follows in the body is not read. *)
Lemma getData_stop {W} `{io_Writer W} (index : Z) (pre : Body) :
  forall (rest : Body) (ps : list bool) (f f' : W) (sum sum' : summon),
  no_read_error pre ->
  getDataAndWriteToFile [] pre f index sum = Ok (sum', f', None) ->
  getDataAndWriteToFile (replicate (length pre) false ++ true :: ps) (pre ++ rest)
    f index sum = Ok (sum', f', Some ErrGracefulShutdown).
Proof.
  induction pre as [|rd pre IH]; intros rest ps f f' sum sum' Hne Hrun.
  - destruct rest; simpl in *; by injection Hrun as <- <-.
  - apply Forall_cons in Hne as [Hrd Hne].
    cbn [getDataAndWriteToFile length replicate app hd tl] in *.
    destruct (readBody rd f index sum) as [[[sum1 f1] e1]|w] eqn:Hrb; [|discriminate].
    cbn [mbind outcome_bind] in *.
    apply readBody_err in Hrb. rewrite Hrd in Hrb. subst e1.
    by apply IH.
Qed.

(** C3 as stated does not hold for its last part: a fetch that ends on the
    stop signal records [ErrGracefulShutdown] in [sum.err] and logs it, and a
    job in which that happened makes [process] return this error to its
    caller without combining, as for any failure. *)
Lemma graceful_shutdown_is_job_failure :
  downloadFileForRange (ex_env 206 [([Byte.x61], None)] [true]) 0 ex_sink ex_job
  = Ok (set_err (Some ErrGracefulShutdown) ex_job, ex_sink, [ErrGracefulShutdown])
  /\ job_failed (process Sprint_float64_small 10 ex_download ex_download
                   [SFetch (ActSetErr ErrGracefulShutdown)] ex_state)
  /\ ~ (exists st, process Sprint_float64_small 10 ex_download ex_download
                     [SFetch (ActSetErr ErrGracefulShutdown)] ex_state = Ok (st, None)).
Proof.
  split; [reflexivity|]. split.
  - eexists _, _. vm_compute. reflexivity.
  - intros [st Hst]. vm_compute in Hst. discriminate.
Qed.

(** C3, amended.  The stop channel is polled before every read; when a
    value is ready, [getDataAndWriteToFile] returns [ErrGracefulShutdown] at
    once, in the state the reads done so far have produced.
    [downloadFileForRange] then records that error in the error field of
    the job and logs it, as it does any other error of the fetch, and
    changes nothing else.  A job in which a fetcher has recorded it makes
    [process] return an error to its caller without combining: the error
    returned is the last one assigned to the error field, so it is
    [ErrGracefulShutdown] when no other error was assigned after it. *)
Theorem graceful_shutdown_recorded {W} `{io_Writer W} (env : fetch_env) (index : Z)
    (handle f' : W) (sum sum' : summon) (resp : response) (pre rest : Body)
    (ps : list bool)
    (fmt : spec_float -> string) (n : Z)
    (download resumeDownload : state -> state * option error)
    (sched : list sched_event) (st st0 : state) :
  NewRequest_err env = None ->
  Do_result env = inr resp ->
  StatusCode resp = 200 \/ StatusCode resp = 206 ->
  RespBody resp = pre ++ rest ->
  stop_polls env = replicate (length pre) false ++ true :: ps ->
  no_read_error pre ->
  getDataAndWriteToFile [] pre handle index sum = Ok (sum', f', None) ->
  getDownloader download resumeDownload (st_sum st) st = (st0, None) ->
  dense (progressBar (st_sum st0)) ->
  adds_valid (progressBar (st_sum st0)) sched ->
  SFetch (ActSetErr ErrGracefulShutdown) ∈ sched ->
  getDataAndWriteToFile (stop_polls env) (RespBody resp) handle index sum
  = Ok (sum', f', Some ErrGracefulShutdown)
  /\ downloadFileForRange env index handle sum
     = Ok (set_err (Some ErrGracefulShutdown) sum', f', [ErrGracefulShutdown])
  /\ err (set_err (Some ErrGracefulShutdown) sum') = Some ErrGracefulShutdown
  /\ (exists sum2,
        downloadFileForRange env index handle sum = Ok (sum2, f', [ErrGracefulShutdown])
        /\ err sum2 = Some ErrGracefulShutdown
        /\ progressBar sum2 = progressBar sum'
        /\ details sum2 = details sum')
  /\ (exists st1 st' e',
        run_sched fmt n sched (emit [EvRendererStarted] st0) = Ok st1
        /\ process fmt n download resumeDownload sched st = Ok (st', Some e')
        /\ last_error sched (err (st_sum st0)) = Some e'
        /\ SFetch (ActSetErr e') ∈ sched
        /\ (forall before after,
              sched = before ++ SFetch (ActSetErr ErrGracefulShutdown) :: after ->
              (forall e, SFetch (ActSetErr e) ∉ after) ->
              e' = ErrGracefulShutdown)
        /\ st_fs st' = st_fs st1
        /\ exists evs, st_trace st' = st_trace st0 ++ evs
                       /\ Forall (fun ev => ~ is_combine_event ev) evs).
Proof.
  intros Hreq Hdo Hst Hbody Hpolls Hne Hrun Hl Hd Hv Hin.
  assert (Hgd : getDataAndWriteToFile (stop_polls env) (RespBody resp) handle index sum
                = Ok (sum', f', Some ErrGracefulShutdown)).
  { rewrite Hbody, Hpolls. by apply getData_stop. }
  assert (Hdl : downloadFileForRange env index handle sum
                = Ok (set_err (Some ErrGracefulShutdown) sum', f', [ErrGracefulShutdown])).
  { unfold downloadFileForRange. rewrite Hreq, Hdo.
    assert (Hb : (negb (StatusCode resp =? 200) && negb (StatusCode resp =? 206)) = false).
    { destruct Hst as [-> | ->]; reflexivity. }
    by rewrite Hb, Hgd. }
  split; [exact Hgd|]. split; [exact Hdl|]. split; [reflexivity|]. split.
  { exists (set_err (Some ErrGracefulShutdown) sum'). by split_and!. }
  destruct (run_sched_spec fmt n sched (emit [EvRendererStarted] st0) Hd Hv)
    as (st1 & Hrs & Herr & Hsh & _ & _ & evs & Htr & Hev).
  destruct (last_error_recorded sched (err (st_sum st0))) as (e' & Hlast & Hin');
    [by exists ErrGracefulShutdown|].
  assert (Hd1 : dense (progressBar (st_sum st1))) by (by eapply same_shape_dense).
  exists st1, (close_all (after_stop fmt n st1)), e'. split; [exact Hrs|].
  split.
  { rewrite (process_joined fmt n download resumeDownload sched st st0 st1 Hl Hrs Hd1).
    simpl in Herr. by rewrite Herr, Hlast. }
  split; [exact Hlast|]. split; [exact Hin'|]. split.
  { intros before after -> Hafter. unfold last_error in Hlast.
    rewrite foldl_app in Hlast. cbn [foldl] in Hlast.
    fold (last_error after (Some ErrGracefulShutdown)) in Hlast.
    rewrite (last_error_none after _ Hafter) in Hlast. by injection Hlast as <-. }
  split; [reflexivity|].
  eexists. split.
  - simpl. rewrite Htr. simpl. rewrite <- !app_assoc. reflexivity.
  - simpl. constructor; [by intros []|].
    apply Forall_app. split.
    { eapply Forall_impl; [exact Hev|]. intros ev Hp Hc. by destruct ev. }
    constructor; [by intros []|]. constructor; [by intros []|].
    apply Forall_app. split; [|by constructor; [intros []|]].
    apply Forall_fmap, Forall_forall. intros ? ?. by intros [].
Qed.

Lemma graceful_shutdown_recorded_witness :
  getDataAndWriteToFile [false; true] [([Byte.x61], None); ([Byte.x62], None)]
    ex_sink 0 ex_job
  = Ok (set_progressBar (<[0 := Some (mkProgress 1 2)]> ex_progress0) ex_job,
        mkSink [Byte.x61] None, Some ErrGracefulShutdown)
  /\ (exists sum2,
        downloadFileForRange
          (ex_env 206 [([Byte.x61], None); ([Byte.x62], None)] [false; true]) 0
          ex_sink ex_job
        = Ok (sum2, mkSink [Byte.x61] None, [ErrGracefulShutdown])
        /\ err sum2 = Some ErrGracefulShutdown)
  /\ (exists st', process Sprint_float64_small 10 ex_download ex_download
                    [SFetch (ActAdd 0 1); SFetch (ActSetErr ErrGracefulShutdown)]
                    (mkState ex_job ex_fs [])
                  = Ok (st', Some ErrGracefulShutdown)).
Proof.
  destruct (graceful_shutdown_recorded
              (ex_env 206 [([Byte.x61], None); ([Byte.x62], None)] [false; true]) 0
              ex_sink (mkSink [Byte.x61] None) ex_job
              (set_progressBar (<[0 := Some (mkProgress 1 2)]> ex_progress0) ex_job)
              (mkResponse 206 [([Byte.x61], None); ([Byte.x62], None)])
              [([Byte.x61], None)] [([Byte.x62], None)] []
              Sprint_float64_small 10 ex_download ex_download
              [SFetch (ActAdd 0 1); SFetch (ActSetErr ErrGracefulShutdown)]
              (mkState ex_job ex_fs []) (mkState ex_job ex_fs []))
    as (Hgd & _ & _ & (sum2 & Hdl & Herr & _) & (st1 & st' & e' & _ & Hp & _ & _ & Hlast & _)).
  - reflexivity.
  - reflexivity.
  - by right.
  - reflexivity.
  - reflexivity.
  - repeat constructor.
  - reflexivity.
  - reflexivity.
  - intros i Hi. change (0 <= i < 2) in Hi.
    assert (Hc : i = 0 \/ i = 1) by lia. destruct Hc as [-> | ->]; discriminate.
  - intros idx r Hin.
    apply elem_of_cons in Hin as [Hin|Hin]; [injection Hin as -> _; discriminate|].
    apply elem_of_cons in Hin as [Hin|Hin]; [discriminate|].
    by apply elem_of_nil in Hin.
  - right. left.
  - split; [exact Hgd|]. split; [by exists sum2|].
    exists st'. rewrite Hp. do 3 f_equal.
    apply (Hlast [SFetch (ActAdd 0 1)] []); [reflexivity|].
    intros e He. by apply elem_of_nil in He.
Defined.

(** C6 holds for the errors of [Read]: the first read that returns an
    error ends the loop, with success for [io.EOF] and with that error
    otherwise; the bytes delivered together with the error are still
    written and counted. *)
Lemma getData_read_error {W} `{io_Writer W} (index : Z) (polls : list bool)
    (rd : read_result) (rest : Body) (f : W) (sum : summon) (e : error)
    (sum1 : summon) (f1 : W) (e1 : option error) :
  hd false polls = false ->
  rd.2 = Some e ->
  readBody rd f index sum = Ok (sum1, f1, e1) ->
  getDataAndWriteToFile polls (rd :: rest) f index sum
  = Ok (sum1, f1, if decide (e = io_EOF) then None else Some e).
Proof.
  intros Hhd He Hrb. cbn [getDataAndWriteToFile]. rewrite Hhd, Hrb.
  cbn [mbind outcome_bind]. apply readBody_err in Hrb. rewrite He in Hrb. subst e1.
  destruct e; by case_decide.
Qed.

(** C6 does not hold for the errors of [Write]: on a sink that rejects
    every write, [readBody] reports no error, counts the bytes as
    transferred, and the fetch of the whole body ends in success with
    nothing written and no error recorded. *)
Theorem write_error_is_dropped :
  Write ex_sink_full [Byte.x61; Byte.x62]
  = (ex_sink_full, (0, Some (Errorf "no space left on device")))
  /\ readBody ([Byte.x61; Byte.x62], None) ex_sink_full 0 ex_job
     = Ok (set_progressBar (<[0 := Some (mkProgress 2 2)]> ex_progress0) ex_job,
           ex_sink_full, None)
  /\ downloadFileForRange (ex_env 206 [([Byte.x61; Byte.x62], None)] []) 0
       ex_sink_full ex_job
     = Ok (set_progressBar (<[0 := Some (mkProgress 2 2)]> ex_progress0) ex_job,
           ex_sink_full, []).
Proof. split_and!; reflexivity. Qed.

(** ** The progress line *)

Lemma bar_loop_spec (todo : nat) : forall i n,
  bar_loop todo i n
  = cells (Z.to_nat (Z.min (Z.of_nat todo) (n - i + 1))) gt_char
    +:+ cells (todo - Z.to_nat (Z.min (Z.of_nat todo) (n - i + 1))) space_char.
Proof.
  induction todo as [|todo IH]; intros i n.
  - assert (Z.to_nat (Z.min (Z.of_nat 0) (n - i + 1)) = O) as -> by lia. reflexivity.
  - cbn [bar_loop]. rewrite IH. destruct (i <=? n) eqn:Hle.
    + apply Z.leb_le in Hle.
      replace (Z.to_nat (Z.min (Z.of_nat (S todo)) (n - i + 1)))
        with (S (Z.to_nat (Z.min (Z.of_nat todo) (n - (i + 1) + 1)))) by lia.
      reflexivity.
    + apply Z.leb_gt in Hle.
      replace (Z.to_nat (Z.min (Z.of_nat (S todo)) (n - i + 1))) with O by lia.
      replace (Z.to_nat (Z.min (Z.of_nat todo) (n - (i + 1) + 1))) with O by lia.
      rewrite !Nat.sub_0_r. reflexivity.
Qed.

Lemma filled_cells_app (s1 s2 : string) :
  filled_cells (s1 +:+ s2) = (filled_cells s1 + filled_cells s2)%nat.
Proof. induction s1 as [|c s1 IH]; simpl; [done|]. rewrite IH. lia. Qed.

Lemma filled_cells_gt (k : nat) : filled_cells (cells k gt_char) = k.
Proof. induction k as [|k IH]; simpl; [done|]. by rewrite IH. Qed.

Lemma filled_cells_space (k : nat) : filled_cells (cells k space_char) = O.
Proof. induction k as [|k IH]; simpl; done. Qed.

Lemma length_cells (k : nat) (c : Ascii.ascii) : String.length (cells k c) = k.
Proof. induction k as [|k IH]; simpl; [done|]. by rewrite IH. Qed.

Lemma string_length_app (s1 s2 : string) :
  String.length (s1 +:+ s2) = (String.length s1 + String.length s2)%nat.
Proof. induction s1 as [|c s1 IH]; simpl; [done|]. by rewrite IH. Qed.

Lemma bar_spec (progressSize n : Z) :
  bar progressSize n
  = cells (filled_of progressSize n) gt_char
    +:+ cells (Z.to_nat progressSize - filled_of progressSize n) space_char.
Proof.
  unfold bar, filled_of. rewrite bar_loop_spec.
  replace (Z.to_nat (Z.min (Z.of_nat (Z.to_nat progressSize)) (n - 0 + 1)))
    with (Z.to_nat (Z.min progressSize (n + 1))) by lia.
  reflexivity.
Qed.

(** C4 as stated does not hold for the number of filled cells: at 0 of 100
    bytes and a bar of 10 cells the percentage is 0, so is
    [floor(percent/100 * progressSize)], and one cell is filled; at 50 of
    100 bytes six cells are filled, not five. *)
Lemma filled_cells_off_by_one :
  printProgress Sprint_float64_small 10 0 (mkProgress 0 100)
  = "Connection 1  - [>         ] 0%" +:+ newline
  /\ cells_of 10 (percent_of (mkProgress 0 100)) = 0
  /\ filled_cells (bar 10 (cells_of 10 (percent_of (mkProgress 0 100)))) = 1%nat
  /\ cells_of 10 (percent_of (mkProgress 50 100)) = 5
  /\ filled_cells (bar 10 (cells_of 10 (percent_of (mkProgress 50 100)))) = 6%nat.
Proof. split_and!; vm_compute; reflexivity. Qed.

(** C4, amended.  The line printed for a chunk is
    [Connection <index+1>  - [<bar>] <percent>%] where [percent] is
    [math.Round(float64(curr) / float64(total) * 100)], the bar has
    [progressSize] cells, and with [n = int(percent / 100 * progressSize)]
    its first [min(progressSize, n + 1)] cells are filled (none when that is
    negative); a frame has one such line per index, in ascending order. *)
Theorem printProgress_line (fmt : spec_float -> string) (progressSize index : Z)
    (p : progress) (pm : progressMap) :
  let percent := F64.Round (F64.mul (F64.div (F64.of_int (curr p)) (F64.of_int (total p)))
                                    (F64.of_int 100)) in
  let n := F64.to_int (F64.mul (F64.div percent (F64.of_int 100)) (F64.of_int progressSize)) in
  printProgress fmt progressSize index p
  = "Connection " +:+ pretty (wrap64 (index + 1)) +:+ "  - "
    +:+ ("[" +:+ (cells (filled_of progressSize n) gt_char
                   +:+ cells (Z.to_nat progressSize - filled_of progressSize n) space_char)
         +:+ "]" +:+ (" " +:+ fmt percent +:+ "%")) +:+ newline
  /\ String.length (bar progressSize n) = Z.to_nat progressSize
  /\ filled_cells (bar progressSize n) = Z.to_nat (Z.min progressSize (n + 1))
  /\ (0 <= index < 2 ^ 63 - 1 -> wrap64 (index + 1) = index + 1)
  /\ (dense pm ->
      render_all fmt progressSize pm
      = Ok ((fun i => printProgress fmt progressSize i (entry pm i)) <$> seqZ 0 (len pm))).
Proof.
  intros percent n. split_and!.
  - unfold printProgress. fold percent. unfold percent_of, cells_of. fold percent. fold n.
    by rewrite bar_spec.
  - rewrite bar_spec, string_length_app, !length_cells. unfold filled_of. lia.
  - rewrite bar_spec, filled_cells_app, filled_cells_gt, filled_cells_space.
    unfold filled_of. lia.
  - intros Hi. apply wrap64_id. unfold in_int64. lia.
  - apply render_all_dense.
Qed.

Lemma printProgress_line_witness :
  wrap64 (1 + 1) = 1 + 1
  /\ render_all Sprint_float64_small 10 ex_progress0
     = Ok ["Connection 1  - [>         ] 0%" +:+ newline;
           "Connection 2  - [>         ] 0%" +:+ newline].
Proof.
  pose proof (printProgress_line Sprint_float64_small 10 1 (mkProgress 1 2) ex_progress0)
    as (_ & _ & _ & Hw & Hr).
  split; [apply Hw; lia|].
  rewrite Hr; [vm_compute; reflexivity|].
  intros i Hi. change (0 <= i < 2) in Hi.
  assert (Hc : i = 0 \/ i = 1) by lia. destruct Hc as [-> | ->]; discriminate.
Defined.

(** ** The stop signal and the final frame *)

Ltac trace_eq :=
  repeat (simpl; rewrite <- app_assoc); simpl; reflexivity.

(** C8. In every run of [process] whose downloader started the fetchers
    (on a dense progress map), the events come in this order: the renderer
    is started and prints frames while the fetchers run; once every action
    of every fetcher is done the fetchers are joined; only then is the stop
    signal sent, exactly once; the renderer then prints one frame, a line
    for every chunk in ascending order, and terminates; the supervisor goes
    on only after that, and nothing is printed any more: what follows are
    events of the combiner. *)
Theorem stop_after_join_final_frame (fmt : spec_float -> string) (n : Z)
    (download resumeDownload : state -> state * option error)
    (sched : list sched_event) (st st0 : state) :
  getDownloader download resumeDownload (st_sum st) st = (st0, None) ->
  dense (progressBar (st_sum st0)) ->
  adds_valid (progressBar (st_sum st0)) sched ->
  exists st1 st' res ticks post,
    run_sched fmt n sched (emit [EvRendererStarted] st0) = Ok st1
    /\ process fmt n download resumeDownload sched st = Ok (st', res)
    /\ st_trace st' = st_trace st0 ++ [EvRendererStarted] ++ ticks
         ++ [EvFetchersJoined; EvStopSent]
         ++ (EvPrint <$> frame_lines fmt n (progressBar (st_sum st1)))
         ++ [EvRendererDone] ++ post
    /\ Forall is_print_event ticks
    /\ Forall is_combine_event post
    /\ length (frame_lines fmt n (progressBar (st_sum st1)))
       = size (progressBar (st_sum st0)).
Proof.
  intros Hl Hd Hv.
  destruct (run_sched_spec fmt n sched (emit [EvRendererStarted] st0) Hd Hv)
    as (st1 & Hrun & Herr & Hsh & _ & _ & ticks & Htr & Hticks).
  assert (Hd1 : dense (progressBar (st_sum st1))) by (by eapply same_shape_dense).
  pose proof (process_joined fmt n download resumeDownload sched st st0 st1 Hl Hrun Hd1)
    as Hp.
  assert (Hlen : length (frame_lines fmt n (progressBar (st_sum st1)))
                 = size (progressBar (st_sum st0))).
  { unfold frame_lines, len. rewrite length_fmap, length_seqZ, Nat2Z.id.
    symmetry. apply Hsh. }
  simpl in Htr.
  destruct (err (st_sum st1)) as [e|].
  - exists st1, (close_all (after_stop fmt n st1)), (Some e), ticks, [].
    split_and!; try done.
    simpl. rewrite Htr. trace_eq.
  - destruct (combineChunks_events (after_stop fmt n st1)) as (evs & Hev & Hm).
    destruct (combineChunks (after_stop fmt n st1)) as [st3 e3] eqn:Hc.
    assert (Hcopy : Forall is_combine_event evs).
    { eapply Forall_impl; [exact Hev|]. by intros []. }
    simpl in Hm, Hp. destruct e3 as [e3|].
    + exists st1, (close_all st3), (Some e3), ticks, evs. split_and!; try done.
      destruct Hm as [Hm _]. simpl. rewrite Hm. simpl. rewrite Htr. trace_eq.
    + eexists st1, (close_all st3), None, ticks, (evs ++ [_]). split_and!; try done.
      * simpl. rewrite Hm. simpl. rewrite Htr. trace_eq.
      * apply Forall_app. split; [done|]. by repeat constructor.
Qed.

Lemma stop_after_join_final_frame_witness :
  exists st1 st' res ticks post,
    run_sched Sprint_float64_small 10 [SFetch (ActAdd 0 2); STick; SFetch (ActAdd 1 1)]
      (emit [EvRendererStarted] (mkState ex_job ex_fs [])) = Ok st1
    /\ process Sprint_float64_small 10 ex_download ex_download
         [SFetch (ActAdd 0 2); STick; SFetch (ActAdd 1 1)] (mkState ex_job ex_fs [])
       = Ok (st', res)
    /\ st_trace st' = [] ++ [EvRendererStarted] ++ ticks
         ++ [EvFetchersJoined; EvStopSent]
         ++ (EvPrint <$> frame_lines Sprint_float64_small 10 (progressBar (st_sum st1)))
         ++ [EvRendererDone] ++ post
    /\ Forall is_print_event ticks
    /\ Forall is_combine_event post
    /\ length (frame_lines Sprint_float64_small 10 (progressBar (st_sum st1))) = 2%nat.
Proof.
  refine (stop_after_join_final_frame Sprint_float64_small 10 ex_download ex_download
            [SFetch (ActAdd 0 2); STick; SFetch (ActAdd 1 1)]
            (mkState ex_job ex_fs []) (mkState ex_job ex_fs []) _ _ _).
  - reflexivity.
  - intros i Hi. change (0 <= i < 2) in Hi.
    assert (Hc : i = 0 \/ i = 1) by lia. destruct Hc as [-> | ->]; discriminate.
  - intros idx r Hin.
    apply elem_of_cons in Hin as [Hin|Hin]; [injection Hin as -> _; discriminate|].
    apply elem_of_cons in Hin as [Hin|Hin]; [discriminate|].
    apply elem_of_cons in Hin as [Hin|Hin]; [injection Hin as -> _; discriminate|].
    by apply elem_of_nil in Hin.
Defined.

(** ** The number of connections *)

(** C9 as stated does not hold: [setConcurrency] cannot fail, and for a
    request of zero or of a negative number of connections it stores the
    default instead (whatever the constants are, one of the requests [0]
    and [-1] is replaced by a different value). *)
Lemma setConcurrency_substitutes_default :
  ~ (forall (DEFAULT_CONN MAX_CONN c : Z) (sum : summon),
       c <= 0 -> concurrency (setConcurrency DEFAULT_CONN MAX_CONN c sum) = c).
Proof.
  intros Hclaim.
  pose proof (Hclaim 5 20 0 ex_job) as H0. vm_compute in H0.
  specialize (H0 ltac:(discriminate)). discriminate.
Qed.

(** C9, amended.  [setConcurrency] never fails and changes nothing but the
    number of connections: a request of zero or less selects
    [DEFAULT_CONN], a request of [MAX_CONN] or more selects [MAX_CONN], any
    other request is kept; with positive constants the number stored is
    positive and at most the larger of the two. *)
Theorem setConcurrency_clamps (DEFAULT_CONN MAX_CONN c : Z) (sum : summon) :
  0 < DEFAULT_CONN -> 0 < MAX_CONN ->
  let sum' := setConcurrency DEFAULT_CONN MAX_CONN c sum in
  (c <= 0 -> concurrency sum' = DEFAULT_CONN)
  /\ (0 < c < MAX_CONN -> concurrency sum' = c)
  /\ (0 < c -> MAX_CONN <= c -> concurrency sum' = MAX_CONN)
  /\ 0 < concurrency sum' <= Z.max DEFAULT_CONN MAX_CONN
  /\ set_concurrency (concurrency sum) sum' = sum.
Proof.
  intros HD HM. unfold setConcurrency.
  destruct (c <=? 0) eqn:H0; [apply Z.leb_le in H0 | apply Z.leb_gt in H0].
  - simpl. split_and!; try lia; try done. by destruct sum.
  - destruct (MAX_CONN <=? c) eqn:H1; [apply Z.leb_le in H1 | apply Z.leb_gt in H1];
      simpl; split_and!; try lia; try done; by destruct sum.
Qed.

Lemma setConcurrency_clamps_witness :
  concurrency (setConcurrency 5 20 0 ex_job) = 5
  /\ concurrency (setConcurrency 5 20 7 ex_job) = 7
  /\ concurrency (setConcurrency 5 20 64 ex_job) = 20.
Proof.
  split_and!.
  - apply (setConcurrency_clamps 5 20 0 ex_job); lia.
  - apply (setConcurrency_clamps 5 20 7 ex_job); lia.
  - apply (setConcurrency_clamps 5 20 64 ex_job); lia.
Defined.

(** ** The preconditions of the renderer *)

Lemma render_loop_ok_inv (fmt : spec_float -> string) (n : Z) (pm : progressMap)
    (todo : nat) : forall i lines,
  render_loop fmt n todo i pm = Ok lines ->
  forall j, i <= j < i + Z.of_nat todo -> index_ptr pm j <> None.
Proof.
  induction todo as [|todo IH]; intros i lines Hok j Hj; [lia|].
  cbn [render_loop] in Hok.
  destruct (index_ptr pm i) as [p|] eqn:Hp; [|discriminate].
  destruct (render_loop fmt n todo (i + 1) pm) as [rest|w] eqn:Hrest; [|discriminate].
  destruct (decide (j = i)) as [->|Hne]; [congruence|].
  apply (IH (i + 1) rest Hrest). lia.
Qed.

Lemma render_loop_panic_msg (fmt : spec_float -> string) (n : Z) (pm : progressMap)
    (todo : nat) : forall i w,
  render_loop fmt n todo i pm = Panic w -> w = nil_deref.
Proof.
  induction todo as [|todo IH]; intros i w Hp; [discriminate|].
  cbn [render_loop] in Hp.
  destruct (index_ptr pm i) as [p|]; [|by injection Hp].
  destruct (render_loop fmt n todo (i + 1) pm) as [rest|w'] eqn:Hrest; [discriminate|].
  injection Hp as <-. by eapply IH.
Qed.

Lemma div_by_zero_total (x : spec_float) :
  F64.is_nan (F64.Round (F64.mul (F64.div x (F64.of_int 0)) (F64.of_int 100)))
  || F64.is_inf (F64.Round (F64.mul (F64.div x (F64.of_int 0)) (F64.of_int 100)))
  = true.
Proof. destruct x as [s|s| |s m e]; reflexivity. Qed.

(** C10 as stated does not hold for the percentage: with [total = 0] and
    [curr = 5] the quotient is [+Inf], not NaN, and the line shows [+Inf%]
    with an empty bar. *)
Lemma zero_total_is_not_always_nan :
  percent_of (mkProgress 5 0) = S754_infinity false
  /\ F64.is_nan (percent_of (mkProgress 5 0)) = false
  /\ printProgress Sprint_float64_small 10 0 (mkProgress 5 0)
     = "Connection 1  - [          ] +Inf%" +:+ newline.
Proof. split_and!; vm_compute; reflexivity. Qed.

(** C10, amended.  A frame is rendered exactly when the progress map is
    dense: if the entry of some index below [len(p)] is absent or nil the
    renderer panics with a nil dereference instead of skipping the line.
    And [printProgress] never fails: with [total = 0] the percentage is not
    a number, NaN when [curr = 0] and NaN or an infinity otherwise. *)
Theorem renderer_preconditions (fmt : spec_float -> string) (progressSize : Z)
    (pm : progressMap) (c : Z) :
  (dense pm <-> exists lines, render_all fmt progressSize pm = Ok lines)
  /\ (~ dense pm <-> render_all fmt progressSize pm = Panic nil_deref)
  /\ (forall k, 0 <= k < len pm -> index_ptr pm k = None ->
      render_all fmt progressSize pm = Panic nil_deref)
  /\ percent_of (mkProgress 0 0) = S754_nan
  /\ F64.is_nan (percent_of (mkProgress c 0)) || F64.is_inf (percent_of (mkProgress c 0))
     = true.
Proof.
  split_and!.
  - split.
    + intros Hd. eexists. by apply render_all_dense.
    + intros [lines Hok] j Hj. unfold render_all in Hok.
      eapply render_loop_ok_inv; [exact Hok|]. unfold len in Hj. lia.
  - split.
    + intros Hnd. destruct (render_all fmt progressSize pm) as [lines|w] eqn:Hr.
      * destruct Hnd. intros j Hj. unfold render_all in Hr.
        eapply render_loop_ok_inv; [exact Hr|]. unfold len in Hj. lia.
      * f_equal. by eapply render_loop_panic_msg.
    + intros Hp Hd. rewrite (render_all_dense _ _ _ Hd) in Hp. discriminate.
  - intros k Hk Hnil. unfold render_all.
    apply (render_loop_nil fmt progressSize pm (size pm) 0 k); [unfold len in Hk; lia|done].
  - reflexivity.
  - unfold percent_of. simpl. apply div_by_zero_total.
Qed.

Lemma renderer_preconditions_witness :
  render_all Sprint_float64_small 10 {[ 0 := Some (mkProgress 1 2); 2 := Some (mkProgress 0 1) ]}
  = Panic nil_deref.
Proof.
  pose proof (renderer_preconditions Sprint_float64_small 10
                {[ 0 := Some (mkProgress 1 2); 2 := Some (mkProgress 0 1) ]} 0)
    as (_ & _ & Hnil & _).
  apply (Hnil 1).
  - change (0 <= 1 < 2). lia.
  - reflexivity.
Defined.

(** * Further properties of the code *)

(** ** The chunk fetcher writing to a chunk file *)

Lemma Write_file_open (f : File) (fs : filesystem) (data : list Byte.byte) :
  fclosed f = false ->
  Write (f, fs) data
  = ((mkFile (fname f) (fpos f + length data)%nat false,
      <[fname f := write_at (file_content fs f) (fpos f) data]> fs),
     (Z.of_nat (length data), None)).
Proof. intros Hf. unfold Write, File_Writer. by rewrite Hf. Qed.

Lemma progress_add_0 (pr : progress) : mkProgress (curr pr + 0) (total pr) = pr.
Proof. destruct pr. simpl. by rewrite Z.add_0_r. Qed.

(** One call of [readBody] through an open handle positioned at the end of
    its file. *)
Lemma readBody_file (rd : read_result) (f : File) (fs : filesystem) (index : Z)
    (sum : summon) (pr : progress) :
  index_ptr (progressBar sum) index = Some pr ->
  Z.of_nat (length rd.1) <= buf_len ->
  in_int64 (curr pr + Z.of_nat (length rd.1)) ->
  fclosed f = false ->
  fpos f = length (file_content fs f) ->
  exists sum' f' fs',
    readBody rd (f, fs) index sum = Ok (sum', (f', fs'), rd.2)
    /\ file_content fs' f' = file_content fs f ++ rd.1
    /\ fname f' = fname f
    /\ fclosed f' = false
    /\ fpos f' = length (file_content fs' f')
    /\ (forall name, name <> fname f -> fs' !! name = fs !! name)
    /\ index_ptr (progressBar sum') index
       = Some (mkProgress (curr pr + Z.of_nat (length rd.1)) (total pr)).
Proof.
  intros Hpr Hfit Hrange Hopen Hpos. unfold readBody. destruct rd as [data e0].
  simpl in *. destruct (0 <? Z.of_nat (length data)) eqn:Hr.
  - assert (Hb : (buf_len <? Z.of_nat (length data)) = false) by (apply Z.ltb_ge; lia).
    rewrite Hb, Hpr, (wrap64_id _ Hrange), (Write_file_open f fs data Hopen).
    eexists _, _, _. split; [reflexivity|]. simpl.
    assert (Hc : file_content (<[fname f := write_at (file_content fs f) (fpos f) data]> fs)
                   (mkFile (fname f) (fpos f + length data) false)
                 = file_content fs f ++ data).
    { unfold file_content at 1. simpl. rewrite lookup_insert_eq. simpl.
      by rewrite Hpos, write_at_end. }
    split_and!; try done.
    + rewrite Hc, length_app. lia.
    + intros name Hne. by rewrite lookup_insert_ne.
    + apply index_ptr_insert_eq.
  - apply Z.ltb_ge in Hr. assert (Hnil : data = []) by (destruct data; simpl in *; [done|lia]).
    subst data. exists sum, f, fs. simpl. rewrite app_nil_r, progress_add_0.
    split_and!; done.
Qed.

Lemma delivered_stop (polls : list bool) (body : Body) :
  hd false polls = true ->
  delivered polls body = [] /\ fetch_result polls body = Some ErrGracefulShutdown.
Proof. intros Hhd. destruct body; simpl; by rewrite Hhd. Qed.

(** X1. A fetch through an open handle positioned at the end of its chunk
    file appends to that file exactly the bytes it took from the body, in
    the order they were read; it leaves the cursor at the new end of the
    file, touches no other file, adds the number of those bytes to the
    counter of its chunk, and returns the error the loop ended with. *)
Theorem fetch_appends_delivered (index : Z) (body : Body) (polls : list bool)
    (f : File) (fs : filesystem) (sum : summon) (pr : progress) :
  index_ptr (progressBar sum) index = Some pr ->
  reads_fit body ->
  in_int64 (curr pr) ->
  in_int64 (curr pr + Z.of_nat (length (delivered polls body))) ->
  fclosed f = false ->
  fpos f = length (file_content fs f) ->
  exists sum' f' fs',
    getDataAndWriteToFile polls body (f, fs) index sum
    = Ok (sum', (f', fs'), fetch_result polls body)
    /\ file_content fs' f' = file_content fs f ++ delivered polls body
    /\ fname f' = fname f
    /\ fclosed f' = false
    /\ fpos f' = length (file_content fs' f')
    /\ (forall name, name <> fname f -> fs' !! name = fs !! name)
    /\ index_ptr (progressBar sum') index
       = Some (mkProgress (curr pr + Z.of_nat (length (delivered polls body))) (total pr)).
Proof.
  revert polls f fs sum pr.
  induction body as [|rd body IH]; intros polls f fs sum pr Hpr Hfit Hlo Hhi Hopen Hpos.
  - exists sum, f, fs. simpl. destruct (hd false polls); simpl;
      rewrite app_nil_r, progress_add_0; split_and!; done.
  - destruct (hd false polls) eqn:Hhd.
    { destruct (delivered_stop polls (rd :: body) Hhd) as [-> ->].
      exists sum, f, fs. cbn [getDataAndWriteToFile]. rewrite Hhd. simpl.
      rewrite app_nil_r, progress_add_0. split_and!; done. }
    apply Forall_cons in Hfit as [Hfit1 Hfit].
    cbn [delivered fetch_result getDataAndWriteToFile] in *. rewrite Hhd in *.
    assert (Hlen : 0 <= Z.of_nat (length rd.1)
                   <= Z.of_nat (length (rd.1 ++ match rd.2 with
                                                | Some _ => []
                                                | None => delivered (tl polls) body
                                                end))).
    { rewrite length_app. lia. }
    destruct (readBody_file rd f fs index sum pr Hpr Hfit1) as
      (sum1 & f1 & fs1 & Hrb & Hc1 & Hn1 & Ho1 & Hp1 & Hoth1 & Hpr1); [|done|done|].
    { unfold in_int64 in *. lia. }
    rewrite Hrb. cbn [mbind outcome_bind].
    destruct rd.2 as [e1|] eqn:He1.
    + exists sum1, f1, fs1. rewrite app_nil_r in *.
      destruct e1; split_and!; done.
    + destruct (IH (tl polls) f1 fs1 sum1 _ Hpr1 Hfit) as
        (sum' & f' & fs' & Hrun & Hc & Hn & Ho & Hp & Hoth & Hpr'); [| |done|done|].
      { simpl. unfold in_int64 in *. lia. }
      { simpl. rewrite length_app in Hhi. unfold in_int64 in *. lia. }
      exists sum', f', fs'. simpl in Hpr'. split_and!; try done.
      * rewrite Hc, Hc1. by rewrite <- app_assoc.
      * congruence.
      * intros name Hne. rewrite Hoth by congruence. by apply Hoth1.
      * rewrite Hpr'. do 2 f_equal. rewrite length_app. lia.
Qed.

Lemma fetch_appends_delivered_witness :
  exists sum' f' fs',
    getDataAndWriteToFile [false; false] [([Byte.x63], None); ([Byte.x64], Some io_EOF)]
      (mkFile "/d/.f.bin.sump0" 2 false, ex_fs) 0 ex_job
    = Ok (sum', (f', fs'), None)
    /\ file_content fs' f' = [Byte.x61; Byte.x62] ++ [Byte.x63; Byte.x64]
    /\ fname f' = "/d/.f.bin.sump0"
    /\ fclosed f' = false
    /\ fpos f' = length (file_content fs' f')
    /\ (forall name, name <> "/d/.f.bin.sump0" -> fs' !! name = ex_fs !! name)
    /\ index_ptr (progressBar sum') 0 = Some (mkProgress (0 + 2) 2).
Proof.
  refine (fetch_appends_delivered 0 [([Byte.x63], None); ([Byte.x64], Some io_EOF)]
            [false; false] (mkFile "/d/.f.bin.sump0" 2 false) ex_fs ex_job
            (mkProgress 0 2) _ _ _ _ _ _).
  - reflexivity.
  - repeat constructor; simpl; unfold buf_len; lia.
  - unfold in_int64. simpl. lia.
  - unfold in_int64. simpl. lia.
  - reflexivity.
  - reflexivity.
Defined.

(** X2. A fetcher whose chunk has no entry in the progress map (the key is
    absent or bound to nil) panics with a nil dereference as soon as a read
    delivers a byte; as long as the reads deliver nothing it runs normally
    and leaves the job and the writer as they are. *)
Theorem fetch_missing_entry {W} `{io_Writer W} (index : Z) (body : Body)
    (polls : list bool) (f : W) (sum : summon) :
  index_ptr (progressBar sum) index = None ->
  reads_fit body ->
  getDataAndWriteToFile polls body f index sum
  = if decide (delivered polls body = [])
    then Ok (sum, f, fetch_result polls body)
    else Panic nil_deref.
Proof.
  revert polls. induction body as [|rd body IH]; intros polls Hnil Hfit.
  - simpl. destruct (hd false polls); reflexivity.
  - destruct (hd false polls) eqn:Hhd.
    { destruct (delivered_stop polls (rd :: body) Hhd) as [-> ->].
      cbn [getDataAndWriteToFile]. by rewrite Hhd. }
    apply Forall_cons in Hfit as [Hfit1 Hfit].
    cbn [delivered fetch_result getDataAndWriteToFile]. rewrite Hhd.
    destruct rd as [data e]. unfold readBody. simpl in *.
    destruct (0 <? Z.of_nat (length data)) eqn:Hr.
    + assert (Hb : (buf_len <? Z.of_nat (length data)) = false) by (apply Z.ltb_ge; lia).
      rewrite Hb, Hnil. cbn [mbind outcome_bind].
      destruct data as [|b data]; [discriminate|]. by rewrite decide_False.
    + apply Z.ltb_ge in Hr.
      assert (Hd : data = []) by (destruct data; simpl in *; [done|lia]). subst data.
      cbn [mbind outcome_bind app]. destruct e as [e|].
      * rewrite decide_True by done. by destruct e.
      * by apply IH.
Qed.

Lemma fetch_missing_entry_witness :
  getDataAndWriteToFile [] [([], None); ([Byte.x61], None)] ex_sink 7 ex_job
  = Panic nil_deref
  /\ getDataAndWriteToFile [] [([], None); ([], Some io_EOF)] ex_sink 7 ex_job
     = Ok (ex_job, ex_sink, None).
Proof.
  split.
  - apply (fetch_missing_entry 7 [([], None); ([Byte.x61], None)] [] ex_sink ex_job).
    + reflexivity.
    + repeat constructor; simpl; unfold buf_len; lia.
  - apply (fetch_missing_entry 7 [([], None); ([], Some io_EOF)] [] ex_sink ex_job).
    + reflexivity.
    + repeat constructor; simpl; unfold buf_len; lia.
Defined.

(** ** What a fetcher leaves alone *)

Lemma set_progressBar_same (sum : summon) : set_progressBar (progressBar sum) sum = sum.
Proof. by destruct sum. Qed.

Lemma counter_step_refl (index : Z) (sum : summon) : counter_step index sum sum.
Proof.
  unfold counter_step. split; [apply set_progressBar_same|].
  split; [apply same_shape_refl|]. split; [done|]. congruence.
Qed.

Lemma counter_step_trans (index : Z) (s1 s2 s3 : summon) :
  counter_step index s1 s2 -> counter_step index s2 s3 -> counter_step index s1 s3.
Proof.
  intros (Ha1 & Ha2 & Ha3 & Ha4) (Hb1 & Hb2 & Hb3 & Hb4). split_and!.
  - rewrite <- Ha1 at 2. rewrite <- Hb1. by destruct s3.
  - by eapply same_shape_trans.
  - intros j Hj. rewrite Hb3 by done. by apply Ha3.
  - intros p p' Hp Hp'.
    destruct (index_ptr (progressBar s2) index) as [p2|] eqn:Hp2.
    + rewrite (Hb4 p2 p' eq_refl Hp'). by apply Ha4.
    + apply Ha2 in Hp2. congruence.
Qed.

Lemma readBody_frame {W} `{io_Writer W} (rd : read_result) (f f' : W) (index : Z)
    (sum sum' : summon) (e : option error) :
  readBody rd f index sum = Ok (sum', f', e) -> counter_step index sum sum'.
Proof.
  unfold readBody. destruct rd as [data e0].
  destruct (0 <? _); [|intros [= <- _ _]; apply counter_step_refl].
  destruct (buf_len <? _); [discriminate|].
  destruct (index_ptr _ _) as [pr|] eqn:Hpr; [|discriminate].
  intros [= <- _ _]. split_and!.
  - by destruct sum.
  - simpl. by eapply same_shape_update.
  - intros j Hj. simpl. by apply index_ptr_insert_ne.
  - intros p p'. simpl. rewrite index_ptr_insert_eq, Hpr. by intros [= <-] [= <-].
Qed.

Lemma getData_frame {W} `{io_Writer W} (index : Z) (body : Body) :
  forall (polls : list bool) (f f' : W) (sum sum' : summon) (e : option error),
  getDataAndWriteToFile polls body f index sum = Ok (sum', f', e) ->
  counter_step index sum sum' /\ e = fetch_result polls body.
Proof.
  induction body as [|rd body IH]; intros polls f f' sum sum' e; simpl.
  - destruct (hd false polls); intros [= <- _ <-]; split; by try apply counter_step_refl.
  - destruct (hd false polls); [intros [= <- _ <-]; split; by try apply counter_step_refl|].
    destruct (readBody rd f index sum) as [[[sum1 f1] e1]|w] eqn:Hrb; [|discriminate].
    cbn [mbind outcome_bind].
    pose proof (readBody_frame _ _ _ _ _ _ _ Hrb) as Hstep.
    apply readBody_err in Hrb. subst e1.
    destruct rd.2 as [e1|].
    + destruct e1; intros [= <- _ <-]; by split.
    + intros Hrun. apply IH in Hrun as [Hstep' ->]. split; [|done].
      by eapply counter_step_trans.
Qed.

(** X3. Whatever the server does and whatever the writer is, a call of
    [downloadFileForRange] that returns changes nothing of the job but the
    counter of its own chunk and the error field: the progress map keeps
    its keys (a dense map stays dense), the entries of the other chunks and
    the total of its own are untouched.  It never clears the error field:
    the field is nil afterwards only if it was nil before and the fetch
    logged nothing, and an error that was logged is the one recorded. *)
Theorem downloadFileForRange_frame {W} `{io_Writer W} (env : fetch_env) (index : Z)
    (handle handle' : W) (sum sum' : summon) (logged : list error) :
  downloadFileForRange env index handle sum = Ok (sum', handle', logged) ->
  counter_step index sum (set_err (err sum) sum')
  /\ (dense (progressBar sum) -> dense (progressBar sum'))
  /\ (err sum' = None -> err sum = None /\ logged = [])
  /\ (forall e, e ∈ logged -> err sum' = Some e)
  /\ (length logged <= 1)%nat.
Proof.
  intros Hrun.
  assert (Hset : forall s e, set_err (err s) (set_err e s) = s) by (by intros []).
  assert (Hmain : counter_step index sum (set_err (err sum) sum')
                  /\ (err sum' = None -> err sum = None /\ logged = [])
                  /\ (forall e, e ∈ logged -> err sum' = Some e)
                  /\ (length logged <= 1)%nat).
  { unfold downloadFileForRange in Hrun.
    destruct (NewRequest_err env) as [e|].
    { injection Hrun as <- _ <-. rewrite Hset. split; [apply counter_step_refl|].
      split_and!; [done| |simpl; lia]. intros e' He'. by apply elem_of_nil in He'. }
    destruct (Do_result env) as [e|resp].
    { injection Hrun as <- _ <-. rewrite Hset. split; [apply counter_step_refl|].
      split_and!; [done| |simpl; lia]. intros e' He'. by apply elem_of_nil in He'. }
    destruct (negb _ && negb _).
    { injection Hrun as <- _ <-. rewrite Hset. split; [apply counter_step_refl|].
      split_and!; [done| |simpl; lia]. intros e' He'.
      apply list_elem_of_singleton in He'. by subst. }
    destruct (getDataAndWriteToFile _ _ _ _ _) as [[[sum1 f1] e1]|w] eqn:Hgd; [|discriminate].
    cbn [mbind outcome_bind] in Hrun. apply getData_frame in Hgd as [Hstep _].
    assert (Herr : err sum1 = err sum).
    { destruct Hstep as [Hs _]. rewrite <- Hs. by destruct sum1. }
    destruct e1 as [e1|]; injection Hrun as <- _ <-.
    - split.
      { replace (set_err (err sum) (set_err (Some e1) sum1)) with sum1; [done|].
        rewrite <- Herr. by destruct sum1. }
      split_and!; [done| |simpl; lia]. intros e' He'.
      apply list_elem_of_singleton in He'. by subst.
    - split.
      { replace (set_err (err sum) sum1) with sum1; [done|].
        rewrite <- Herr. by destruct sum1. }
      split_and!; [by rewrite Herr| |simpl; lia].
      intros e' He'. by apply elem_of_nil in He'. }
  destruct Hmain as (Hstep & H2 & H3 & H4). split_and!; try done.
  intros Hd. destruct Hstep as (_ & Hsh & _). simpl in Hsh. by eapply same_shape_dense.
Qed.

Lemma downloadFileForRange_frame_witness :
  counter_step 0 ex_job
    (set_err (err ex_job)
       (set_err (Some (Errorf "connection reset"))
          (set_progressBar (<[0 := Some (mkProgress 1 2)]> ex_progress0) ex_job)))
  /\ (dense (progressBar ex_job) ->
      dense (progressBar (set_err (Some (Errorf "connection reset"))
               (set_progressBar (<[0 := Some (mkProgress 1 2)]> ex_progress0) ex_job))))
  /\ (err (set_err (Some (Errorf "connection reset"))
            (set_progressBar (<[0 := Some (mkProgress 1 2)]> ex_progress0) ex_job)) = None ->
      err ex_job = None /\ [Errorf "connection reset"] = [])
  /\ (forall e, e ∈ [Errorf "connection reset"] ->
      err (set_err (Some (Errorf "connection reset"))
             (set_progressBar (<[0 := Some (mkProgress 1 2)]> ex_progress0) ex_job)) = Some e)
  /\ (length [Errorf "connection reset"] <= 1)%nat.
Proof.
  apply (downloadFileForRange_frame
           (ex_env 206 [([Byte.x61], Some (Errorf "connection reset"))] [])
           0 ex_sink (mkSink [Byte.x61] None) ex_job).
  reflexivity.
Defined.

(** ** The fetcher as a sequence of atomic accesses *)

Lemma run_sched_app (fmt : spec_float -> string) (n : Z) (a b : list sched_event) :
  forall st,
  run_sched fmt n (a ++ b) st = (st' ← run_sched fmt n a st; run_sched fmt n b st').
Proof.
  induction a as [|ev a IH]; intros st; [reflexivity|].
  destruct ev as [act|]; cbn [app run_sched].
  - destruct (apply_action act st) as [st1|w]; [|reflexivity].
    cbn [mbind outcome_bind]. apply IH.
  - destruct (ticker_case fmt n st) as [st1|w]; [|reflexivity].
    cbn [mbind outcome_bind]. apply IH.
Qed.

Lemma Write_file_fst (f : File) (fs : filesystem) (data : list Byte.byte) :
  (Write (f, fs) data).1 = (advance f data, (Write (f, fs) data).1.2).
Proof. unfold Write, File_Writer, advance. by destruct (fclosed f). Qed.

Lemma loop_actions_run (fmt : spec_float -> string) (n : Z) (index : Z) (body : Body) :
  forall (polls : list bool) (f : File) (st : state),
  reads_fit body ->
  run_sched fmt n (SFetch <$> loop_actions polls body f index) st
  = (res ← getDataAndWriteToFile polls body (f, st_fs st) index (st_sum st);
     Ok (fetch_state st res)).
Proof.
  induction body as [|rd body IH]; intros polls f st Hfit.
  - simpl. destruct (hd false polls); by destruct st.
  - cbn [loop_actions getDataAndWriteToFile].
    destruct (hd false polls); [by destruct st|].
    apply Forall_cons in Hfit as [Hfit1 Hfit].
    destruct rd as [data e]. unfold read_actions, readBody. simpl in *.
    destruct (0 <? Z.of_nat (length data)) eqn:Hr.
    + assert (Hb : (buf_len <? Z.of_nat (length data)) = false) by (apply Z.ltb_ge; lia).
      rewrite Hb. cbn [app fmap list_fmap run_sched apply_action mbind outcome_bind st_sum].
      destruct (index_ptr (progressBar (st_sum st)) index) as [pr|]; [|reflexivity].
      cbn [mbind outcome_bind]. rewrite (Write_file_fst f (st_fs st) data).
      destruct e as [e|].
      * by destruct e.
      * rewrite IH by done. reflexivity.
    + cbn [app mbind outcome_bind]. destruct e as [e|].
      * destruct e; by destruct st.
      * by apply IH.
Qed.

(** X4. The effects of [downloadFileForRange] on the state it shares with
    the other goroutines are a sequence of atomic accesses: for every read
    that delivers bytes a write to the chunk file followed by the locked
    increment of the counter, and at the end at most one locked assignment
    of the error field.  Running these accesses one after the other gives
    the state (or the panic) of the call. *)
Theorem downloadFileForRange_actions (fmt : spec_float -> string) (n : Z)
    (env : fetch_env) (index : Z) (f : File) (st : state) :
  reads_fit (env_body env) ->
  run_sched fmt n (SFetch <$> fetch_actions env index f) st
  = (res ← downloadFileForRange env index (f, st_fs st) (st_sum st);
     Ok (fetch_state st res)).
Proof.
  intros Hfit. unfold fetch_actions, downloadFileForRange, env_body in *.
  destruct (NewRequest_err env) as [e|]; [reflexivity|].
  destruct (Do_result env) as [e|resp]; [reflexivity|].
  destruct (negb _ && negb _); [reflexivity|].
  rewrite fmap_app, run_sched_app, loop_actions_run by done.
  destruct (getDataAndWriteToFile _ _ _ _ _) as [[[sum1 [f1 fs1]] e1]|w] eqn:Hgd;
    [|reflexivity].
  cbn [mbind outcome_bind]. apply getData_frame in Hgd as [_ <-].
  by destruct e1.
Qed.

Lemma downloadFileForRange_actions_witness :
  run_sched Sprint_float64_small 10
    [SFetch (ActWrite (mkFile "/d/.f.bin.sump1" 1 false) [Byte.x64]);
     SFetch (ActAdd 1 1);
     SFetch (ActSetErr (Errorf "connection reset"))]
    (mkState ex_job ex_fs [])
  = (res ← downloadFileForRange
             (ex_env 206 [([Byte.x64], Some (Errorf "connection reset"))] []) 1
             (mkFile "/d/.f.bin.sump1" 1 false, ex_fs) ex_job;
     Ok (fetch_state (mkState ex_job ex_fs []) res)).
Proof.
  apply (downloadFileForRange_actions Sprint_float64_small 10
           (ex_env 206 [([Byte.x64], Some (Errorf "connection reset"))] []) 1
           (mkFile "/d/.f.bin.sump1" 1 false) (mkState ex_job ex_fs [])).
  repeat constructor; simpl; unfold buf_len; lia.
Defined.

(** ** What the combiner leaves alone *)

(** X5. [combineChunks] touches no file but the temporary output and the
    final file: every chunk file is still there with its content afterwards,
    whether the combination succeeded or not (the part files are not
    removed).  When it fails, the final file has not been created or
    modified either.  When it succeeds the final file exists and the
    temporary name is gone. *)
Theorem combineChunks_frame (st : state) :
  let temp := fname (tempOutFile (details (st_sum st))) in
  let final := finalFileName (st_sum st) in
  let st' := (combineChunks st).1 in
  (forall name, name <> temp -> name <> final -> st_fs st' !! name = st_fs st !! name)
  /\ (forall e name, (combineChunks st).2 = Some e -> name <> temp ->
        st_fs st' !! name = st_fs st !! name)
  /\ ((combineChunks st).2 = None ->
        is_Some (st_fs st' !! final) /\ (temp <> final -> st_fs st' !! temp = None)).
Proof.
  intros temp final st'. subst st'. unfold combineChunks.
  pose proof (combine_loop_frame (size (chunks (details (st_sum st)))) 0 0 st) as Hf.
  destruct (combine_loop _ 0 0 st) as [[st1 w1] e1]. simpl in Hf.
  destruct Hf as (Hfs & _ & Hnm & Hfin & _). fold temp in Hfs, Hnm. fold final in Hfin.
  destruct e1 as [e1|]; simpl.
  { split_and!; [by intros; apply Hfs|by intros; apply Hfs|done]. }
  rewrite Hnm, Hfin. unfold os_Rename.
  destruct (st_fs st1 !! temp) as [data|] eqn:Htemp; simpl.
  - split_and!.
    + intros name Ht Hn. rewrite lookup_insert_ne, lookup_delete_ne by done. by apply Hfs.
    + done.
    + intros _. split; [rewrite lookup_insert_eq; eauto|].
      intros Hne. by rewrite lookup_insert_ne, lookup_delete_eq.
  - split_and!; [by intros; apply Hfs|by intros; apply Hfs|done].
Qed.

Lemma combineChunks_frame_witness :
  (combineChunks ex_state).2 = None
  /\ st_fs (combineChunks ex_state).1 !! "/d/.f.bin.sump0" = Some [Byte.x61; Byte.x62]
  /\ st_fs (combineChunks ex_state).1 !! "/d/.f.bin.sump1" = Some [Byte.x63]
  /\ is_Some (st_fs (combineChunks ex_state).1 !! "/d/f.bin")
  /\ st_fs (combineChunks ex_state).1 !! "/d/.f.bin.tmp" = None.
Proof.
  pose proof (combineChunks_frame ex_state) as (Hother & _ & Hok).
  split; [reflexivity|].
  split; [by rewrite (Hother "/d/.f.bin.sump0")|].
  split; [by rewrite (Hother "/d/.f.bin.sump1")|].
  destruct (Hok eq_refl) as [Hfinal Htemp].
  split; [exact Hfinal|]. by apply Htemp.
Defined.

(** ** Where the combiner stops *)

Lemma combine_loop_app (a b : nat) : forall (i w : Z) (st : state),
  combine_loop (a + b) i w st
  = match combine_loop a i w st with
    | (st1, w1, Some e) => (st1, w1, Some e)
    | (st1, w1, None) => combine_loop b (i + Z.of_nat a) w1 st1
    end.
Proof.
  induction a as [|a IH]; intros i w st.
  - simpl. by rewrite Z.add_0_r.
  - cbn [Nat.add combine_loop]. cbv zeta.
    destruct (index_ptr _ i) as [h|]; [|reflexivity].
    destruct (io_Copy _ _ _) as [[[[fs' dst'] src'] written] e].
    destruct e as [e|]; [reflexivity|].
    rewrite IH. by replace (i + 1 + Z.of_nat a) with (i + Z.of_nat (S a)) by lia.
Qed.

(** The loop replaces the handles of the indices it visits only. *)
Lemma combine_loop_chunks_other (todo : nat) : forall (i w : Z) (st : state) (j : Z),
  j < i \/ i + Z.of_nat todo <= j ->
  index_ptr (chunks (details (st_sum (combine_loop todo i w st).1.1))) j
  = index_ptr (chunks (details (st_sum st))) j.
Proof.
  induction todo as [|todo IH]; intros i w st j Hj; [reflexivity|].
  cbn [combine_loop]. cbv zeta.
  destruct (index_ptr _ i) as [h|]; [|reflexivity].
  destruct (io_Copy _ _ _) as [[[[fs' dst'] src'] written] e].
  destruct e as [e|].
  - simpl. apply index_ptr_insert_ne. lia.
  - rewrite IH by lia. simpl. apply index_ptr_insert_ne. lia.
Qed.

Lemma file_content_same_name (fs : filesystem) (f g : File) :
  fname f = fname g -> file_content fs f = file_content fs g.
Proof. unfold file_content. by intros ->. Qed.

(** X6. [combineChunks] stops at the first chunk it cannot use.  When the
    chunks below [k] are usable and the handle of chunk [k] is nil (or
    absent) or closed, the call fails with the error of that case; the
    temporary output then holds what it held before followed by the chunks
    below [k], in order, and no other file has changed: the final file has
    not been produced. *)
Theorem combineChunks_first_unusable (st : state) (k : Z) :
  let d := details (st_sum st) in
  temp_ready st ->
  0 <= k < len (chunks d) ->
  (forall j, 0 <= j < k -> chunk_ready st j) ->
  match index_ptr (chunks d) k with
  | None => True
  | Some h => fclosed h = true
  end ->
  exists st',
    combineChunks st
    = (st', Some (match index_ptr (chunks d) k with
                  | None => Errorf "got chunk handle nil"
                  | Some _ => Wrapf "error occured while copying to temp file" os_ErrClosed
                  end))
    /\ file_content (st_fs st') (tempOutFile d)
       = file_content (st_fs st) (tempOutFile d)
         ++ concat (chunk_bytes (st_fs st) (chunks d) <$> seqZ 0 k)
    /\ (forall name, name <> fname (tempOutFile d) -> st_fs st' !! name = st_fs st !! name).
Proof.
  intros d Ht Hk Hready Hbad. unfold len in Hk.
  assert (Hsplit : size (chunks d) = (Z.to_nat k + S (size (chunks d) - S (Z.to_nat k)))%nat)
    by lia.
  destruct (combine_loop_spec (Z.to_nat k) 0 0 st Ht) as
    (st1 & w1 & Hrun & Hr1 & Hn1 & Hcont & Hoth & _).
  { intros j Hj. apply Hready. lia. }
  pose proof (combine_loop_chunks_other (Z.to_nat k) 0 0 st k ltac:(lia)) as Hkk.
  rewrite Hrun in Hkk. simpl in Hkk. fold d in Hkk, Hn1, Hcont, Hoth.
  rewrite Z2Nat.id in Hcont by lia.
  unfold combineChunks. fold d. rewrite Hsplit, combine_loop_app, Hrun.
  rewrite Z2Nat.id, Z.add_0_l by lia. cbn [combine_loop]. cbv zeta. rewrite Hkk.
  destruct (index_ptr (chunks d) k) as [h|].
  - assert (Hcp : io_Copy (st_fs st1) (tempOutFile (details (st_sum st1))) (Seek0 h)
                  = (st_fs st1, tempOutFile (details (st_sum st1)), Seek0 h, 0,
                     Some os_ErrClosed)).
    { unfold Seek0. rewrite Hbad. unfold io_Copy. by rewrite Hbad. }
    rewrite Hcp. eexists. split; [reflexivity|]. simpl. split; [|exact Hoth].
    rewrite <- Hcont. by apply file_content_same_name.
  - exists st1. split; [reflexivity|]. split; [|exact Hoth].
    rewrite <- Hcont. by apply file_content_same_name.
Qed.

Lemma combineChunks_first_unusable_witness :
  exists st',
    combineChunks (mkState (ex_summon (<[1 := Some (mkFile "/d/.f.bin.sump1" 1 true)]> ex_chunks)
                              ex_progress None) ex_fs [])
    = (st', Some (Wrapf "error occured while copying to temp file" os_ErrClosed))
    /\ file_content (st_fs st') (mkFile "/d/.f.bin.tmp" 0 false)
       = [] ++ concat [[Byte.x61; Byte.x62]]
    /\ (forall name, name <> "/d/.f.bin.tmp" -> st_fs st' !! name = ex_fs !! name).
Proof.
  refine (combineChunks_first_unusable
            (mkState (ex_summon (<[1 := Some (mkFile "/d/.f.bin.sump1" 1 true)]> ex_chunks)
                        ex_progress None) ex_fs []) 1 _ _ _ _).
  - split; reflexivity.
  - change (0 <= 1 < 2). lia.
  - intros j Hj. assert (j = 0) as -> by lia.
    eexists. split; [reflexivity|]. split; [reflexivity|discriminate].
  - reflexivity.
Defined.

(** ** What the supervisor returns *)

Lemma close_all_closed (st : state) :
  fclosed (tempOutFile (details (st_sum (close_all st)))) = true
  /\ (forall i h, index_ptr (chunks (details (st_sum (close_all st)))) i = Some h ->
        fclosed h = true).
Proof.
  split; [reflexivity|]. intros i h. unfold close_all, index_ptr. simpl.
  rewrite lookup_fmap. destruct (chunks (details (st_sum st)) !! i) as [[h0|]|]; simpl;
    [|discriminate|discriminate].
  by intros [= <-].
Qed.

Lemma combineChunks_err_field (st : state) :
  err (st_sum (combineChunks st).1) = err (st_sum st)
  /\ finalFileName (st_sum (combineChunks st).1) = finalFileName (st_sum st).
Proof.
  unfold combineChunks.
  pose proof (combine_loop_frame (size (chunks (details (st_sum st)))) 0 0 st) as Hf.
  destruct (combine_loop _ 0 0 st) as [[st1 w1] e1]. simpl in Hf.
  destruct Hf as (_ & _ & _ & Hfin & Herr).
  destruct e1 as [e1|]; simpl; [done|].
  destruct (os_Rename _ _ _) as [fs' [e|]]; simpl; done.
Qed.

(** X7. What a call of [process] that returns tells its caller.  When the
    downloader fails, its error is returned at once and the state is the
    one it left (nothing was started, no file was closed).  Otherwise every
    chunk handle and the temporary output are closed when [process] returns,
    on the error paths too; an error recorded in the error field is the
    result; and the result is nil only if no error was recorded and the
    final file exists under its final name. *)
Theorem process_outcome (fmt : spec_float -> string) (n : Z)
    (download resumeDownload : state -> state * option error)
    (sched : list sched_event) (st st0 st' : state) (e0 res : option error) :
  getDownloader download resumeDownload (st_sum st) st = (st0, e0) ->
  process fmt n download resumeDownload sched st = Ok (st', res) ->
  (forall e, e0 = Some e -> st' = st0 /\ res = Some e)
  /\ (e0 = None ->
      fclosed (tempOutFile (details (st_sum st'))) = true
      /\ (forall i h, index_ptr (chunks (details (st_sum st'))) i = Some h ->
            fclosed h = true)
      /\ (forall e, err (st_sum st') = Some e -> res = Some e)
      /\ (res = None ->
            err (st_sum st') = None
            /\ is_Some (st_fs st' !! finalFileName (st_sum st')))).
Proof.
  intros Hl Hrun. unfold process in Hrun. rewrite Hl in Hrun.
  destruct e0 as [e0|].
  { injection Hrun as <- <-. split; [by intros e [= <-]|done]. }
  split; [done|]. intros _.
  destruct (run_sched _ _ _ _) as [st1|w]; [|discriminate].
  cbn [mbind outcome_bind] in Hrun.
  destruct (stop_case _ _ _) as [st2|w]; [|discriminate].
  cbn [mbind outcome_bind] in Hrun.
  destruct (err (st_sum st2)) as [e2|] eqn:He2.
  { injection Hrun as <- <-. destruct (close_all_closed st2) as [Ht Hc].
    split_and!; try done. simpl. rewrite He2. by intros e [= <-]. }
  destruct (combineChunks st2) as [st3 e3] eqn:Hc3. injection Hrun as <- <-.
  destruct (close_all_closed st3) as [Ht Hc].
  destruct (combineChunks_err_field st2) as [Herr Hfin]. rewrite Hc3 in Herr, Hfin.
  simpl in Herr, Hfin.
  split_and!; try done.
  - simpl. rewrite Herr, He2. discriminate.
  - intros ->. simpl. split; [by rewrite Herr|].
    pose proof (combine_loop_frame (size (chunks (details (st_sum st2)))) 0 0 st2) as Hf.
    unfold combineChunks in Hc3.
    destruct (combine_loop _ 0 0 st2) as [[sta wa] ea]. simpl in Hf.
    destruct ea as [ea|]; [discriminate|].
    unfold os_Rename in Hc3.
    destruct (st_fs sta !! _) as [data|]; [|discriminate].
    injection Hc3 as <-. simpl.
    replace (finalFileName _) with (finalFileName (st_sum sta)) by (by destruct sta as [[] ? ?]).
    rewrite lookup_insert_eq. eauto.
Qed.

Lemma process_outcome_witness :
  fclosed (tempOutFile (details (st_sum
     (close_all (combineChunks (after_stop Sprint_float64_small 10
                   (emit [EvRendererStarted] ex_state))).1)))) = true
  /\ is_Some (st_fs (close_all (combineChunks (after_stop Sprint_float64_small 10
                        (emit [EvRendererStarted] ex_state))).1) !! "/d/f.bin").
Proof.
  pose proof (process_outcome Sprint_float64_small 10 ex_download ex_download []
                ex_state ex_state
                (close_all (combineChunks (after_stop Sprint_float64_small 10
                              (emit [EvRendererStarted] ex_state))).1)
                None None eq_refl eq_refl) as [_ Hok].
  destruct (Hok eq_refl) as (Ht & _ & _ & Hnil).
  split; [exact Ht|]. by destruct (Hnil eq_refl) as [_ Hfile].
Defined.

(** ** The supervisor on a progress map with a hole *)

Lemma same_shape_sym {A} (m m' : gmap Z (option A)) : same_shape m m' -> same_shape m' m.
Proof. intros [Hs Hn]. split; [done|]. intros i. by rewrite Hn. Qed.

Lemma render_all_sparse (fmt : spec_float -> string) (n : Z) (pm : progressMap) :
  ~ dense pm -> render_all fmt n pm = Panic nil_deref.
Proof.
  intros Hnd. destruct (render_all fmt n pm) as [lines|w] eqn:Hr.
  - destruct Hnd. intros j Hj. unfold render_all in Hr.
    eapply render_loop_ok_inv; [exact Hr|]. unfold len in Hj. lia.
  - f_equal. by eapply render_loop_panic_msg.
Qed.

Lemma run_sched_sparse (fmt : spec_float -> string) (n : Z) (sched : list sched_event) :
  forall st, ~ dense (progressBar (st_sum st)) ->
  run_sched fmt n sched st = Panic nil_deref
  \/ exists st1, run_sched fmt n sched st = Ok st1 /\ ~ dense (progressBar (st_sum st1)).
Proof.
  induction sched as [|ev sched IH]; intros st Hnd; [right; eauto|].
  destruct ev as [[f data|idx r|e]|]; cbn [run_sched apply_action].
  - cbn [mbind outcome_bind]. by apply IH.
  - destruct (index_ptr (progressBar (st_sum st)) idx) as [pr|] eqn:Hpr; [|by left].
    cbn [mbind outcome_bind]. apply IH. simpl. intros Hd. apply Hnd.
    eapply same_shape_dense; [|exact Hd]. apply same_shape_sym.
    by eapply same_shape_update.
  - cbn [mbind outcome_bind]. by apply IH.
  - unfold ticker_case. rewrite render_all_sparse by done. by left.
Qed.

(** X8. [process] cannot complete on a progress map with a hole.  When the
    downloader leaves a progress map in which some index below its length
    has no entry (or a nil one), every run panics with a nil dereference,
    whatever the fetchers do and even if the timer never ticks: at the
    latest the final frame dereferences the missing entry. *)
Theorem process_sparse_map_panics (fmt : spec_float -> string) (n : Z)
    (download resumeDownload : state -> state * option error)
    (sched : list sched_event) (st st0 : state) :
  getDownloader download resumeDownload (st_sum st) st = (st0, None) ->
  ~ dense (progressBar (st_sum st0)) ->
  process fmt n download resumeDownload sched st = Panic nil_deref.
Proof.
  intros Hl Hnd. unfold process. rewrite Hl.
  destruct (run_sched_sparse fmt n sched (emit [EvRendererStarted] st0) Hnd)
    as [-> | (st1 & -> & Hnd1)]; [reflexivity|].
  cbn [mbind outcome_bind]. unfold stop_case. cbn [emit st_sum].
  by rewrite render_all_sparse.
Qed.

Lemma process_sparse_map_panics_witness :
  process Sprint_float64_small 10 ex_download ex_download [SFetch (ActAdd 0 1)]
    (mkState (ex_summon ex_chunks
                {[ 0 := Some (mkProgress 0 2); 2 := Some (mkProgress 0 1) ]} None) ex_fs [])
  = Panic nil_deref.
Proof.
  apply (process_sparse_map_panics Sprint_float64_small 10 ex_download ex_download
           [SFetch (ActAdd 0 1)]
           (mkState (ex_summon ex_chunks
                       {[ 0 := Some (mkProgress 0 2); 2 := Some (mkProgress 0 1) ]} None)
                    ex_fs [])
           (mkState (ex_summon ex_chunks
                       {[ 0 := Some (mkProgress 0 2); 2 := Some (mkProgress 0 1) ]} None)
                    ex_fs [])).
  - reflexivity.
  - intros Hd. apply (Hd 1); [change (0 <= 1 < 2); lia|reflexivity].
Defined.

(** ** Fetchers running side by side, then the combiner *)

Lemma loop_actions_appends (index : Z) (body : Body) : forall (polls : list bool) (f : File),
  fclosed f = false ->
  fetch_result polls body = None ->
  appends (fname f) index (fpos f) (loop_actions polls body f index)
  /\ written (loop_actions polls body f index) = delivered polls body.
Proof.
  induction body as [|rd body IH]; intros polls f Hopen Hres.
  - simpl in *. by destruct (hd false polls).
  - cbn [loop_actions delivered fetch_result] in *.
    destruct (hd false polls); [discriminate|].
    destruct rd as [data e]. unfold read_actions. simpl in *.
    destruct (0 <? Z.of_nat (length data)) eqn:Hr.
    + destruct e as [e|].
      * destruct e; try discriminate. simpl. rewrite !app_nil_r. by split_and!.
      * destruct (IH (tl polls) (advance f data)) as [Ha Hw].
        { unfold advance. by rewrite Hopen. }
        { done. }
        unfold advance in Ha at 1 2. rewrite Hopen in Ha. simpl in Ha.
        simpl. rewrite Hw. by split_and!.
    + apply Z.ltb_ge in Hr.
      assert (Hd : data = []) by (destruct data; simpl in *; [done|lia]). subst data.
      destruct e as [e|]; simpl.
      * destruct e; try discriminate. done.
      * by apply IH.
Qed.

Lemma fetch_actions_ok (env : fetch_env) (index : Z) (f : File) :
  fetch_ok env -> fclosed f = false ->
  appends (fname f) index (fpos f) (fetch_actions env index f)
  /\ written (fetch_actions env index f) = delivered (stop_polls env) (env_body env).
Proof.
  intros (Hreq & (resp & Hdo & Hst) & Hres & _) Hopen.
  unfold fetch_actions, env_body in *. rewrite Hreq, Hdo in *.
  assert (Hb : (negb (StatusCode resp =? 200) && negb (StatusCode resp =? 206)) = false).
  { destruct Hst as [-> | ->]; reflexivity. }
  rewrite Hb, Hres, app_nil_r. by apply loop_actions_appends.
Qed.

Lemma apply_write_append (f : File) (data : list Byte.byte) (st : state) :
  fclosed f = false ->
  fpos f = length (default [] (st_fs st !! fname f)) ->
  apply_action (ActWrite f data) st
  = Ok (mkState (st_sum st)
          (<[fname f := default [] (st_fs st !! fname f) ++ data]> (st_fs st))
          (st_trace st)).
Proof.
  intros Hopen Hpos. unfold apply_action. rewrite Write_file_open by done. simpl.
  unfold file_content. by rewrite Hpos, write_at_end.
Qed.

(** Fetchers that append to files of their own, run in any interleaving:
    each file ends up with the bytes of its own fetcher appended, in order,
    and nothing else of the job changes but the counters. *)
Lemma run_interleaving (fmt : spec_float -> string) (n : Z) (cs : gmap Z (option File)) :
  distinct_files cs ->
  forall ls sched, interleaving ls sched ->
  forall st,
  dense (progressBar (st_sum st)) ->
  Z.of_nat (length ls) <= len (progressBar (st_sum st)) ->
  (forall i l, ls !! i = Some l ->
     exists h, index_ptr cs (Z.of_nat i) = Some h
               /\ appends (fname h) (Z.of_nat i)
                    (length (default [] (st_fs st !! fname h))) l) ->
  exists st1,
    run_sched fmt n sched st = Ok st1
    /\ err (st_sum st1) = err (st_sum st)
    /\ details (st_sum st1) = details (st_sum st)
    /\ separator (st_sum st1) = separator (st_sum st)
    /\ dense (progressBar (st_sum st1))
    /\ (forall i l h, ls !! i = Some l -> index_ptr cs (Z.of_nat i) = Some h ->
          default [] (st_fs st1 !! fname h)
          = default [] (st_fs st !! fname h) ++ written l)
    /\ (forall x, (forall i h, (i < length ls)%nat ->
                     index_ptr cs (Z.of_nat i) = Some h -> fname h <> x) ->
          st_fs st1 !! x = st_fs st !! x).
Proof.
  intros Hdist ls sched Hint.
  induction Hint as [ls Hall | ls sched Hint IH | ls k a l sched Hk Hint IH];
    intros st Hd Hlen Hinv.
  - exists st. split_and!; try done. intros i l h Hl _.
    rewrite <- (Forall_lookup_1 _ _ _ _ Hall Hl). simpl. by rewrite app_nil_r.
  - cbn [run_sched]. unfold ticker_case. rewrite render_all_dense by done.
    cbn [mbind outcome_bind].
    match goal with |- context [run_sched fmt n sched ?s] => set (st2 := s) end.
    destruct (IH st2 Hd Hlen Hinv) as (st1 & Hrun & He & Hdt & Hsp & Hd1 & Hcont & Hoth).
    by exists st1.
  - assert (Hklt : (k < length ls)%nat) by (by eapply lookup_lt_Some).
    destruct (Hinv k _ Hk) as (h & Hh & Happ).
    destruct a as [f data|idx r|e]; simpl in Happ; [| |done].
    + destruct Happ as (Hn & Hopen & Hpos & Happ). cbn [run_sched].
      rewrite apply_write_append by (by rewrite ?Hn). cbn [mbind outcome_bind].
      rewrite Hn. set (c := default [] (st_fs st !! fname h)) in *.
      match goal with |- context [run_sched fmt n sched ?s] => set (st2 := s) end.
      destruct (IH st2) as (st1 & Hrun & He & Hdt & Hsp & Hd1 & Hcont & Hoth).
      { exact Hd. }
      { by rewrite length_insert. }
      { intros i l' Hl'. destruct (decide (i = k)) as [->|Hne].
        - rewrite list_lookup_insert_eq in Hl' by done. injection Hl' as <-.
          exists h. split; [done|]. simpl. rewrite lookup_insert_eq. simpl.
          by rewrite length_app.
        - rewrite list_lookup_insert_ne in Hl' by done.
          destruct (Hinv i l' Hl') as (hi & Hhi & Hai). exists hi. split; [done|].
          simpl. rewrite lookup_insert_ne; [done|].
          apply (Hdist (Z.of_nat k) (Z.of_nat i)); [lia|done|done]. }
      exists st1. split_and!; try done.
      * intros i l0 h0 Hl0 Hh0. destruct (decide (i = k)) as [->|Hne].
        -- assert (l0 = ActWrite f data :: l) as -> by congruence.
           assert (h0 = h) as -> by congruence.
           rewrite (Hcont k l h) by (by rewrite ?list_lookup_insert_eq).
           simpl. rewrite lookup_insert_eq. simpl. by rewrite <- app_assoc.
        -- rewrite (Hcont i l0 h0) by (by rewrite ?list_lookup_insert_ne).
           simpl. rewrite lookup_insert_ne; [done|].
           apply (Hdist (Z.of_nat k) (Z.of_nat i)); [lia|done|done].
      * intros x Hx. rewrite Hoth.
        -- simpl. rewrite lookup_insert_ne; [done|]. by apply (Hx k).
        -- intros i hi Hi. rewrite length_insert in Hi. by apply Hx.
    + destruct Happ as [-> Happ]. cbn [run_sched apply_action].
      destruct (index_ptr (progressBar (st_sum st)) (Z.of_nat k)) as [pr|] eqn:Hpr.
      2:{ destruct (Hd (Z.of_nat k)); [lia|done]. }
      cbn [mbind outcome_bind].
      pose proof (same_shape_update (progressBar (st_sum st)) (Z.of_nat k) pr
                    (mkProgress (wrap64 (curr pr + r)) (total pr)) Hpr) as Hsh.
      match goal with |- context [run_sched fmt n sched ?s] => set (st2 := s) end.
      destruct (IH st2) as (st1 & Hrun & He & Hdt & Hsp & Hd1 & Hcont & Hoth).
      { simpl. by eapply same_shape_dense. }
      { rewrite length_insert. simpl. destruct Hsh as [Hsz _]. unfold len in *. lia. }
      { intros i l' Hl'. destruct (decide (i = k)) as [->|Hne].
        - rewrite list_lookup_insert_eq in Hl' by done. injection Hl' as <-.
          by exists h.
        - rewrite list_lookup_insert_ne in Hl' by done. by apply Hinv. }
      exists st1. split_and!; try done.
      * intros i l0 h0 Hl0 Hh0. destruct (decide (i = k)) as [->|Hne].
        -- assert (l0 = ActAdd (Z.of_nat k) r :: l) as -> by congruence.
           by rewrite (Hcont k l h0) by (by rewrite ?list_lookup_insert_eq).
        -- by rewrite (Hcont i l0 h0) by (by rewrite ?list_lookup_insert_ne).
      * intros x Hx. rewrite Hoth; [done|].
        intros i hi Hi. rewrite length_insert in Hi. by apply Hx.
Qed.

Lemma combineChunks_ready (st : state) :
  let d := details (st_sum st) in
  temp_ready st ->
  is_Some (st_fs st !! fname (tempOutFile d)) ->
  (forall j, 0 <= j < len (chunks d) -> chunk_ready st j) ->
  exists st',
    combineChunks st = (st', None)
    /\ st_fs st' !! finalFileName (st_sum st)
       = Some (file_content (st_fs st) (tempOutFile d)
               ++ concat (chunk_bytes (st_fs st) (chunks d) <$> seqZ 0 (len (chunks d)))).
Proof.
  intros d Ht Hex Hc.
  destruct (combine_loop_spec (size (chunks d)) 0 0 st Ht) as
    (st1 & w1 & Hrun & Hr1 & Hn1 & Hcont & Hoth & Hsome & Htr & Hdir & Hfn & Hsep & Herr).
  { intros j Hj. apply Hc. unfold len. lia. }
  unfold combineChunks. fold d. rewrite Hrun.
  assert (Hin : is_Some (st_fs st1 !! fname (tempOutFile (details (st_sum st1))))).
  { rewrite Hn1. destruct (size (chunks d)) as [|m] eqn:Hsz.
    - simpl in Hrun. injection Hrun as <- _. exact Hex.
    - apply Hsome. lia. }
  destruct Hin as [data Hdata]. unfold os_Rename. rewrite Hdata.
  eexists. split; [reflexivity|]. simpl.
  assert (Hfin : finalFileName (st_sum st1) = finalFileName (st_sum st)).
  { unfold finalFileName. by rewrite Hdir, Hsep, Hfn. }
  rewrite Hfin, lookup_insert_eq. f_equal.
  unfold file_content in Hcont at 1. rewrite Hdata in Hcont. exact Hcont.
Qed.

(** X9. A whole download.  The downloader has prepared one chunk file per
    fetcher (open, on files of their own, cursors at the end) and a dense
    progress map; every fetcher gets a good response and reads it to the
    end.  Then, in whatever order the scheduler interleaves the accesses of
    the fetchers with each other and with the ticks of the renderer,
    [process] returns nil and the final file holds what the temporary
    output held (nothing, when it is fresh) followed, chunk by chunk in
    ascending order, by what the chunk file held before and the bytes its
    fetcher took from its response. *)
Theorem process_interleaved_download (fmt : spec_float -> string) (n : Z)
    (download resumeDownload : state -> state * option error)
    (envs : list fetch_env) (sched : list sched_event) (st st0 : state) :
  let d := details (st_sum st0) in
  getDownloader download resumeDownload (st_sum st) st = (st0, None) ->
  err (st_sum st0) = None ->
  len (chunks d) = Z.of_nat (length envs) ->
  Z.of_nat (length envs) <= len (progressBar (st_sum st0)) ->
  dense (progressBar (st_sum st0)) ->
  temp_ready st0 ->
  is_Some (st_fs st0 !! fname (tempOutFile d)) ->
  (forall j, 0 <= j < len (chunks d) -> chunk_at_end st0 j) ->
  distinct_files (chunks d) ->
  Forall fetch_ok envs ->
  interleaving (fetchers_actions (chunks d) envs) sched ->
  exists st',
    process fmt n download resumeDownload sched st = Ok (st', None)
    /\ st_fs st' !! finalFileName (st_sum st0)
       = Some (file_content (st_fs st0) (tempOutFile d)
               ++ concat ((fun i => chunk_bytes (st_fs st0) (chunks d) i
                                    ++ delivered_by envs i)
                            <$> seqZ 0 (len (chunks d)))).
Proof.
  intros d Hl Herr0 Hlen Hpm Hd Ht Hex Hchunks Hdist Hok Hint. subst d.
  assert (Hact : forall i l, fetchers_actions (chunks (details (st_sum st0))) envs !! i = Some l ->
            exists h env, index_ptr (chunks (details (st_sum st0))) (Z.of_nat i) = Some h
              /\ envs !! i = Some env
              /\ fname h <> fname (tempOutFile (details (st_sum st0)))
              /\ appends (fname h) (Z.of_nat i)
                   (length (default [] (st_fs st0 !! fname h))) l
              /\ written l = delivered_by envs (Z.of_nat i)).
  { intros i l Hi. unfold fetchers_actions in Hi. rewrite list_lookup_imap in Hi.
    destruct (envs !! i) as [env|] eqn:Henv; [|discriminate]. simpl in Hi.
    assert (Hilt : (i < length envs)%nat) by (by eapply lookup_lt_Some).
    destruct (Hchunks (Z.of_nat i)) as (h & Hh & Hopen & Hne & Hpos); [lia|].
    rewrite Hh in Hi. injection Hi as <-.
    destruct (fetch_actions_ok env (Z.of_nat i) h) as [Ha Hw];
      [by eapply Forall_lookup_1|done|].
    exists h, env. split_and!; try done.
    - by rewrite Hpos in Ha.
    - unfold delivered_by. by rewrite Nat2Z.id, Henv. }
  destruct (run_interleaving fmt n (chunks (details (st_sum st0))) Hdist _ _ Hint (emit [EvRendererStarted] st0))
    as (st1 & Hrun & He1 & Hdt1 & Hsp1 & Hd1 & Hcont & Hoth).
  { exact Hd. }
  { unfold fetchers_actions. by rewrite length_imap. }
  { intros i l Hi. destruct (Hact i l Hi) as (h & env & Hh & _ & _ & Ha & _). by exists h. }
  simpl in He1, Hdt1, Hsp1, Hcont, Hoth.
  assert (Htemp : st_fs st1 !! fname (tempOutFile (details (st_sum st0))) = st_fs st0 !! fname (tempOutFile (details (st_sum st0)))).
  { apply Hoth. intros i h Hi Hh. unfold fetchers_actions in Hi. rewrite length_imap in Hi.
    destruct (Hchunks (Z.of_nat i)) as (h' & Hh' & _ & Hne & _); [lia|].
    congruence. }
  rewrite (process_joined fmt n download resumeDownload sched st st0 st1 Hl Hrun Hd1).
  rewrite He1, Herr0.
  destruct (combineChunks_ready (after_stop fmt n st1)) as (st3 & Hc3 & Hfinal).
  { destruct Ht as [Hto Htp].
    split; simpl; rewrite Hdt1; [done|].
    rewrite Htp. unfold file_content. by rewrite Htemp. }
  { simpl. rewrite Hdt1. by rewrite Htemp. }
  { intros j Hj. simpl in Hj. rewrite Hdt1 in Hj.
    destruct (Hchunks j Hj) as (h & Hh & Hopen & Hne & _).
    exists h. simpl. by rewrite Hdt1. }
  rewrite Hc3. exists (close_all st3). split; [reflexivity|]. simpl.
  replace (finalFileName (st_sum st0)) with (finalFileName (st_sum (after_stop fmt n st1))).
  2:{ unfold finalFileName. simpl. by rewrite Hdt1, Hsp1. }
  rewrite Hfinal. simpl. rewrite Hdt1. do 2 f_equal.
  { unfold file_content. by rewrite Htemp. }
  f_equal. apply list_fmap_ext. intros k j Hk. apply lookup_seqZ in Hk as [-> Hk].
  rewrite Z.add_0_l. unfold len in Hlen, Hk.
  assert (Hklt : (k < length envs)%nat) by lia.
  destruct (lookup_lt_is_Some_2 (fetchers_actions (chunks (details (st_sum st0))) envs) k) as [l Hlk].
  { unfold fetchers_actions. by rewrite length_imap. }
  destruct (Hact k l Hlk) as (h & env & Hh & _ & _ & _ & Hw).
  unfold chunk_bytes. rewrite Hh. unfold file_content.
  rewrite (Hcont k l h Hlk Hh). by rewrite Hw.
Qed.

Lemma process_interleaved_download_witness :
  exists st',
    process Sprint_float64_small 10 ex_download ex_download
      [SFetch (ActWrite (mkFile "/d/.f.bin.sump1" 1 false) [Byte.x65]);
       STick;
       SFetch (ActWrite (mkFile "/d/.f.bin.sump0" 2 false) [Byte.x64]);
       SFetch (ActAdd 0 1);
       SFetch (ActAdd 1 1)]
      (mkState ex_job ex_fs [])
    = Ok (st', None)
    /\ st_fs st' !! "/d/f.bin"
       = Some [Byte.x61; Byte.x62; Byte.x64; Byte.x63; Byte.x65].
Proof.
  refine (process_interleaved_download Sprint_float64_small 10 ex_download ex_download
            [ex_env 206 [([Byte.x64], None)] [];
             ex_env 200 [([Byte.x65], Some io_EOF)] []]
            _ (mkState ex_job ex_fs []) (mkState ex_job ex_fs [])
            _ _ _ _ _ _ _ _ _ _ _).
  - reflexivity.
  - reflexivity.
  - reflexivity.
  - change (2 <= 2). lia.
  - intros i Hi. change (0 <= i < 2) in Hi.
    assert (Hc : i = 0 \/ i = 1) by lia. destruct Hc as [-> | ->]; discriminate.
  - split; reflexivity.
  - eexists; reflexivity.
  - intros j Hj. change (0 <= j < 2) in Hj.
    assert (Hc : j = 0 \/ j = 1) by lia.
    destruct Hc as [-> | ->]; eexists; (split; [reflexivity|]); split_and!;
      reflexivity || discriminate.
  - intros i j h h' Hne Hi Hj.
    assert (Hkeys : forall k x, index_ptr ex_chunks k = Some x ->
              k = 0 /\ x = mkFile "/d/.f.bin.sump0" 2 false
              \/ k = 1 /\ x = mkFile "/d/.f.bin.sump1" 1 false).
    { intros k x. unfold index_ptr, ex_chunks.
      destruct (decide (k = 0)) as [->|H0]; [intros [= <-]; by left|].
      rewrite lookup_insert_ne by done.
      destruct (decide (k = 1)) as [->|H1]; [intros [= <-]; by right|].
      by rewrite lookup_singleton_ne. }
    apply Hkeys in Hi as [[-> ->] | [-> ->]], Hj as [[-> ->] | [-> ->]];
      done || discriminate.
  - repeat constructor; simpl; try (unfold buf_len; lia).
    + eexists. split; [reflexivity|]. by right.
    + eexists. split; [reflexivity|]. by left.
  - eapply (interleaving_step _ 1%nat); [reflexivity|].
    apply interleaving_tick.
    eapply (interleaving_step _ 0%nat); [reflexivity|].
    eapply (interleaving_step _ 0%nat); [reflexivity|].
    eapply (interleaving_step _ 1%nat); [reflexivity|].
    apply interleaving_done. by repeat constructor.
Defined.

(** ** binary64 conversions and quotients *)

Lemma fexp_eq (x : Z) : fexp 53 1024 x = Z.max (x - 53) (-1074).
Proof. reflexivity. Qed.

Lemma shr_1_m (r : shr_record) : 0 <= shr_m r -> shr_m (shr_1 r) = Z.div2 (shr_m r).
Proof.
  destruct r as [m rb sb]. simpl. intros Hm.
  destruct m as [|p|p]; [reflexivity| |lia].
  destruct p; reflexivity.
Qed.

Lemma iter_shr_1_m (p : positive) : forall r, 0 <= shr_m r ->
  shr_m (SpecFloat.iter_pos shr_1 p r) = Z.shiftr (shr_m r) (Zpos p).
Proof.
  induction p as [p IH|p IH|]; intros r Hr; cbn [SpecFloat.iter_pos].
  - assert (H1 : 0 <= shr_m (shr_1 r)).
    { rewrite shr_1_m by done. apply Z.div2_nonneg. done. }
    assert (H2 : 0 <= shr_m (SpecFloat.iter_pos shr_1 p (shr_1 r))).
    { rewrite IH by done. apply Z.shiftr_nonneg. done. }
    rewrite IH, IH, shr_1_m by done.
    rewrite Z.div2_spec, !Z.shiftr_shiftr by lia. f_equal. lia.
  - assert (H2 : 0 <= shr_m (SpecFloat.iter_pos shr_1 p r)).
    { rewrite IH by done. apply Z.shiftr_nonneg. done. }
    rewrite IH, IH by done. rewrite Z.shiftr_shiftr by lia. f_equal. lia.
  - rewrite shr_1_m by done. by rewrite Z.div2_spec.
Qed.

Lemma Zdigits2_log2 (m : positive) : Zdigits2 (Zpos m) = Z.log2 (Zpos m) + 1.
Proof.
  simpl Zdigits2. induction m as [m IH|m IH|]; [| |reflexivity].
  - cbn [digits2_pos]. rewrite Pos2Z.inj_succ, IH.
    rewrite (Pos2Z.inj_xI m), Z.log2_succ_double by lia. lia.
  - cbn [digits2_pos]. rewrite Pos2Z.inj_succ, IH.
    rewrite (Pos2Z.inj_xO m), Z.log2_double by lia. lia.
Qed.

Lemma shiftr_pos (m k : Z) : 0 < m -> 0 <= k <= Z.log2 m -> 0 < Z.shiftr m k.
Proof.
  intros Hm Hk. rewrite Z.shiftr_div_pow2 by lia.
  apply Z.div_str_pos. split; [apply Z.pow_pos_nonneg; lia|].
  apply Z.log2_le_pow2; lia.
Qed.

(** [shr_fexp] on a positive mantissa: the exponent is raised to the one
    of the format when it is below, and the mantissa shifted accordingly. *)
Lemma shr_fexp_spec (m e : Z) (l : location) :
  0 < m ->
  (shr_fexp 53 1024 m e l).2 = Z.max e (Z.max (Z.log2 m + 1 + e - 53) (-1074))
  /\ shr_m (shr_fexp 53 1024 m e l).1
     = Z.shiftr m (Z.max e (Z.max (Z.log2 m + 1 + e - 53) (-1074)) - e).
Proof.
  intros Hm. unfold shr_fexp.
  assert (Hrec : shr_m (shr_record_of_loc m l) = m).
  { destruct l as [|[]]; reflexivity. }
  destruct m as [|p|p]; [lia| |lia].
  rewrite Zdigits2_log2, fexp_eq. set (d := Z.log2 (Z.pos p)) in *.
  unfold shr.
  destruct (Z.max (d + 1 + e - 53) (-1074) - e) as [|k|k] eqn:Hn; cbn [fst snd].
  - replace (Z.max e _ - e) with 0 by lia. rewrite Hrec. split; [lia|done].
  - rewrite iter_shr_1_m by (rewrite Hrec; lia). rewrite Hrec.
    split; [lia|]. f_equal. lia.
  - replace (Z.max e _ - e) with 0 by lia. rewrite Hrec. split; [lia|done].
Qed.

Lemma round_nearest_even_ge (m : Z) (l : location) :
  m <= round_nearest_even m l <= m + 1.
Proof. destruct l as [|[]]; simpl; try lia. destruct (Z.even m); lia. Qed.

Lemma log2_succ_bound (a b : Z) : 0 < a -> a <= b <= a + 1 -> Z.log2 a <= Z.log2 b <= Z.log2 a + 1.
Proof.
  intros Ha Hb. split; [apply Z.log2_le_mono; lia|].
  assert (Hc : b = a \/ b = Z.succ a) by lia. destruct Hc as [-> | ->]; [lia|].
  pose proof (Z.log2_succ_le a). lia.
Qed.

(** Rounding a positive mantissa gives a number of the same sign, which is
    not zero when the value is at least the smallest subnormal and finite
    when it is below [2^1023]. *)
Lemma binary_round_aux_sign (s : bool) (m e : Z) (l : location) :
  0 < m -> -1074 <= Z.log2 m + e ->
  match binary_round_aux 53 1024 s m e l with
  | S754_finite s' _ _ => s' = s
  | S754_infinity s' => s' = s /\ ~ (e <= 971 /\ Z.log2 m + e <= 1022)
  | _ => False
  end.
Proof.
  intros Hm He. unfold binary_round_aux.
  pose proof (Z.log2_nonneg m) as Hlm.
  destruct (shr_fexp_spec m e l Hm) as [He1 Hm1].
  destruct (shr_fexp 53 1024 m e l) as [r1 e1]. simpl in He1, Hm1.
  assert (Hm1pos : 0 < shr_m r1) by (rewrite Hm1; apply shiftr_pos; lia).
  assert (Hl1 : Z.log2 (shr_m r1) + e1 = Z.log2 m + e).
  { rewrite Hm1, Z.log2_shiftr by lia. lia. }
  pose proof (round_nearest_even_ge (shr_m r1) (loc_of_shr_record r1)) as Hr.
  set (m2 := round_nearest_even (shr_m r1) (loc_of_shr_record r1)) in *.
  pose proof (log2_succ_bound (shr_m r1) m2 Hm1pos Hr) as Hl2.
  assert (Hm2 : 0 < m2) by lia.
  pose proof (Z.log2_nonneg m2) as Hlm2.
  pose proof (Z.log2_nonneg (shr_m r1)) as Hlm1.
  destruct (shr_fexp_spec m2 e1 loc_Exact Hm2) as [He2 Hm3].
  destruct (shr_fexp 53 1024 m2 e1 loc_Exact) as [r2 e2]. simpl in He2, Hm3.
  assert (Hm3pos : 0 < shr_m r2) by (rewrite Hm3; apply shiftr_pos; lia).
  destruct (shr_m r2) as [|q|q]; [lia| |lia].
  destruct (e2 <=? 1024 - 53) eqn:Hle; [done|].
  apply Z.leb_gt in Hle. split; [done|]. lia.
Qed.

Lemma pos_iter_xO (p k : positive) : Zpos (Pos.iter xO p k) = Zpos p * 2 ^ Zpos k.
Proof.
  induction k as [|k IH] using Pos.peano_ind.
  - simpl. lia.
  - rewrite Pos.iter_succ, Pos2Z.inj_xO, IH, Pos2Z.inj_succ, Z.pow_succ_r by lia. lia.
Qed.

Lemma shl_align_spec (p : positive) (e e' : Z) :
  let r := shl_align p e e' in
  r.2 <= e /\ Z.log2 (Zpos r.1) + r.2 = Z.log2 (Zpos p) + e.
Proof.
  unfold shl_align. destruct (e' - e) as [|k|k] eqn:Hk; cbn [fst snd]; [lia|lia|].
  rewrite pos_iter_xO, Z.log2_mul_pow2 by lia. lia.
Qed.

(** [float64(z)] for an integer that is not zero: a number of the sign of
    [z], finite when [|z| < 2^1023]. *)
Lemma of_int_sign (z : Z) :
  z <> 0 ->
  match F64.of_int z with
  | S754_finite s _ _ => s = (z <? 0)
  | S754_infinity s => s = (z <? 0) /\ 2 ^ 1023 <= Z.abs z
  | _ => False
  end.
Proof.
  intros Hz.
  assert (Hround : forall s p,
            match binary_round 53 1024 s p 0 with
            | S754_finite s' _ _ => s' = s
            | S754_infinity s' => s' = s /\ 2 ^ 1023 <= Zpos p
            | _ => False
            end).
  { intros s p. unfold binary_round.
    pose proof (shl_align_spec p 0 (fexp 53 1024 (Z.pos (digits2_pos p) + 0))) as Hsh.
    destruct (shl_align p 0 _) as [mz ez]. cbn [fst snd] in Hsh. destruct Hsh as [Hez Hlog].
    pose proof (Z.log2_nonneg (Zpos p)).
    pose proof (binary_round_aux_sign s (Zpos mz) ez loc_Exact ltac:(lia) ltac:(lia)) as Haux.
    destruct (binary_round_aux 53 1024 s (Z.pos mz) ez loc_Exact) as [| s' | |s' m' e'];
      try done.
    destruct Haux as [-> Hbig]. split; [done|].
    assert (Hl : 1023 <= Z.log2 (Zpos p)) by lia.
    apply Z.log2_le_pow2 in Hl; lia. }
  unfold F64.of_int, binary_normalize.
  destruct z as [|p|p]; [done| |].
  - exact (Hround false p).
  - exact (Hround true p).
Qed.

Lemma of_int_finite (z : Z) :
  z <> 0 -> in_int64 z ->
  exists m e, F64.of_int z = S754_finite (z <? 0) m e.
Proof.
  intros Hz Hr. pose proof (of_int_sign z Hz) as Hs.
  destruct (F64.of_int z) as [| s | |s m e]; try done.
  - destruct Hs as [_ Hbig]. unfold in_int64 in Hr.
    assert (2 ^ 63 < 2 ^ 1023) by (apply Z.pow_lt_mono_r; lia). lia.
  - subst s. eauto.
Qed.

(** The quotient of a finite number by itself is one. *)
Lemma div_self (s : bool) (m : positive) (e : Z) :
  F64.div (S754_finite s m e) (S754_finite s m e)
  = S754_finite false 4503599627370496 (-52).
Proof.
  unfold F64.div, SFdiv, SFdiv_core_binary. cbv zeta.
  rewrite !Z.sub_diag.
  change (Z.min (fexp F64.prec F64.emax 0) 0) with (-53).
  change (0 - -53) with 53.
  assert (Hdiv : Z.div_eucl (Z.shiftl (Z.pos m) 53) (Z.pos m) = (2 ^ 53, 0)).
  { rewrite Z.shiftl_mul_pow2 by lia.
    destruct (Z.div_eucl (Z.pos m * 2 ^ 53) (Z.pos m)) as [q r] eqn:Hqr.
    assert (Hq : q = (Z.pos m * 2 ^ 53) / Z.pos m) by (unfold Z.div; by rewrite Hqr).
    assert (Hr : r = (Z.pos m * 2 ^ 53) mod Z.pos m) by (unfold Z.modulo; by rewrite Hqr).
    rewrite (Z.mul_comm (Z.pos m)), Z.div_mul in Hq by lia.
    rewrite (Z.mul_comm (Z.pos m)), Z.mod_mul in Hr by lia.
    by subst. }
  cbv beta iota. rewrite Hdiv.
  assert (Hloc : new_location (Z.pos m) 0 = loc_Exact).
  { unfold new_location. by destruct (Z.even (Z.pos m)). }
  rewrite Hloc, xorb_nilpotent. reflexivity.
Qed.

Lemma percent_zero_total (c : Z) :
  percent_of (mkProgress c 0) = if c =? 0 then S754_nan else S754_infinity (c <? 0).
Proof.
  destruct (Z.eqb_spec c 0) as [->|Hc]; [reflexivity|].
  pose proof (of_int_sign c Hc) as Hs. unfold percent_of. cbn [curr total].
  destruct (F64.of_int c) as [| s | |s m e]; try done.
  - destruct Hs as [<- _]. by destruct s.
  - subst s. by destruct (c <? 0).
Qed.

(** A mantissa and exponent in the form of the format are left as they
    are by the rounding. *)
Lemma binary_round_aux_canonical (s : bool) (m : positive) (e : Z) :
  Z.max (Z.log2 (Zpos m) + 1 + e - 53) (-1074) = e -> e <= 971 ->
  binary_round_aux 53 1024 s (Zpos m) e loc_Exact = S754_finite s m e.
Proof.
  intros Hc He.
  assert (Hshr : shr_fexp 53 1024 (Zpos m) e loc_Exact
                 = (Build_shr_record (Zpos m) false false, e)).
  { unfold shr_fexp. rewrite Zdigits2_log2, fexp_eq, Hc, Z.sub_diag. reflexivity. }
  unfold binary_round_aux. rewrite Hshr. cbn [shr_m loc_of_shr_record round_nearest_even].
  rewrite Hshr. cbn [shr_m].
  assert (Hle : (e <=? 1024 - 53) = true) by (apply Z.leb_le; lia).
  by rewrite Hle.
Qed.

(** [float64(z)] is exact for [0 < z < 2^53]. *)
Lemma of_int_small (z : Z) :
  0 < z < 2 ^ 53 ->
  exists m e,
    F64.of_int z = S754_finite false m e
    /\ e <= 0
    /\ Zpos m = z * 2 ^ (- e)
    /\ Z.max (Z.log2 (Zpos m) + 1 + e - 53) (-1074) = e.
Proof.
  intros Hz. destruct z as [|p|p]; [lia| |lia].
  assert (HL : 0 <= Z.log2 (Zpos p) <= 52).
  { split; [apply Z.log2_nonneg|].
    assert (Z.log2 (Z.pos p) < 53); [|lia]. apply Z.log2_lt_pow2; lia. }
  unfold F64.of_int, binary_normalize, binary_round, shl_align.
  change (Z.pos (digits2_pos p)) with (Zdigits2 (Zpos p)).
  rewrite Zdigits2_log2, fexp_eq.
  set (L := Z.log2 (Z.pos p)) in *.
  destruct (Z.max (L + 1 + 0 - 53) (-1074) - 0) as [|k|k] eqn:Hk; [| lia |].
  - exists p, 0. rewrite binary_round_aux_canonical by (fold L; lia).
    split_and!; try done; [lia|fold L; lia].
  - assert (Hkk : Z.pos k = 52 - L) by lia.
    assert (Hm : Z.pos (Pos.iter xO p k) = Z.pos p * 2 ^ (52 - L)).
    { by rewrite pos_iter_xO, Hkk. }
    assert (Hlog : Z.log2 (Z.pos (Pos.iter xO p k)) = 52).
    { rewrite Hm, Z.log2_mul_pow2 by lia. fold L. lia. }
    exists (Pos.iter xO p k), (Z.max (L + 1 + 0 - 53) (-1074)).
    rewrite binary_round_aux_canonical by (rewrite ?Hlog; lia).
    split_and!; try done; [lia| |rewrite Hlog; lia].
    rewrite Hm. f_equal. f_equal. lia.
Qed.

(** The conversion back, [int(float64(z))], is the identity below [2^53]. *)
Lemma to_int_of_int (z : Z) : 0 <= z < 2 ^ 53 -> F64.to_int (F64.of_int z) = z.
Proof.
  intros Hz. destruct (decide (z = 0)) as [->|Hne]; [reflexivity|].
  destruct (of_int_small z) as (m & e & -> & He & Hm & _); [lia|].
  unfold F64.to_int.
  assert (Ha : match e with
               | Z.neg k => Z.shiftr (Z.pos m) (Z.pos k)
               | _ => Z.shiftl (Z.pos m) e
               end = z).
  { destruct e as [|k|k]; [|lia|].
    - rewrite Z.shiftl_0_r, Hm. simpl. lia.
    - rewrite Z.shiftr_div_pow2, Hm by lia.
      change (- Z.neg k) with (Z.pos k). apply Z.div_mul. lia. }
  rewrite Ha.
  assert (Hr : (- 2 ^ 63 <=? z) && (z <? 2 ^ 63) = true).
  { apply andb_true_iff. split; [apply Z.leb_le|apply Z.ltb_lt]; lia. }
  by rewrite Hr.
Qed.

(** Multiplying by one leaves a number in the form of the format as it
    is. *)
Lemma mul_one_canonical (s : bool) (m : positive) (e : Z) :
  Z.max (Z.log2 (Zpos m) + 1 + e - 53) (-1074) = e -> e <= 971 ->
  F64.mul (S754_finite false 4503599627370496 (-52)) (S754_finite s m e)
  = S754_finite s m e.
Proof.
  intros Hc He. unfold F64.mul, SFmul. cbn [xorb].
  assert (Hlog : Z.log2 (Z.pos (4503599627370496 * m)) = 52 + Z.log2 (Zpos m)).
  { rewrite Pos2Z.inj_mul, Z.mul_comm.
    change (Z.pos 4503599627370496) with (2 ^ 52).
    rewrite Z.log2_mul_pow2 by lia. lia. }
  assert (Hshr : shr_fexp 53 1024 (Z.pos (4503599627370496 * m)) (-52 + e) loc_Exact
                 = (Build_shr_record (Zpos m) false false, e)).
  { unfold shr_fexp. rewrite Zdigits2_log2, fexp_eq, Hlog.
    replace (Z.max (52 + Z.log2 (Z.pos m) + 1 + (-52 + e) - 53) (-1074) - (-52 + e))
      with 52 by lia.
    unfold shr. replace (-52 + e + 52) with e by lia. reflexivity. }
  assert (Hshr2 : shr_fexp 53 1024 (Zpos m) e loc_Exact
                  = (Build_shr_record (Zpos m) false false, e)).
  { unfold shr_fexp. rewrite Zdigits2_log2, fexp_eq, Hc, Z.sub_diag. reflexivity. }
  unfold binary_round_aux. unfold F64.prec, F64.emax. rewrite Hshr.
  cbn [shr_m loc_of_shr_record round_nearest_even]. rewrite Hshr2. cbn [shr_m].
  assert (Hle : (e <=? 1024 - 53) = true) by (apply Z.leb_le; lia).
  by rewrite Hle.
Qed.

(** ** The progress line at the ends of the scale *)

Lemma cells_of_not_finite (progressSize : Z) (x : spec_float) :
  match x with
  | S754_nan | S754_infinity _ => True
  | _ => False
  end ->
  cells_of progressSize x = - 2 ^ 63.
Proof.
  intros Hx. unfold cells_of.
  destruct x as [| s | |]; try done;
    destruct (F64.of_int progressSize) as [s'|s'| |s' m' e']; reflexivity.
Qed.

Lemma string_app_nil_r (s : string) : s +:+ "" = s.
Proof.
  induction s as [|c s IH]; [done|].
  change (String c s +:+ "") with (String c (s +:+ "")). by rewrite IH.
Qed.

Lemma bar_empty (progressSize n : Z) :
  n < 0 -> bar progressSize n = cells (Z.to_nat progressSize) space_char.
Proof.
  intros Hn. rewrite bar_spec. unfold filled_of.
  replace (Z.to_nat (Z.min progressSize (n + 1))) with O by lia.
  simpl. by rewrite Nat.sub_0_r.
Qed.

Lemma bar_full (progressSize n : Z) :
  progressSize <= n + 1 -> bar progressSize n = cells (Z.to_nat progressSize) gt_char.
Proof.
  intros Hn. rewrite bar_spec. unfold filled_of.
  replace (Z.min progressSize (n + 1)) with progressSize by lia.
  rewrite Nat.sub_diag. simpl. apply string_app_nil_r.
Qed.

(** X10. A chunk whose total is zero.  [printProgress] divides by zero
    without failing: the percentage is NaN when nothing was read and an
    infinity of the sign of [curr] otherwise, the cell count is the
    out-of-range value of the conversion to [int] ([-2^63]), and the line
    shows a bar with no filled cell, whatever its width. *)
Theorem printProgress_zero_total (fmt : spec_float -> string)
    (progressSize index c : Z) :
  percent_of (mkProgress c 0) = (if c =? 0 then S754_nan else S754_infinity (c <? 0))
  /\ cells_of progressSize (percent_of (mkProgress c 0)) = - 2 ^ 63
  /\ printProgress fmt progressSize index (mkProgress c 0)
     = "Connection " +:+ pretty (wrap64 (index + 1)) +:+ "  - "
       +:+ ("[" +:+ cells (Z.to_nat progressSize) space_char +:+ "]"
            +:+ (" " +:+ fmt (percent_of (mkProgress c 0)) +:+ "%")) +:+ newline.
Proof.
  assert (Hn : cells_of progressSize (percent_of (mkProgress c 0)) = - 2 ^ 63).
  { apply cells_of_not_finite. rewrite percent_zero_total. by destruct (c =? 0). }
  split; [apply percent_zero_total|]. split; [exact Hn|].
  unfold printProgress. rewrite Hn, bar_empty by lia. reflexivity.
Qed.

Lemma percent_nothing_read (t : Z) :
  t <> 0 -> percent_of (mkProgress 0 t) = S754_zero (t <? 0).
Proof.
  intros Ht. pose proof (of_int_sign t Ht) as Hs. unfold percent_of. cbn [curr total].
  destruct (F64.of_int t) as [| s | |s m e]; try done.
  - destruct Hs as [<- _]. by destruct s.
  - subst s. by destruct (t <? 0).
Qed.

Lemma cells_of_zero (progressSize : Z) (s : bool) :
  in_int64 progressSize -> cells_of progressSize (S754_zero s) = 0.
Proof.
  intros Hr. unfold cells_of.
  destruct (decide (progressSize = 0)) as [->|Hne]; [by destruct s|].
  destruct (of_int_finite progressSize Hne Hr) as (m & e & ->). by destruct s.
Qed.

(** X11. A chunk of which nothing has been read.  Whatever its total (not
    zero), the percentage is zero and so is the cell count, and the loop
    fills cell 0: the bar of a chunk that has not started shows one filled
    cell (when it has a cell at all). *)
Theorem printProgress_nothing_read (fmt : spec_float -> string)
    (progressSize index t : Z) :
  t <> 0 ->
  in_int64 progressSize ->
  percent_of (mkProgress 0 t) = S754_zero (t <? 0)
  /\ cells_of progressSize (percent_of (mkProgress 0 t)) = 0
  /\ filled_cells (bar progressSize (cells_of progressSize (percent_of (mkProgress 0 t))))
     = Z.to_nat (Z.min progressSize 1)
  /\ printProgress fmt progressSize index (mkProgress 0 t)
     = "Connection " +:+ pretty (wrap64 (index + 1)) +:+ "  - "
       +:+ ("[" +:+ (cells (Z.to_nat (Z.min progressSize 1)) gt_char
                     +:+ cells (Z.to_nat progressSize - Z.to_nat (Z.min progressSize 1))
                           space_char)
            +:+ "]" +:+ (" " +:+ fmt (S754_zero (t <? 0)) +:+ "%")) +:+ newline.
Proof.
  intros Ht Hr.
  assert (Hp : percent_of (mkProgress 0 t) = S754_zero (t <? 0))
    by (by apply percent_nothing_read).
  assert (Hn : cells_of progressSize (percent_of (mkProgress 0 t)) = 0)
    by (rewrite Hp; by apply cells_of_zero).
  split; [exact Hp|]. split; [exact Hn|]. split.
  - rewrite Hn, bar_spec, filled_cells_app, filled_cells_gt, filled_cells_space.
    unfold filled_of. simpl. lia.
  - unfold printProgress. rewrite Hn, Hp, bar_spec. reflexivity.
Qed.

Lemma printProgress_nothing_read_witness :
  printProgress Sprint_float64_small 10 2 (mkProgress 0 4096)
  = "Connection 3  - [>         ] 0%" +:+ newline.
Proof.
  pose proof (printProgress_nothing_read Sprint_float64_small 10 2 4096) as H.
  destruct H as (_ & _ & _ & ->); [lia|unfold in_int64; lia|].
  reflexivity.
Defined.

Lemma percent_complete (t : Z) :
  t <> 0 -> in_int64 t -> percent_of (mkProgress t t) = F64.of_int 100.
Proof.
  intros Ht Hr. unfold percent_of. cbn [curr total].
  destruct (of_int_finite t Ht Hr) as (m & e & ->). by rewrite div_self.
Qed.

Lemma cells_of_hundred (progressSize : Z) :
  0 <= progressSize < 2 ^ 53 -> cells_of progressSize (F64.of_int 100) = progressSize.
Proof.
  intros Hr. unfold cells_of. rewrite <- (to_int_of_int progressSize Hr) at 2. f_equal.
  change (F64.div (F64.of_int 100) (F64.of_int 100))
    with (S754_finite false 4503599627370496 (-52)).
  destruct (decide (progressSize = 0)) as [->|Hne]; [reflexivity|].
  destruct (of_int_small progressSize) as (m & e & -> & He & _ & Hc); [lia|].
  apply mul_one_canonical; [done|lia].
Qed.

(** X12. A chunk that is complete.  When [curr = total] (not zero) the
    percentage is exactly 100, the cell count is the width of the bar, and
    every cell is filled. *)
Theorem printProgress_complete (fmt : spec_float -> string)
    (progressSize index t : Z) :
  t <> 0 ->
  in_int64 t ->
  0 <= progressSize < 2 ^ 53 ->
  percent_of (mkProgress t t) = F64.of_int 100
  /\ cells_of progressSize (percent_of (mkProgress t t)) = progressSize
  /\ printProgress fmt progressSize index (mkProgress t t)
     = "Connection " +:+ pretty (wrap64 (index + 1)) +:+ "  - "
       +:+ ("[" +:+ cells (Z.to_nat progressSize) gt_char +:+ "]"
            +:+ (" " +:+ fmt (F64.of_int 100) +:+ "%")) +:+ newline.
Proof.
  intros Ht Hr Hps.
  assert (Hp : percent_of (mkProgress t t) = F64.of_int 100) by (by apply percent_complete).
  assert (Hn : cells_of progressSize (percent_of (mkProgress t t)) = progressSize)
    by (rewrite Hp; by apply cells_of_hundred).
  split; [exact Hp|]. split; [exact Hn|].
  unfold printProgress. rewrite Hn, Hp, bar_full by lia. reflexivity.
Qed.

Lemma printProgress_complete_witness :
  printProgress Sprint_float64_small 10 0 (mkProgress 4096 4096)
  = "Connection 1  - [>>>>>>>>>>] 100%" +:+ newline.
Proof.
  pose proof (printProgress_complete Sprint_float64_small 10 0 4096) as H.
  destruct H as (_ & _ & ->); [lia|unfold in_int64; lia|lia|].
  reflexivity.
Defined.

(** ** The frames of the renderer *)

Lemma string_app_assoc (s1 s2 s3 : string) : (s1 +:+ s2) +:+ s3 = s1 +:+ (s2 +:+ s3).
Proof.
  induction s1 as [|c s1 IH]; [done|].
  change ((String c s1 +:+ s2) +:+ s3) with (String c ((s1 +:+ s2) +:+ s3)).
  by rewrite IH.
Qed.

Lemma printProgress_newline (fmt : spec_float -> string) (n index : Z) (p : progress) :
  exists s, printProgress fmt n index p = s +:+ newline.
Proof.
  unfold printProgress. cbv zeta. eexists. by rewrite <- !string_app_assoc.
Qed.

(** X13. The frames.  On a dense progress map a tick of the timer prints
    one line per chunk, in ascending order of the index, and then one
    cursor-up sequence per chunk, so that the next frame overwrites this
    one; the frame printed on the stop signal has the same lines and no
    cursor movement after them.  Every line ends with a newline.  The
    renderer changes neither the job nor the files. *)
Theorem renderer_frames (fmt : spec_float -> string) (n : Z) (st : state) :
  dense (progressBar (st_sum st)) ->
  ticker_case fmt n st
  = Ok (mkState (st_sum st) (st_fs st)
          (st_trace st
           ++ (EvPrint <$> frame_lines fmt n (progressBar (st_sum st)))
           ++ replicate (size (progressBar (st_sum st))) (EvPrint cursor_up)))
  /\ stop_case fmt n st
     = Ok (mkState (st_sum st) (st_fs st)
             (st_trace st
              ++ (EvPrint <$> frame_lines fmt n (progressBar (st_sum st)))
              ++ [EvRendererDone]))
  /\ length (frame_lines fmt n (progressBar (st_sum st))) = size (progressBar (st_sum st))
  /\ Forall (fun line => exists s, line = s +:+ newline)
            (frame_lines fmt n (progressBar (st_sum st))).
Proof.
  intros Hd. split_and!.
  - unfold ticker_case. rewrite render_all_dense by done. cbn [mbind outcome_bind].
    unfold print_all, emit, move_cursor_back. simpl.
    by rewrite fmap_replicate, <- app_assoc.
  - unfold stop_case. rewrite render_all_dense by done. cbn [mbind outcome_bind].
    unfold print_all, emit. simpl. by rewrite <- app_assoc.
  - unfold frame_lines, len. by rewrite length_fmap, length_seqZ, Nat2Z.id.
  - unfold frame_lines. apply Forall_fmap, Forall_forall. intros i _. simpl.
    apply printProgress_newline.
Qed.

Lemma renderer_frames_witness :
  ticker_case Sprint_float64_small 10 (mkState ex_job ex_fs [])
  = Ok (mkState ex_job ex_fs
          [EvPrint ("Connection 1  - [>         ] 0%" +:+ newline);
           EvPrint ("Connection 2  - [>         ] 0%" +:+ newline);
           EvPrint cursor_up; EvPrint cursor_up]).
Proof.
  refine (proj1 (renderer_frames Sprint_float64_small 10 (mkState ex_job ex_fs []) _)).
  intros i Hi. change (0 <= i < 2) in Hi.
  assert (Hc : i = 0 \/ i = 1) by lia. destruct Hc as [-> | ->]; discriminate.
Defined.

(** ** The names of the part files *)

(** X14. [getTempFileName] never fails and does not look at [start] and
    [end]; the names it gives to different indices are different, and none
    of them is the name of the final file.  So the chunks of a job whose
    part files are named by [getTempFileName] are files of their own. *)
Theorem getTempFileName_distinct (sum : summon) (i j s e s' e' : Z) :
  (getTempFileName sum i s e).2 = None
  /\ getTempFileName sum i s e = getTempFileName sum i s' e'
  /\ ((getTempFileName sum i s e).1 = (getTempFileName sum j s' e').1 <-> i = j)
  /\ (getTempFileName sum i s e).1 <> finalFileName sum
  /\ (forall cs : gmap Z (option File),
        (forall k h, index_ptr cs k = Some h ->
           fname h = (getTempFileName sum k 0 0).1) ->
        distinct_files cs).
Proof.
  assert (Hinj : forall a b, (getTempFileName sum a 0 0).1 = (getTempFileName sum b 0 0).1 ->
                             a = b).
  { unfold getTempFileName. simpl. intros a b H.
    do 5 apply (inj (String.append _)) in H. by apply (inj pretty) in H. }
  unfold getTempFileName, finalFileName. simpl. split_and!; try done.
  - split; [|by intros ->]. intros H.
    do 5 apply (inj (String.append _)) in H. by apply (inj pretty) in H.
  - intros H. do 2 apply (inj (String.append _)) in H.
    apply (f_equal String.length) in H. rewrite !string_length_app in H.
    simpl in H. lia.
  - intros cs Hcs a b h h' Hne Ha Hb Heq. apply Hne, Hinj.
    unfold getTempFileName. simpl.
    by rewrite <- (Hcs a h Ha), <- (Hcs b h' Hb).
Qed.

Lemma getTempFileName_distinct_witness : distinct_files ex_chunks.
Proof.
  pose proof (getTempFileName_distinct ex_job 0 1 0 0 0 0) as (_ & _ & _ & _ & Hd).
  apply Hd. intros k h. unfold index_ptr, ex_chunks.
  destruct (decide (k = 0)) as [->|H0]; [by intros [= <-]|].
  rewrite lookup_insert_ne by done.
  destruct (decide (k = 1)) as [->|H1]; [by intros [= <-]|].
  by rewrite lookup_singleton_ne.
Defined.

(** ** The probes *)

Lemma status_200_206 (sc : Z) :
  negb (sc =? 200) && negb (sc =? 206) = false -> sc = 200 \/ sc = 206.
Proof.
  destruct (Z.eqb_spec sc 200); [by left|].
  destruct (Z.eqb_spec sc 206); [by right|]. discriminate.
Qed.

(** X15. What [getRangeDetails] returns.  With an error it reports no range
    support and the length 0.  Without an error, the request was made and
    answered with status 200 or 206, the body was read to its end, the
    header [Content-Length] was parsed and the length returned is the first
    number parsed; range support is reported exactly when the first value
    of [Accept-Ranges] is [bytes].  It panics only when [parseint64]
    returns no number and no error. *)
Theorem getRangeDetails_result (parseint64 : string -> list Z * option error)
    (env : api_env) :
  match getRangeDetails parseint64 env with
  | Ok (supported, n, Some e) => supported = false /\ n = 0
  | Ok (supported, n, None) =>
      exists resp data rest,
        api_NewRequest_err env = None
        /\ api_Do env = inr resp
        /\ api_body resp = inr data
        /\ (api_status resp = 200 \/ api_status resp = 206)
        /\ parseint64 (Header_Get (api_header resp) "Content-Length") = (n :: rest, None)
        /\ (supported = true <-> Header_Get (api_header resp) "Accept-Ranges" = "bytes")
  | Panic _ =>
      exists resp,
        api_Do env = inr resp
        /\ parseint64 (Header_Get (api_header resp) "Content-Length") = ([], None)
  end.
Proof.
  unfold getRangeDetails, doAPICall.
  destruct (api_NewRequest_err env) as [e|] eqn:Hreq; [done|].
  destruct (api_Do env) as [e|resp] eqn:Hdo; [done|].
  destruct (api_body resp) as [e|data] eqn:Hbody; [done|].
  destruct (negb _ && negb _) eqn:Hst; [done|]. apply status_200_206 in Hst.
  destruct (parseint64 _) as [cl e] eqn:Hp. destruct e as [e|]; [done|].
  destruct cl as [|cl0 rest]; [by exists resp|].
  destruct (String.eqb_spec (Header_Get (api_header resp) "Accept-Ranges") "bytes") as [Hb|Hb];
    exists resp, data, rest; split_and!; try done.
Qed.

(** X16. What [getFileNameFromHeaders] returns.  With an error the name is
    empty.  Without an error, the request was made and answered with status
    200 exactly (206 is not accepted here), the body was read to its end,
    and the name is empty when the header [Content-Disposition] is missing
    or empty; otherwise the header was parsed and the name is the parameter
    [filename], or empty when the header has none. *)
Theorem getFileNameFromHeaders_result
    (mime_ParseMediaType : string -> string * gmap string string * option error)
    (env : api_env) :
  match getFileNameFromHeaders mime_ParseMediaType env with
  | (name, Some e) => name = ""
  | (name, None) =>
      exists resp data,
        api_NewRequest_err env = None
        /\ api_Do env = inr resp
        /\ api_body resp = inr data
        /\ api_status resp = 200
        /\ match Header_Get (api_header resp) "Content-Disposition" with
           | "" => name = ""
           | cd => exists mt params,
                     mime_ParseMediaType cd = (mt, params, None)
                     /\ name = default "" (params !! "filename")
           end
  end.
Proof.
  unfold getFileNameFromHeaders, doAPICall.
  destruct (api_NewRequest_err env) as [e|] eqn:Hreq; [done|].
  destruct (api_Do env) as [e|resp] eqn:Hdo; [done|].
  destruct (api_body resp) as [e|data] eqn:Hbody; [done|].
  destruct (Z.eqb_spec (api_status resp) 200) as [H200|H200]; simpl; [|done].
  destruct (Header_Get (api_header resp) "Content-Disposition") as [|c cd] eqn:Hcd.
  { exists resp, data. by rewrite Hcd. }
  change (String.eqb (String c cd) "") with false. cbv iota.
  destruct (mime_ParseMediaType _) as [[mt params] e] eqn:Hm.
  destruct e as [e|]; [done|].
  exists resp, data. rewrite Hcd. split_and!; try done. by exists mt, params.
Qed.

(** ** Where the file goes *)

(** X17. [setAbsolutePath] changes nothing of the job but the file name and
    the absolute path, and when it returns an error the absolute path is
    the old one.  When an output path is passed, the server is not asked
    and the file name is kept; so, after [setFileDir], the final file is
    the directory of that path followed by the file name the job had
    before: the last element of the path that was passed is not used. *)
Theorem setAbsolutePath_result
    (mime_ParseMediaType : string -> string * gmap string string * option error)
    (filepath_Base filepath_Dir : string -> string) (filepath_IsAbs : string -> bool)
    (filepath_Abs : string -> string * option error)
    (env : api_env) (opath : string) (sum : summon) :
  let run := setAbsolutePath mime_ParseMediaType filepath_Base filepath_IsAbs filepath_Abs in
  set_details (set_absolutePath (absolutePath (details sum))
                 (set_fileName (fileName (details sum)) (details (run env opath sum).1)))
              (run env opath sum).1 = sum
  /\ (forall e, (run env opath sum).2 = Some e ->
        absolutePath (details (run env opath sum).1) = absolutePath (details sum))
  /\ (opath <> "" ->
        (forall env', run env' opath sum = run env opath sum)
        /\ fileName (details (run env opath sum).1) = fileName (details sum)
        /\ ((run env opath sum).2 = None ->
              finalFileName (setFileDir filepath_Dir (run env opath sum).1)
              = filepath_Dir (if filepath_IsAbs opath then opath else (filepath_Abs opath).1)
                +:+ separator sum +:+ fileName (details sum))).
Proof.
  intros run. subst run. unfold setAbsolutePath, setFileDir, finalFileName.
  destruct (String.eqb_spec opath "") as [->|Hne].
  - destruct (getFileNameFromHeaders _ env) as [filename e]. destruct e as [e|].
    { simpl. split_and!; try done. by destruct sum as [? ? ? ? ? [] ? ?]. }
    destruct (String.eqb filename "").
    + destruct (filepath_IsAbs _); simpl.
      { split_and!; try done. by destruct sum as [? ? ? ? ? [] ? ?]. }
      destruct (filepath_Abs _) as [absPath [e|]]; simpl;
        (split_and!; try done; by destruct sum as [? ? ? ? ? [] ? ?]).
    + destruct (filepath_IsAbs _); simpl.
      { split_and!; try done. by destruct sum as [? ? ? ? ? [] ? ?]. }
      destruct (filepath_Abs _) as [absPath [e|]]; simpl;
        (split_and!; try done; by destruct sum as [? ? ? ? ? [] ? ?]).
  - destruct (filepath_IsAbs opath); simpl.
    { split_and!; try done. by destruct sum as [? ? ? ? ? [] ? ?]. }
    destruct (filepath_Abs opath) as [absPath [e|]]; simpl;
      (split_and!; try done; by destruct sum as [? ? ? ? ? [] ? ?]).
Qed.

Lemma setAbsolutePath_result_witness :
  finalFileName
    (setFileDir (fun _ => "/out")
       (setAbsolutePath (fun _ => ("", ∅, None)) (fun _ => "f.bin")
          (String.prefix "/") (fun p => ("/cwd/" +:+ p, None))
          (mkApiEnv None (inl (Errorf "no route to host"))) "/out/my.bin" ex_job).1)
  = "/out/f.bin".
Proof.
  pose proof (setAbsolutePath_result (fun _ => ("", ∅, None)) (fun _ => "f.bin")
                (fun _ => "/out") (String.prefix "/") (fun p => ("/cwd/" +:+ p, None))
                (mkApiEnv None (inl (Errorf "no route to host"))) "/out/my.bin" ex_job)
    as (_ & _ & Hexplicit).
  destruct Hexplicit as (_ & _ & Hfinal); [discriminate|].
  by rewrite Hfinal.
Defined.

(** ** The counters of fetchers that run side by side *)

Lemma added_app (l1 l2 : list fetch_action) : added (l1 ++ l2) = added l1 + added l2.
Proof.
  induction l1 as [|a l1 IH]; [reflexivity|].
  destruct a as [f data|idx r|e]; simpl; rewrite IH; lia.
Qed.

Lemma adds_for_nonneg (index : Z) (l : list fetch_action) : adds_for index l -> 0 <= added l.
Proof.
  induction 1 as [|a l Ha _ IH]; simpl; [lia|].
  destruct a as [f data|idx r|e]; lia.
Qed.

Lemma loop_actions_adds (index : Z) (body : Body) : forall (polls : list bool) (f : File),
  adds_for index (loop_actions polls body f index)
  /\ added (loop_actions polls body f index) = Z.of_nat (length (delivered polls body)).
Proof.
  induction body as [|rd body IH]; intros polls f.
  - simpl. destruct (hd false polls); by split; [constructor|].
  - cbn [loop_actions delivered]. destruct (hd false polls); [by split; [constructor|]|].
    destruct rd as [data e]. unfold read_actions. simpl.
    destruct (0 <? Z.of_nat (length data)) eqn:Hr.
    + destruct e as [e|].
      * simpl. rewrite app_nil_r. split; [|lia].
        constructor; [done|]. constructor; [|constructor]. split; [done|lia].
      * destruct (IH (tl polls) (advance f data)) as [Hf Ha]. simpl. split.
        -- constructor; [done|]. constructor; [|done]. split; [done|lia].
        -- rewrite Ha, length_app. lia.
    + apply Z.ltb_ge in Hr.
      assert (Hd : data = []) by (destruct data; simpl in *; [done|lia]). subst data.
      destruct e as [e|]; simpl; [by split; [constructor|]|]. apply IH.
Qed.

Lemma fetch_actions_adds (env : fetch_env) (index : Z) (f : File) :
  adds_for index (fetch_actions env index f)
  /\ added (fetch_actions env index f) = Z.of_nat (length (taken env)).
Proof.
  unfold fetch_actions, taken.
  destruct (NewRequest_err env) as [e|]; [by split; [repeat constructor|]|].
  destruct (Do_result env) as [e|resp]; [by split; [repeat constructor|]|].
  destruct (negb _ && negb _); [by split; [repeat constructor|]|].
  destruct (loop_actions_adds index (RespBody resp) (stop_polls env) f) as [Hf Ha].
  split.
  - apply Forall_app. split; [done|]. destruct (fetch_result _ _); by repeat constructor.
  - rewrite added_app, Ha. destruct (fetch_result _ _); simpl; lia.
Qed.

Lemma interleaving_elem (ls : list (list fetch_action)) (sched : list sched_event) :
  interleaving ls sched ->
  forall a, SFetch a ∈ sched -> exists i l, ls !! i = Some l /\ a ∈ l.
Proof.
  induction 1 as [ls Hall | ls sched Hint IH | ls k a0 l sched Hk Hint IH]; intros a Ha.
  - by apply elem_of_nil in Ha.
  - apply elem_of_cons in Ha as [Ha|Ha]; [discriminate|]. by apply IH.
  - apply elem_of_cons in Ha as [Ha|Ha].
    + injection Ha as ->. exists k, (a0 :: l). split; [done|]. by left.
    + destruct (IH a Ha) as (i & l' & Hl' & Hin).
      destruct (decide (i = k)) as [->|Hne].
      * rewrite list_lookup_insert_eq in Hl' by (by eapply lookup_lt_Some).
        injection Hl' as <-. exists k, (a0 :: l). split; [done|]. by right.
      * rewrite list_lookup_insert_ne in Hl' by done. by exists i, l'.
Qed.

(** The counter of each fetcher ends at its start plus what its increments
    add up to, however the fetchers are interleaved. *)
Lemma run_counters (fmt : spec_float -> string) (n : Z) :
  forall ls sched, interleaving ls sched ->
  forall st st1,
  run_sched fmt n sched st = Ok st1 ->
  (forall i l, ls !! i = Some l -> adds_for (Z.of_nat i) l) ->
  (forall i l pr, ls !! i = Some l ->
     index_ptr (progressBar (st_sum st)) (Z.of_nat i) = Some pr ->
     in_int64 (curr pr) /\ in_int64 (curr pr + added l)) ->
  (forall i l pr, ls !! i = Some l ->
     index_ptr (progressBar (st_sum st)) (Z.of_nat i) = Some pr ->
     index_ptr (progressBar (st_sum st1)) (Z.of_nat i)
     = Some (mkProgress (curr pr + added l) (total pr)))
  /\ (forall j, Z.of_nat (length ls) <= j ->
        index_ptr (progressBar (st_sum st1)) j = index_ptr (progressBar (st_sum st)) j).
Proof.
  intros ls sched Hint.
  induction Hint as [ls Hall | ls sched Hint IH | ls k a l sched Hk Hint IH];
    intros st st1 Hrun Hadds Hfit.
  - injection Hrun as <-. split; [|done]. intros i l pr Hl Hpr.
    rewrite <- (Forall_lookup_1 _ _ _ _ Hall Hl). simpl. by rewrite progress_add_0.
  - cbn [run_sched] in Hrun. unfold ticker_case in Hrun.
    destruct (render_all _ _ _) as [lines|w]; [|discriminate].
    cbn [mbind outcome_bind] in Hrun. by apply (IH _ _ Hrun).
  - assert (Hklt : (k < length ls)%nat) by (by eapply lookup_lt_Some).
    pose proof (Hadds k _ Hk) as Hak. apply Forall_cons in Hak as [Ha Hal].
    cbn [run_sched] in Hrun.
    destruct a as [f data|idx r|e]; cbn [apply_action mbind outcome_bind] in Hrun.
    + destruct (IH _ _ Hrun) as [Hc Ho].
      { intros i l' Hl'. destruct (decide (i = k)) as [->|Hne].
        - rewrite list_lookup_insert_eq in Hl' by done. by injection Hl' as <-.
        - rewrite list_lookup_insert_ne in Hl' by done. by apply Hadds. }
      { intros i l' pr Hl' Hpr. destruct (decide (i = k)) as [->|Hne].
        - rewrite list_lookup_insert_eq in Hl' by done. injection Hl' as <-.
          by apply (Hfit k _ pr Hk).
        - rewrite list_lookup_insert_ne in Hl' by done. by apply (Hfit i). }
      split; [|by rewrite length_insert in Ho].
      intros i l0 pr Hl0 Hpr. destruct (decide (i = k)) as [->|Hne].
      * assert (l0 = ActWrite f data :: l) as -> by congruence.
        apply (Hc k l pr); [by rewrite list_lookup_insert_eq|done].
      * apply (Hc i l0 pr); [by rewrite list_lookup_insert_ne|done].
    + destruct Ha as [-> Hr].
      destruct (index_ptr (progressBar (st_sum st)) (Z.of_nat k)) as [pr0|] eqn:Hpr0;
        [|discriminate].
      cbn [mbind outcome_bind] in Hrun.
      destruct (Hfit k _ pr0 Hk Hpr0) as [Hlo Hhi]. simpl in Hhi.
      pose proof (adds_for_nonneg _ _ Hal) as Hnn.
      rewrite wrap64_id in Hrun by (unfold in_int64 in *; lia).
      destruct (IH _ _ Hrun) as [Hc Ho].
      { intros i l' Hl'. destruct (decide (i = k)) as [->|Hne].
        - rewrite list_lookup_insert_eq in Hl' by done. by injection Hl' as <-.
        - rewrite list_lookup_insert_ne in Hl' by done. by apply Hadds. }
      { intros i l' pr Hl' Hpr. simpl in Hpr. destruct (decide (i = k)) as [->|Hne].
        - rewrite list_lookup_insert_eq in Hl' by done. injection Hl' as <-.
          rewrite index_ptr_insert_eq in Hpr. injection Hpr as <-. simpl.
          unfold in_int64 in *. lia.
        - rewrite list_lookup_insert_ne in Hl' by done.
          rewrite index_ptr_insert_ne in Hpr by lia. by apply (Hfit i). }
      split.
      * intros i l0 pr Hl0 Hpr. destruct (decide (i = k)) as [->|Hne].
        -- assert (l0 = ActAdd (Z.of_nat k) r :: l) as -> by congruence.
           assert (pr = pr0) as -> by congruence.
           rewrite (Hc k l (mkProgress (curr pr0 + r) (total pr0)));
             [|by rewrite list_lookup_insert_eq|simpl; by rewrite index_ptr_insert_eq].
           simpl. do 2 f_equal. lia.
        -- apply (Hc i l0 pr); [by rewrite list_lookup_insert_ne|].
           simpl. by rewrite index_ptr_insert_ne by lia.
      * intros j Hj. rewrite length_insert in Ho. rewrite Ho by done.
        simpl. apply index_ptr_insert_ne. lia.
    + destruct (IH _ _ Hrun) as [Hc Ho].
      { intros i l' Hl'. destruct (decide (i = k)) as [->|Hne].
        - rewrite list_lookup_insert_eq in Hl' by done. by injection Hl' as <-.
        - rewrite list_lookup_insert_ne in Hl' by done. by apply Hadds. }
      { intros i l' pr Hl' Hpr. destruct (decide (i = k)) as [->|Hne].
        - rewrite list_lookup_insert_eq in Hl' by done. injection Hl' as <-.
          by apply (Hfit k _ pr Hk).
        - rewrite list_lookup_insert_ne in Hl' by done. by apply (Hfit i). }
      split; [|by rewrite length_insert in Ho].
      intros i l0 pr Hl0 Hpr. destruct (decide (i = k)) as [->|Hne].
      * assert (l0 = ActSetErr e :: l) as -> by congruence.
        apply (Hc k l pr); [by rewrite list_lookup_insert_eq|done].
      * apply (Hc i l0 pr); [by rewrite list_lookup_insert_ne|done].
Qed.

Lemma fetchers_actions_lookup (cs : gmap Z (option File)) (envs : list fetch_env)
    (i : nat) (l : list fetch_action) :
  fetchers_actions cs envs !! i = Some l ->
  exists env, envs !! i = Some env
    /\ l = match index_ptr cs (Z.of_nat i) with
           | Some h => fetch_actions env (Z.of_nat i) h
           | None => []
           end.
Proof.
  unfold fetchers_actions. rewrite list_lookup_imap.
  destruct (envs !! i) as [env|]; [|discriminate]. intros [= <-]. by exists env.
Qed.

(** X18. The counters when the fetchers have joined.  On a dense progress
    map with an entry for every fetcher, any interleaving of the fetchers
    (whether they succeed or fail) and of the ticks runs without a panic;
    the counter of every chunk then stands at its start plus the number of
    bytes its fetcher took from its response (while that fits an [int64]),
    its total is unchanged, and the entries beyond the fetchers are
    untouched.  The frame printed on the stop signal shows these
    counters. *)
Theorem fetchers_final_counters (fmt : spec_float -> string) (n : Z)
    (envs : list fetch_env) (sched : list sched_event) (st : state) :
  let cs := chunks (details (st_sum st)) in
  let pm := progressBar (st_sum st) in
  dense pm ->
  Z.of_nat (length envs) <= len pm ->
  (forall i, (i < length envs)%nat -> index_ptr cs (Z.of_nat i) <> None) ->
  (forall i env pr, envs !! i = Some env -> index_ptr pm (Z.of_nat i) = Some pr ->
     in_int64 (curr pr) /\ in_int64 (curr pr + Z.of_nat (length (taken env)))) ->
  interleaving (fetchers_actions cs envs) sched ->
  exists st1,
    run_sched fmt n sched st = Ok st1
    /\ (forall i env pr, envs !! i = Some env -> index_ptr pm (Z.of_nat i) = Some pr ->
          index_ptr (progressBar (st_sum st1)) (Z.of_nat i)
          = Some (mkProgress (curr pr + Z.of_nat (length (taken env))) (total pr)))
    /\ (forall j, Z.of_nat (length envs) <= j ->
          index_ptr (progressBar (st_sum st1)) j = index_ptr pm j)
    /\ stop_case fmt n (emit [EvFetchersJoined; EvStopSent] st1)
       = Ok (emit ([EvFetchersJoined; EvStopSent]
                   ++ (EvPrint <$> frame_lines fmt n (progressBar (st_sum st1)))
                   ++ [EvRendererDone]) st1).
Proof.
  intros cs pm Hd Hlen Hcs Hfit Hint.
  assert (Hl : forall i l, fetchers_actions cs envs !! i = Some l ->
            exists env, envs !! i = Some env
              /\ adds_for (Z.of_nat i) l
              /\ added l = Z.of_nat (length (taken env))).
  { intros i l Hi. destruct (fetchers_actions_lookup cs envs i l Hi) as (env & Henv & ->).
    exists env. split; [done|].
    destruct (index_ptr cs (Z.of_nat i)) as [h|] eqn:Hh.
    - apply fetch_actions_adds.
    - destruct (Hcs i); [by eapply lookup_lt_Some|done]. }
  assert (Hv : adds_valid pm sched).
  { intros idx r Hin.
    destruct (interleaving_elem _ _ Hint _ Hin) as (i & l & Hi & Ha).
    destruct (Hl i l Hi) as (env & Henv & Hadds & _).
    pose proof (proj1 (Forall_forall _ _) Hadds _ Ha) as [-> _].
    apply Hd. apply lookup_lt_Some in Henv. lia. }
  destruct (run_sched_spec fmt n sched st Hd Hv) as (st1 & Hrun & _ & Hsh & _).
  destruct (run_counters fmt n _ _ Hint st st1 Hrun) as [Hc Ho].
  { intros i l Hi. by destruct (Hl i l Hi) as (env & _ & Hadds & _). }
  { intros i l pr Hi Hpr. destruct (Hl i l Hi) as (env & Henv & _ & ->).
    by apply (Hfit i env). }
  exists st1. split; [exact Hrun|]. split_and!.
  - intros i env pr Henv Hpr.
    destruct (lookup_lt_is_Some_2 (fetchers_actions cs envs) i) as [l Hi].
    { unfold fetchers_actions. rewrite length_imap. by eapply lookup_lt_Some. }
    destruct (Hl i l Hi) as (env' & Henv' & _ & Ha).
    assert (env' = env) as -> by congruence.
    rewrite <- Ha. by apply Hc.
  - intros j Hj. apply Ho. unfold fetchers_actions. by rewrite length_imap.
  - apply stop_case_dense. by eapply same_shape_dense.
Qed.

Lemma fetchers_final_counters_witness :
  exists st1,
    run_sched Sprint_float64_small 10
      [SFetch (ActWrite (mkFile "/d/.f.bin.sump1" 1 false) [Byte.x65]);
       SFetch (ActSetErr (unexpected_status 404));
       STick;
       SFetch (ActAdd 1 1)]
      (mkState ex_job ex_fs []) = Ok st1
    /\ index_ptr (progressBar (st_sum st1)) 0 = Some (mkProgress 0 2)
    /\ index_ptr (progressBar (st_sum st1)) 1 = Some (mkProgress 1 1).
Proof.
  destruct (fetchers_final_counters Sprint_float64_small 10
              [ex_env 404 [([Byte.x64], None)] [];
               ex_env 206 [([Byte.x65], Some io_EOF)] []]
              [SFetch (ActWrite (mkFile "/d/.f.bin.sump1" 1 false) [Byte.x65]);
               SFetch (ActSetErr (unexpected_status 404));
               STick;
               SFetch (ActAdd 1 1)]
              (mkState ex_job ex_fs [])) as (st1 & Hrun & Hc & _).
  - intros i Hi. change (0 <= i < 2) in Hi.
    assert (Hcase : i = 0 \/ i = 1) by lia. destruct Hcase as [-> | ->]; discriminate.
  - change (2 <= 2). lia.
  - intros i Hi. simpl in Hi.
    assert (Hcase : i = 0%nat \/ i = 1%nat) by lia. destruct Hcase as [-> | ->]; discriminate.
  - intros i env pr Henv Hpr.
    destruct i as [|[|i]]; simpl in Henv; [| |discriminate];
      injection Henv as <-; injection Hpr as <-; repeat split; by vm_compute.
  - eapply (interleaving_step _ 1%nat); [reflexivity|].
    eapply (interleaving_step _ 0%nat); [reflexivity|].
    apply interleaving_tick.
    eapply (interleaving_step _ 1%nat); [reflexivity|].
    apply interleaving_done. by repeat constructor.
  - exists st1. split; [exact Hrun|]. split.
    + exact (Hc 0%nat _ _ eq_refl eq_refl).
    + exact (Hc 1%nat _ _ eq_refl eq_refl).
Defined.

(** ** The renderer as an observer *)

Lemma apply_action_same_job (a : fetch_action) (st st' : state) :
  same_job st st' ->
  match apply_action a st, apply_action a st' with
  | Ok st1, Ok st1' => same_job st1 st1'
  | Panic w, Panic w' => w = w'
  | _, _ => False
  end.
Proof.
  intros [Hs Hf]. destruct a as [f data|idx r|e]; simpl; rewrite <- ?Hs, <- ?Hf.
  - by split.
  - destruct (index_ptr _ idx); [by split|done].
  - by split.
Qed.

Lemma combine_loop_same_job (todo : nat) : forall (i w : Z) (st st' : state),
  same_job st st' ->
  same_job (combine_loop todo i w st).1.1 (combine_loop todo i w st').1.1
  /\ (combine_loop todo i w st).1.2 = (combine_loop todo i w st').1.2
  /\ (combine_loop todo i w st).2 = (combine_loop todo i w st').2.
Proof.
  induction todo as [|todo IH]; intros i w st st' [Hs Hf]; [by split|].
  cbn [combine_loop]. cbv zeta. rewrite <- Hs, <- Hf.
  destruct (index_ptr _ i) as [h|]; [|by split].
  destruct (io_Copy _ _ _) as [[[[fs' dst'] src'] written] e].
  destruct e as [e|]; [by split|]. apply IH. by split.
Qed.

Lemma combineChunks_same_job (st st' : state) :
  same_job st st' ->
  same_job (combineChunks st).1 (combineChunks st').1
  /\ (combineChunks st).2 = (combineChunks st').2.
Proof.
  intros Hj. unfold combineChunks.
  destruct (combine_loop_same_job (size (chunks (details (st_sum st)))) 0 0 st st' Hj)
    as ([Hs Hf] & Hw & He).
  destruct Hj as [Hs0 Hf0]. rewrite <- Hs0.
  destruct (combine_loop _ 0 0 st) as [[st1 w1] e1].
  destruct (combine_loop _ 0 0 st') as [[st1' w1'] e1']. simpl in *. subst e1'.
  destruct e1 as [e1|]; [by split|]. rewrite <- Hs, <- Hf.
  destruct (os_Rename _ _ _) as [fs2 [e2|]]; by split.
Qed.

Lemma run_sched_drop_ticks (fmt : spec_float -> string) (n : Z) (sched : list sched_event) :
  forall st st',
  same_job st st' ->
  dense (progressBar (st_sum st)) ->
  adds_valid (progressBar (st_sum st)) sched ->
  exists st1 st1',
    run_sched fmt n sched st = Ok st1
    /\ run_sched fmt n (drop_ticks sched) st' = Ok st1'
    /\ same_job st1 st1'
    /\ dense (progressBar (st_sum st1)).
Proof.
  induction sched as [|ev sched IH]; intros st st' Hj Hd Hv; [by exists st, st'|].
  destruct ev as [a|]; cbn [run_sched drop_ticks flat_map app].
  - pose proof (apply_action_same_job a st st' Hj) as Ha.
    assert (Hok : exists st2, apply_action a st = Ok st2
                    /\ same_shape (progressBar (st_sum st)) (progressBar (st_sum st2))).
    { destruct a as [f data|idx r|e]; simpl.
      - eexists. split; [done|]. apply same_shape_refl.
      - destruct (index_ptr (progressBar (st_sum st)) idx) as [pr|] eqn:Hpr.
        + eexists. split; [done|]. simpl. by eapply same_shape_update.
        + destruct (Hv idx r); [by left|done].
      - eexists. split; [done|]. apply same_shape_refl. }
    destruct Hok as (st2 & Hst2 & Hsh). rewrite Hst2 in Ha |- *.
    destruct (apply_action a st') as [st2'|w]; [|done].
    cbn [mbind outcome_bind]. apply IH; [done|by eapply same_shape_dense|].
    eapply adds_valid_shape; [exact Hsh|]. by eapply adds_valid_cons.
  - unfold ticker_case. rewrite render_all_dense by done. cbn [mbind outcome_bind].
    apply IH; [exact Hj|exact Hd|by eapply adds_valid_cons].
Qed.

(** X19. The progress display does not influence the download.  On a dense
    progress map, running [process] with the ticks of the timer removed
    from the schedule gives the same result, the same job and the same
    files as running it with them: the runs differ only in what was
    printed. *)
Theorem ticks_are_cosmetic (fmt : spec_float -> string) (n : Z)
    (download resumeDownload : state -> state * option error)
    (sched : list sched_event) (st st0 : state) :
  getDownloader download resumeDownload (st_sum st) st = (st0, None) ->
  dense (progressBar (st_sum st0)) ->
  adds_valid (progressBar (st_sum st0)) sched ->
  exists st1 st2 res,
    process fmt n download resumeDownload sched st = Ok (st1, res)
    /\ process fmt n download resumeDownload (drop_ticks sched) st = Ok (st2, res)
    /\ st_sum st1 = st_sum st2
    /\ st_fs st1 = st_fs st2.
Proof.
  intros Hl Hd Hv.
  destruct (run_sched_drop_ticks fmt n sched (emit [EvRendererStarted] st0)
              (emit [EvRendererStarted] st0)) as (sa & sb & Hra & Hrb & [Hs Hf] & Hda);
    [by split|done|done|].
  assert (Hdb : dense (progressBar (st_sum sb))) by (by rewrite <- Hs).
  rewrite (process_joined fmt n download resumeDownload sched st st0 sa Hl Hra Hda).
  rewrite (process_joined fmt n download resumeDownload _ st st0 sb Hl Hrb Hdb).
  rewrite <- Hs.
  assert (Hj : same_job (after_stop fmt n sa) (after_stop fmt n sb)) by (by split).
  destruct (err (st_sum sa)) as [e|].
  - eexists _, _, _. split; [reflexivity|]. split; [reflexivity|]. simpl.
    by rewrite Hs.
  - destruct (combineChunks_same_job _ _ Hj) as ([Hs3 Hf3] & He3).
    destruct (combineChunks (after_stop fmt n sa)) as [s3 e3].
    destruct (combineChunks (after_stop fmt n sb)) as [s3' e3']. simpl in *. subst e3'.
    eexists _, _, _. split; [reflexivity|]. split; [reflexivity|]. simpl.
    by rewrite Hs3.
Qed.

Lemma ticks_are_cosmetic_witness :
  exists st1 st2 res,
    process Sprint_float64_small 10 ex_download ex_download
      [STick; SFetch (ActAdd 0 2); STick; SFetch (ActAdd 1 1)] (mkState ex_job ex_fs [])
    = Ok (st1, res)
    /\ process Sprint_float64_small 10 ex_download ex_download
         [SFetch (ActAdd 0 2); SFetch (ActAdd 1 1)] (mkState ex_job ex_fs [])
       = Ok (st2, res)
    /\ st_sum st1 = st_sum st2
    /\ st_fs st1 = st_fs st2.
Proof.
  refine (ticks_are_cosmetic Sprint_float64_small 10 ex_download ex_download
            [STick; SFetch (ActAdd 0 2); STick; SFetch (ActAdd 1 1)]
            (mkState ex_job ex_fs []) (mkState ex_job ex_fs []) _ _ _).
  - reflexivity.
  - intros i Hi. change (0 <= i < 2) in Hi.
    assert (Hc : i = 0 \/ i = 1) by lia. destruct Hc as [-> | ->]; discriminate.
  - intros idx r Hin.
    apply elem_of_cons in Hin as [Hin|Hin]; [discriminate|].
    apply elem_of_cons in Hin as [Hin|Hin]; [injection Hin as -> _; discriminate|].
    apply elem_of_cons in Hin as [Hin|Hin]; [discriminate|].
    apply elem_of_cons in Hin as [Hin|Hin]; [injection Hin as -> _; discriminate|].
    by apply elem_of_nil in Hin.
Defined.
